(** * Steem URI signing protocol: a shallow embedding of [src/index.ts]

    The development follows the source file top to bottom: the URL-safe
    Base64 codec ([b64uEnc], [b64uDec]), the decoder ([decode]), the
    placeholder resolver ([resolveTransaction]), the callback resolver
    ([resolveCallback]) and the encoders ([encodeParameters],
    [encodeJson], [encodeTx], [encodeOp], [encodeOps]).

    Modelling conventions.
    - A JavaScript string is a [string]: a sequence of 8-bit code units.
      These are the "binary strings" on which [btoa] is defined and which
      [atob] returns.  Strings holding a code unit above 255 are outside
      the model.
    - A JavaScript number is an integer of [Z].  The model prints and
      reads it as JavaScript does up to 2^53 - 1 in absolute value, the
      integers that a double holds exactly.
    - A call that can throw returns a [result]: [Ok v] for a normal
      return, [Throw e] for an exception.  The third outcome,
      [Unmodelled], marks an input on which the platform primitive is
      defined but leaves the model (a fraction in a JSON number, an
      escape for a code unit above 255, ...): no theorem below concludes
      anything from it.
    - The platform primitives used by the source ([btoa], [atob],
      [JSON.stringify], [JSON.parse], [URL], [URLSearchParams],
      [String.prototype.replace]) are modelled after their standards
      (WHATWG HTML and URL, ECMA-262, ECMA-404) in the modules [Base64],
      [JSON], [Url] and [Regex]. *)

From Stdlib Require Import String Ascii ZArith NArith List Bool Lia.
From stdpp Require Import gmap.
From stdpp Require strings.
Import ListNotations.

Local Open Scope string_scope.

(* stdpp blocks [simpl] on string append; the proofs below compute with it. *)
#[local] Arguments String.append !s1 s2 : simpl nomatch.

(** ** Outcomes of a call *)

(** The exceptions the source and the platform raise, by origin. *)
Inductive exn : Type :=
  | TypeError                               (* a property of undefined, a read-only property *)
  | InvalidCharacterError                   (* the DOMException of atob *)
  | SyntaxError                             (* JSON.parse *)
  | InvalidURL                              (* new URL(...) *)
  | InvalidProtocol (got : string)          (* Invalid protocol, expected 'steem:' got ... *)
  | InvalidAction (got : string)            (* Invalid action, expected 'sign' got ... *)
  | InvalidPayload (cause : exn)            (* Invalid payload: <cause> *)
  | InvalidSigningAction (got : option string) (* Invalid signing action ... *)
  | SignerUnavailable (signer : string).    (* Signer ... not available *)

Inductive result (A : Type) : Type :=
  | Ok (a : A)
  | Throw (e : exn)
  | Unmodelled.
Arguments Ok {A} a.
Arguments Throw {A} e.
Arguments Unmodelled {A}.

Definition bind {A B} (r : result A) (k : A -> result B) : result B :=
  match r with
  | Ok a => k a
  | Throw e => Throw e
  | Unmodelled => Unmodelled
  end.

(** Sequencing is written [x ← r; k], stdpp's notation for [mbind]. *)
#[global] Instance result_bind : MBind result := fun A B k r => bind r k.
#[global] Instance result_ret : MRet result := fun A a => Ok a.

(** [try { r } catch (error) { ... }]: the exception that leaves the
    handler, given what the handler makes of the one it catches. *)
Definition rethrow {A} (wrap : exn -> exn) (r : result A) : result A :=
  match r with
  | Throw e => Throw (wrap e)
  | _ => r
  end.

Definition succeeds {A} (r : result A) : Prop := exists a, r = Ok a.
Definition throws {A} (r : result A) : Prop := exists e, r = Throw e.

(** ** Strings *)

Module Str.

Definition map (f : ascii -> ascii) : string -> string :=
  fix go s := match s with
              | EmptyString => EmptyString
              | String c r => String (f c) (go r)
              end.

Definition forallb (p : ascii -> bool) : string -> bool :=
  fix go s := match s with
              | EmptyString => true
              | String c r => p c && go r
              end.

Definition filter (p : ascii -> bool) : string -> string :=
  fix go s := match s with
              | EmptyString => EmptyString
              | String c r => if p c then String c (go r) else go r
              end.

Definition code (c : ascii) : N := N_of_ascii c.

(** [lo <= c <= hi] on code units. *)
Definition between (lo hi c : ascii) : bool :=
  (code lo <=? code c)%N && (code c <=? code hi)%N.

Definition is_digit : ascii -> bool := between "0" "9".
Definition is_upper : ascii -> bool := between "A" "Z".
Definition is_lower : ascii -> bool := between "a" "z".
Definition is_alnum (c : ascii) : bool := is_digit c || is_upper c || is_lower c.

Definition dquote : ascii := "034"%char.
Definition backslash : ascii := "092"%char.

(** The longest prefix whose characters satisfy [p], and the rest. *)
Fixpoint span (p : ascii -> bool) (s : string) : string * string :=
  match s with
  | EmptyString => (EmptyString, EmptyString)
  | String c r =>
      if p c then let '(a, b) := span p r in (String c a, b)
      else (EmptyString, s)
  end.

(** [s.split(sep)] for a one-character separator: never empty. *)
Fixpoint split (sep : ascii) (s : string) : list string :=
  match s with
  | EmptyString => [EmptyString]
  | String c r =>
      if Ascii.eqb c sep then EmptyString :: split sep r
      else match split sep r with
           | x :: xs => String c x :: xs
           | [] => [String c EmptyString]
           end
  end.

(** [s] without its first [n] characters. *)
Fixpoint drop (n : nat) (s : string) : string :=
  match n, s with
  | O, _ => s
  | S k, String _ r => drop k r
  | S _, EmptyString => EmptyString
  end.

(** [Some rest] when [s = p ++ rest]. *)
Fixpoint strip_prefix (p s : string) : option string :=
  match p, s with
  | EmptyString, _ => Some s
  | String a p', String b s' => if Ascii.eqb a b then strip_prefix p' s' else None
  | String _ _, EmptyString => None
  end.

(** A literal with ['] standing for the double quote. *)
Definition q (s : string) : string :=
  map (fun c => if Ascii.eqb c "'" then dquote else c) s.
End Str.

(** ** The platform's Base64 primitives

    [btoa] follows RFC 4648 with padding.  [atob] follows the "forgiving
    base64 decode" of the HTML standard: ASCII whitespace is dropped, one
    or two trailing [=] are dropped when the length is a multiple of four,
    a length of 1 modulo 4 or a character outside the alphabet is an
    [InvalidCharacterError], and the bits left over in the last group are
    discarded. *)

Module Base64.

Import Str.
Local Open Scope N_scope.

Definition alphabet : string :=
  "ABCDEFGHIJKLMNOPQRSTUVWXYZabcdefghijklmnopqrstuvwxyz0123456789+/"%string.

Definition char_of (n : N) : ascii :=
  match String.get (N.to_nat n) alphabet with
  | Some c => c
  | None => "A"%char
  end.

Definition index_of (c : ascii) : option N :=
  if is_upper c then Some (code c - 65)
  else if is_lower c then Some (code c - 97 + 26)
  else if is_digit c then Some (code c - 48 + 52)
  else if Ascii.eqb c "+" then Some 62
  else if Ascii.eqb c "/" then Some 63
  else None.

Definition chr (n : N) : ascii := ascii_of_N n.

(** The sextets of a byte string, most significant first; the last
    group of one or two bytes is filled with zero bits. *)
Fixpoint to_sextets (s : string) : list N :=
  match s with
  | EmptyString => []
  | String a EmptyString =>
      let n := code a * 65536 in
      [n / 262144; (n / 4096) mod 64]
  | String a (String b EmptyString) =>
      let n := code a * 65536 + code b * 256 in
      [n / 262144; (n / 4096) mod 64; (n / 64) mod 64]
  | String a (String b (String c r)) =>
      let n := code a * 65536 + code b * 256 + code c in
      n / 262144 :: (n / 4096) mod 64 :: (n / 64) mod 64 :: n mod 64
        :: to_sextets r
  end.

(** The bytes of a sequence of sextets; the bits of an incomplete last
    byte are dropped. *)
Fixpoint of_sextets (l : list N) : string :=
  match l with
  | s1 :: s2 :: s3 :: s4 :: r =>
      let n := s1 * 262144 + s2 * 4096 + s3 * 64 + s4 in
      String (chr (n / 65536)) (String (chr ((n / 256) mod 256))
        (String (chr (n mod 256)) (of_sextets r)))
  | [s1; s2; s3] =>
      let n := s1 * 262144 + s2 * 4096 + s3 * 64 in
      String (chr (n / 65536)) (String (chr ((n / 256) mod 256)) EmptyString)
  | [s1; s2] =>
      let n := s1 * 262144 + s2 * 4096 in
      String (chr (n / 65536)) EmptyString
  | _ => EmptyString
  end.

Fixpoint chars (l : list N) : string :=
  match l with
  | [] => EmptyString
  | n :: r => String (char_of n) (chars r)
  end.

Fixpoint indices (s : string) : option (list N) :=
  match s with
  | EmptyString => Some []
  | String c r =>
      match index_of c, indices r with
      | Some n, Some l => Some (n :: l)
      | _, _ => None
      end
  end.

Definition padding (s : string) : string :=
  match (String.length s mod 3)%nat with
  | 1%nat => "=="%string
  | 2%nat => "="%string
  | _ => EmptyString
  end.

Definition btoa (s : string) : string := (chars (to_sextets s) ++ padding s)%string.

Definition is_ascii_whitespace (c : ascii) : bool :=
  existsb (Ascii.eqb c) ["009"; "010"; "012"; "013"; " "]%char.

(** Drops one or two [=] at the end of the data. *)
Fixpoint strip_padding (d : string) : string :=
  match d with
  | EmptyString => EmptyString
  | String c r =>
      if String.eqb d "=" || String.eqb d "==" then EmptyString
      else String c (strip_padding r)
  end.

(** The data that is decoded: without ASCII whitespace, and without its
    padding when the length is a multiple of four. *)
Definition forgiving_data (s : string) : string :=
  let d := filter (fun c => negb (is_ascii_whitespace c)) s in
  if (String.length d mod 4 =? 0)%nat then strip_padding d else d.

Definition atob (s : string) : result string :=
  let d := forgiving_data s in
  if (String.length d mod 4 =? 1)%nat then Throw InvalidCharacterError
  else match indices d with
       | Some l => Ok (of_sextets l)
       | None => Throw InvalidCharacterError
       end.

End Base64.

(** ** Numbers *)

(** [Number.prototype.toString] for the integers that a JavaScript number
    holds exactly (up to 2^53 - 1 in absolute value).  Beyond, a number is
    the nearest double, printed in its shortest digits and from 10^21 on
    with an exponent: the statements below keep numbers within the exact
    range. *)
Module Number.
Local Open Scope N_scope.
Definition digit (d : N) : ascii := ascii_of_N (48 + d).

Fixpoint digits_fuel (fuel : nat) (n : N) (acc : string) : string :=
  let acc := String (digit (n mod 10)) acc in
  match fuel with
  | O => acc
  | S f => if n <? 10 then acc else digits_fuel f (n / 10) acc
  end.

Definition of_N (n : N) : string := digits_fuel (N.to_nat (N.size n)) n EmptyString.

Definition toString (z : Z) : string :=
  if (z <? 0)%Z then String "-" (of_N (Z.abs_N z)) else of_N (Z.abs_N z).

(** The value of a string of decimal digits, after [acc]. *)
Fixpoint value_of (acc : N) (ds : string) : N :=
  match ds with
  | EmptyString => acc
  | String c r => value_of (acc * 10 + (Str.code c - 48)) r
  end.
End Number.


(** ** Objects

    The own enumerable properties of an ordinary object, in the order in
    which [Object.entries], [for-in] and [JSON.stringify] enumerate them. *)

Module Object.
Import Str.
Local Open Scope N_scope.

(** The index of an integer-indexed property key: a canonical numeric
    string below 2^32 - 1. *)
Definition array_index (k : string) : option N :=
  match k with
  | EmptyString => None
  | String d r =>
      if forallb is_digit k && (negb (Ascii.eqb d "0") || String.eqb r EmptyString)
         && (String.length k <=? 10)%nat && (Number.value_of 0 k <? 4294967295)
      then Some (Number.value_of 0 k)
      else None
  end.

(** Own property keys enumerate integer indices first, in ascending
    order, then the other keys in creation order. *)
Definition goes_before (k k' : string) : bool :=
  match array_index k, array_index k' with
  | Some i, Some j => i <? j
  | Some _, None => true
  | None, _ => false
  end.

(** CreateDataProperty on an ordinary object. *)
Fixpoint define {V} (o : list (string * V)) (k : string) (v : V)
  : list (string * V) :=
  match o with
  | [] => [(k, v)]
  | (k', v') :: r =>
      if String.eqb k k' then (k, v) :: r
      else if goes_before k k' then (k, v) :: o
      else (k', v') :: define r k v
  end.

(** [Object.entries(o)] *)
Definition entries {V} (o : list (string * V)) : list (string * V) := o.

(** [o[k] = v] on an object created by [{}], as far as own properties go:
    the key [__proto__] reaches the setter of [Object.prototype] and
    creates no own property.  The setter makes an object or [null] the
    prototype of [o]; prototypes are no part of the values of this
    development, and the statements about results exclude such a key. *)
Definition set {V} (o : list (string * V)) (k : string) (v : V) : list (string * V) :=
  if String.eqb k "__proto__" then o else define o k v.

End Object.

(** ** Values

    The values [JSON.parse] returns and [JSON.stringify] accepts.  The
    properties of an object are listed in the order in which JavaScript
    enumerates them. *)

#[local] Unset Elimination Schemes.
Inductive value : Type :=
  | Null
  | Bool (b : bool)
  | Num (n : Z)
  | Str (s : string)
  | Arr (elems : list value)
  | Obj (props : list (string * value)).

#[local] Set Elimination Schemes.

(** ** The platform's JSON primitives *)

Module JSON.
Import Str Str.
Local Open Scope N_scope.

Definition hex_digit (d : N) : ascii :=
  if d <? 10 then ascii_of_N (48 + d) else ascii_of_N (87 + d).

Definition hex_value (c : ascii) : option N :=
  if is_digit c then Some (code c - 48)
  else if between "a" "f" c then Some (code c - 87)
  else if between "A" "F" c then Some (code c - 55)
  else None.

(** QuoteJSONString, one code unit at a time. *)
Definition escape_char (c : ascii) : string :=
  if Ascii.eqb c dquote then String backslash (String dquote EmptyString)
  else if Ascii.eqb c backslash then String backslash (String backslash EmptyString)
  else if Ascii.eqb c "008" then String backslash "b"
  else if Ascii.eqb c "012" then String backslash "f"
  else if Ascii.eqb c "010" then String backslash "n"
  else if Ascii.eqb c "013" then String backslash "r"
  else if Ascii.eqb c "009" then String backslash "t"
  else if code c <? 32 then
    String backslash (String "u" (String "0" (String "0"
      (String (hex_digit (code c / 16)) (String (hex_digit (code c mod 16)) EmptyString)))))
  else String c EmptyString.

Fixpoint escape (s : string) : string :=
  match s with
  | EmptyString => EmptyString
  | String c r => (escape_char c ++ escape r)%string
  end.

Definition quote (s : string) : string :=
  String dquote (escape s ++ String dquote EmptyString).

Definition join (sep : string) (l : list string) : string := String.concat sep l.

(** [JSON.stringify(v, null, 0)] *)
Fixpoint stringify (v : value) : string :=
  match v with
  | Null => "null"
  | Bool true => "true"
  | Bool false => "false"
  | Num n => Number.toString n
  | Str s => quote s
  | Arr l => ("[" ++ join "," (List.map stringify l) ++ "]")%string
  | Obj kvs =>
      ("{" ++ join "," (List.map (fun kv => quote (fst kv) ++ ":" ++ stringify (snd kv)) kvs)
           ++ "}")%string
  end.

Definition is_ws (c : ascii) : bool :=
  existsb (Ascii.eqb c) [" "; "009"; "010"; "013"]%char.

Fixpoint skip_ws (s : string) : string :=
  match s with
  | String c r => if is_ws c then skip_ws r else s
  | EmptyString => s
  end.

Definition unescape (e : ascii) : option ascii :=
  if Ascii.eqb e dquote then Some dquote
  else if Ascii.eqb e backslash then Some backslash
  else if Ascii.eqb e "/" then Some "/"%char
  else if Ascii.eqb e "b" then Some "008"%char
  else if Ascii.eqb e "f" then Some "012"%char
  else if Ascii.eqb e "n" then Some "010"%char
  else if Ascii.eqb e "r" then Some "013"%char
  else if Ascii.eqb e "t" then Some "009"%char
  else None.

(** The code unit written [\uh1h2h3h4]. *)
Definition unicode_escape (h1 h2 h3 h4 : ascii) : result ascii :=
  match hex_value h1, hex_value h2, hex_value h3, hex_value h4 with
  | Some a, Some b, Some c, Some d =>
      if (a =? 0) && (b =? 0) then Ok (ascii_of_N (c * 16 + d)) else Unmodelled
  | _, _, _, _ => Throw SyntaxError
  end.

(** The characters of a string literal after its opening quote, and what
    follows the closing quote. *)
Fixpoint parse_string (s : string) : result (string * string) :=
  match s with
  | EmptyString => Throw SyntaxError
  | String c r =>
      if Ascii.eqb c dquote then Ok (EmptyString, r)
      else if Ascii.eqb c backslash then
        match r with
        | EmptyString => Throw SyntaxError
        | String e r1 =>
            if Ascii.eqb e "u" then
              match r1 with
              | String h1 (String h2 (String h3 (String h4 r2))) =>
                  ch ← unicode_escape h1 h2 h3 h4;
                  '(str, rest) ← parse_string r2;
                  Ok (String ch str, rest)
              | _ => Throw SyntaxError
              end
            else
              match unescape e with
              | Some ch =>
                  '(str, rest) ← parse_string r1;
                  Ok (String ch str, rest)
              | None => Throw SyntaxError
              end
        end
      else if code c <? 32 then Throw SyntaxError
      else
        '(str, rest) ← parse_string r;
        Ok (String c str, rest)
  end.

(** A number token at the head of [s]: [-]? then [0] or a digit sequence
    without leading zero.  A fraction or an exponent leaves the model;
    the integer read is the number that [JSON.parse] returns up to
    2^53 - 1 in absolute value, the range to which the statements about
    numbers keep. *)
Definition parse_number (s : string) : result (value * string) :=
  let '(neg, s1) := match s with
                    | String c r => if Ascii.eqb c "-" then (true, r) else (false, s)
                    | EmptyString => (false, s)
                    end in
  let '(ds, rest) := span is_digit s1 in
  match ds with
  | EmptyString => Throw SyntaxError
  | String d ds' =>
      if Ascii.eqb d "0" && negb (String.eqb ds' EmptyString) then Throw SyntaxError
      else
        match rest with
        | String c _ =>
            if Ascii.eqb c "." || Ascii.eqb c "e" || Ascii.eqb c "E" then Unmodelled
            else Ok (Num (if neg then - Z.of_N (Number.value_of 0 ds)
                          else Z.of_N (Number.value_of 0 ds)), rest)
        | EmptyString =>
            Ok (Num (if neg then - Z.of_N (Number.value_of 0 ds)
                     else Z.of_N (Number.value_of 0 ds)), rest)
        end
  end.

Definition obj_of_members (ms : list (string * value)) : list (string * value) :=
  fold_left (fun o kv => Object.define o (fst kv) (snd kv)) ms [].

Fixpoint parse_value (fuel : nat) (s : string) : result (value * string) :=
  match fuel with
  | O => Unmodelled
  | S f =>
      match skip_ws s with
      | EmptyString => Throw SyntaxError
      | String c r as s1 =>
          if Ascii.eqb c "[" then
            match skip_ws r with
            | EmptyString => Throw SyntaxError
            | String c1 r1 as s2 =>
                if Ascii.eqb c1 "]" then Ok (Arr [], r1)
                else '(l, rest) ← parse_elements f s2; Ok (Arr l, rest)
            end
          else if Ascii.eqb c "{" then
            match skip_ws r with
            | EmptyString => Throw SyntaxError
            | String c1 r1 as s2 =>
                if Ascii.eqb c1 "}" then Ok (Obj [], r1)
                else '(ms, rest) ← parse_members f s2; Ok (Obj (obj_of_members ms), rest)
            end
          else if Ascii.eqb c dquote then
            '(str, rest) ← parse_string r; Ok (Str str, rest)
          else if Ascii.eqb c "-" || is_digit c then parse_number s1
          else match strip_prefix "true" s1, strip_prefix "false" s1, strip_prefix "null" s1 with
               | Some rest, _, _ => Ok (Bool true, rest)
               | _, Some rest, _ => Ok (Bool false, rest)
               | _, _, Some rest => Ok (Null, rest)
               | _, _, _ => Throw SyntaxError
               end
      end
  end
with parse_elements (fuel : nat) (s : string) : result (list value * string) :=
  match fuel with
  | O => Unmodelled
  | S f =>
      '(v, r) ← parse_value f s;
      match skip_ws r with
      | EmptyString => Throw SyntaxError
      | String c r1 =>
          if Ascii.eqb c "," then
            '(l, rest) ← parse_elements f r1; Ok (v :: l, rest)
          else if Ascii.eqb c "]" then Ok ([v], r1)
          else Throw SyntaxError
      end
  end
with parse_members (fuel : nat) (s : string) : result (list (string * value) * string) :=
  match fuel with
  | O => Unmodelled
  | S f =>
      match skip_ws s with
      | EmptyString => Throw SyntaxError
      | String c0 r0 =>
          if Ascii.eqb c0 dquote then
            '(k, r) ← parse_string r0;
            match skip_ws r with
            | EmptyString => Throw SyntaxError
            | String c1 r1 =>
                if Ascii.eqb c1 ":" then
                  '(v, r2) ← parse_value f r1;
                  match skip_ws r2 with
                  | EmptyString => Throw SyntaxError
                  | String c2 r3 =>
                      if Ascii.eqb c2 "," then
                        '(ms, rest) ← parse_members f r3; Ok ((k, v) :: ms, rest)
                      else if Ascii.eqb c2 "}" then Ok ([(k, v)], r3)
                      else Throw SyntaxError
                  end
                else Throw SyntaxError
            end
          else Throw SyntaxError
      end
  end.

(** [JSON.parse(s)] *)
Definition parse (s : string) : result value :=
  '(v, rest) ← parse_value (2 * String.length s + 1) s;
  match skip_ws rest with
  | EmptyString => Ok v
  | String _ _ => Throw SyntaxError
  end.

End JSON.


(** ** The platform's URL primitives *)

Module Url.
Import Str Str.
Local Open Scope N_scope.

Definition hex_upper (d : N) : ascii :=
  if d <? 10 then ascii_of_N (48 + d) else ascii_of_N (55 + d).

Definition percent_byte (c : ascii) : string :=
  String "%" (String (hex_upper (code c / 16)) (String (hex_upper (code c mod 16)) EmptyString)).

(** UTF-8 of a string of code units below 256. *)
Fixpoint utf8_encode (s : string) : string :=
  match s with
  | EmptyString => EmptyString
  | String c r =>
      if code c <? 128 then String c (utf8_encode r)
      else String (ascii_of_N (192 + code c / 64))
             (String (ascii_of_N (128 + code c mod 64)) (utf8_encode r))
  end.

(** UTF-8 decoding, for the byte sequences that decode to code units
    below 256. *)
Fixpoint utf8_decode (bytes : string) : result string :=
  match bytes with
  | EmptyString => Ok EmptyString
  | String b r =>
      if code b <? 128 then s ← utf8_decode r; Ok (String b s)
      else if (code b =? 194) || (code b =? 195) then
        match r with
        | String b2 r2 =>
            if (128 <=? code b2) && (code b2 <? 192) then
              s ← utf8_decode r2;
              Ok (String (ascii_of_N ((code b - 192) * 64 + (code b2 - 128))) s)
            else Unmodelled
        | EmptyString => Unmodelled
        end
      else Unmodelled
  end.

(** The application/x-www-form-urlencoded byte serializer. *)
Definition urlencode_byte (c : ascii) : string :=
  if Ascii.eqb c " " then "+"%string
  else if is_alnum c || existsb (Ascii.eqb c) ["*"; "-"; "."; "_"]%char
       then String c EmptyString
       else percent_byte c.

Fixpoint urlencode_bytes (s : string) : string :=
  match s with
  | EmptyString => EmptyString
  | String c r => (urlencode_byte c ++ urlencode_bytes r)%string
  end.

Definition urlencode (s : string) : string := urlencode_bytes (utf8_encode s).

Fixpoint percent_decode (s : string) : string :=
  match s with
  | EmptyString => EmptyString
  | String c r =>
      match r with
      | String h1 (String h2 r2) =>
          match JSON.hex_value h1, JSON.hex_value h2 with
          | Some a, Some b =>
              if Ascii.eqb c "%" then String (ascii_of_N (a * 16 + b)) (percent_decode r2)
              else String c (percent_decode r)
          | _, _ => String c (percent_decode r)
          end
      | _ => String c (percent_decode r)
      end
  end.

Definition urldecode (s : string) : result string :=
  utf8_decode (percent_decode (map (fun c => if Ascii.eqb c "+" then " "%char else c) s)).

(** The name and the value of one [name=value] sequence. *)
Definition split_pair (s : string) : string * string :=
  let '(n, r) := span (fun c => negb (Ascii.eqb c "=")) s in
  (n, drop 1 r).

Fixpoint parse_pairs (l : list string) : result (list (string * string)) :=
  match l with
  | [] => Ok []
  | p :: r =>
      if String.eqb p EmptyString then parse_pairs r
      else
        let '(n, v) := split_pair p in
        n' ← urldecode n;
        v' ← urldecode v;
        ps ← parse_pairs r;
        Ok ((n', v') :: ps)
  end.

(** The application/x-www-form-urlencoded parser. *)
Definition urlencoded_parse (query : string) : result (list (string * string)) :=
  parse_pairs (split "&" query).

End Url.

(** [URLSearchParams]: an ordered list of name-value pairs. *)
Module URLSearchParams.

Definition t : Type := list (string * string).

Definition has (l : t) (name : string) : bool :=
  existsb (fun p => String.eqb (fst p) name) l.

Definition get (l : t) (name : string) : option string :=
  snd <$> List.find (fun p => String.eqb (fst p) name) l.

(** [set]: the first pair named [name] takes the value and the others
    are removed; without one, the pair is appended. *)
Fixpoint set (l : t) (name value : string) : t :=
  match l with
  | [] => [(name, value)]
  | (n, v) :: r =>
      if String.eqb n name
      then (n, value) :: List.filter (fun p => negb (String.eqb (fst p) name)) r
      else (n, v) :: set r name value
  end.

Definition toString (l : t) : string :=
  String.concat "&" (List.map (fun p => Url.urlencode (fst p) ++ "=" ++ Url.urlencode (snd p)) l).

End URLSearchParams.

(** [URL]: the parts of a parsed URL that the source reads. *)
Module URL.
Import Str Str.

Record t : Type := mk {
  protocol : string;
  host : string;
  pathname : string;
  searchParams : URLSearchParams.t
}.

Definition is_printable (c : ascii) : bool := between "!" "~" c.
Definition is_alpha (c : ascii) : bool := is_upper c || is_lower c.
Definition is_scheme_char (c : ascii) : bool :=
  is_alnum c || existsb (Ascii.eqb c) ["+"; "-"; "."]%char.

Definition to_lower (c : ascii) : ascii :=
  if is_upper c then ascii_of_N (code c + 32) else c.

Definition special_schemes : list string := ["http"; "https"; "ftp"; "ws"; "wss"; "file"].

Definition is_single_dot (seg : string) : bool :=
  let s := map to_lower seg in
  String.eqb s "." || String.eqb s "%2e".

Definition is_double_dot (seg : string) : bool :=
  let s := map to_lower seg in
  String.eqb s ".." || String.eqb s ".%2e" || String.eqb s "%2e." || String.eqb s "%2e%2e".

(** The path state of the URL parser on the text between slashes. *)
Fixpoint path_segments (pieces : list string) (path : list string) : list string :=
  match pieces with
  | [] => path
  | [p] =>
      if is_double_dot p then removelast path ++ [EmptyString]
      else if is_single_dot p then path ++ [EmptyString]
      else path ++ [p]
  | p :: rest =>
      if is_double_dot p then path_segments rest (removelast path)
      else if is_single_dot p then path_segments rest path
      else path_segments rest (path ++ [p])
  end.

Definition serialize_path (path : list string) : string :=
  String.concat EmptyString (List.map (fun seg => String "/" seg) path).

(** Characters of a path that the parser percent-encodes (the set differs
    between versions of the standard). *)
Definition path_encoded (c : ascii) : bool :=
  existsb (Ascii.eqb c) ["034"; "<"; ">"; "^"; "`"; "{"; "}"]%char.

Definition host_forbidden (c : ascii) : bool :=
  existsb (Ascii.eqb c) ["<"; ">"; "092"; "^"; "|"]%char.

Definition host_unmodelled (c : ascii) : bool :=
  existsb (Ascii.eqb c) ["@"; ":"; "["; "]"]%char.

(** The text before the first [c], and the text after it if there is one. *)
Definition cut (c : ascii) (s : string) : string * option string :=
  let '(a, b) := span (fun x => negb (Ascii.eqb x c)) s in
  (a, match b with EmptyString => None | String _ r => Some r end).

(** [new URL(input)] without a base, for a printable ASCII input with a
    scheme that is not special, and a host without credentials or port. *)
Definition parse (input : string) : result t :=
  if negb (forallb is_printable input) then Unmodelled
  else
    let '(sch, r) := span is_scheme_char input in
    match sch, r with
    | String c0 _, String colon rest =>
        if negb (is_alpha c0 && Ascii.eqb colon ":") then Throw InvalidURL
        else
          let scheme := map to_lower sch in
          if existsb (String.eqb scheme) special_schemes then Unmodelled
          else
            let '(hier, query) := cut "?" (fst (cut "#" rest)) in
            params ← match query with
                     | Some qs => Url.urlencoded_parse qs
                     | None => Ok []
                     end;
            match strip_prefix "//" hier, strip_prefix "/" hier with
            | Some auth_path, _ =>
                let '(authority, path) := cut "/" auth_path in
                if negb (forallb (fun c => negb (host_forbidden c)) authority)
                then Throw InvalidURL
                else if negb (forallb (fun c => negb (host_unmodelled c)) authority)
                     || negb (forallb (fun c => negb (path_encoded c)) hier)
                then Unmodelled
                else
                  Ok (mk (scheme ++ ":") authority
                         (match path with
                          | Some p => serialize_path (path_segments (split "/" p) [])
                          | None => EmptyString
                          end) params)
            | None, Some p =>
                if negb (forallb (fun c => negb (path_encoded c)) hier) then Unmodelled
                else Ok (mk (scheme ++ ":") EmptyString
                            (serialize_path (path_segments (split "/" p) [])) params)
            | None, None => Ok (mk (scheme ++ ":") EmptyString hier params)
            end
    | _, _ => Throw InvalidURL
    end.

End URL.


(** * The source, [src/index.ts] *)

(** ** URL-safe Base64 (source lines 23-26) *)

(** [B64U_LOOKUP], one direction at a time: the regular expression of
    [b64uEnc] matches [+], [/] and [=] only, that of [b64uDec] matches
    [-], [_] and [.] only. *)
Definition B64U_LOOKUP_enc (c : ascii) : ascii :=
  if Ascii.eqb c "+" then "-"
  else if Ascii.eqb c "/" then "_"
  else if Ascii.eqb c "=" then "."
  else c.

Definition B64U_LOOKUP_dec (c : ascii) : ascii :=
  if Ascii.eqb c "-" then "+"
  else if Ascii.eqb c "_" then "/"
  else if Ascii.eqb c "." then "="
  else c.

Definition b64uEnc (str : string) : string :=
  Str.map B64U_LOOKUP_enc (Base64.btoa str).

Definition b64uDec (str : string) : result string :=
  Base64.atob (Str.map B64U_LOOKUP_dec str).

(** ** Language semantics used by the source *)

(** A value that is a number or a string; [None] stands for [undefined]. *)
Inductive scalar : Type :=
  | SNum (n : Z)
  | SStr (s : string).

(** ToString *)
Definition ToString (v : option scalar) : string :=
  match v with
  | Some (SNum n) => Number.toString n
  | Some (SStr s) => s
  | None => "undefined"
  end.

(** ToBoolean *)
Definition truthy (v : option scalar) : bool :=
  match v with
  | Some (SNum n) => negb (n =? 0)%Z
  | Some (SStr s) => negb (String.eqb s EmptyString)
  | None => false
  end.

(** [a || b] *)
Definition or_else (a : option scalar) (b : scalar) : scalar :=
  match a with
  | Some v => if truthy a then v else b
  | None => b
  end.

(** [a || b] on strings. *)
Definition or_string (a : option string) (b : string) : string :=
  if truthy (SStr <$> a) then default b a else b.

Module Regex.

(** A global pattern that is an alternation of literals: each alternative
    with the text of the capture group that the callback reads. *)
Definition pattern : Type := list (string * string).

(** The first alternative that matches at the head of [s]. *)
Fixpoint exec (p : pattern) (s : string) : option (string * string) :=
  match p with
  | [] => None
  | (lit, group) :: alts =>
      match Str.strip_prefix lit s with
      | Some _ => Some (lit, group)
      | None => exec alts s
      end
  end.

(** [s.replace(p, f)], scanning from the left; [skip] counts the
    characters of the last match still to pass over. *)
Fixpoint replace_from (p : pattern) (f : string -> string -> string)
    (skip : nat) (s : string) : string :=
  match s with
  | EmptyString =>
      match skip, exec p s with
      | O, Some (m, g) => f m g
      | _, _ => EmptyString
      end
  | String c r =>
      match skip with
      | S k => replace_from p f k r
      | O =>
          match exec p s with
          | Some (m, g) =>
              match String.length m with
              | O => f m g ++ String c (replace_from p f 0 r)
              | S k => f m g ++ replace_from p f k r
              end
          | None => String c (replace_from p f 0 r)
          end
      end
  end.

Definition replace (p : pattern) (f : string -> string -> string) (s : string) : string :=
  replace_from p f 0 s.

End Regex.


(** ** [decode] (source lines 28-119) *)

Module Parameters.
Record t : Type := mk {
  signer : option string;
  callback : option string;
  no_broadcast : option bool
}.
End Parameters.

Module DecodeResult.
Record t : Type := mk { tx : value; params : Parameters.t }.
End DecodeResult.

(** The transaction that [decode] builds around the operations of an
    [op] or [ops] link (source lines 95-101). *)
Definition unresolved (operations : value) : value :=
  Obj [("ref_block_num", Str "__ref_block_num");
       ("ref_block_prefix", Str "__ref_block_prefix");
       ("expiration", Str "__expiration");
       ("extensions", Arr []);
       ("operations", operations)].

(** The handler of [decode] (source lines 83-86):
    [error.message = `Invalid payload: ...`; throw error].  An [Error]
    takes the message and is thrown again.  The exception of [atob] is
    a [DOMException], whose [message] has a getter only: in the strict
    code of a module the assignment throws a [TypeError], and no label
    is set. *)
Definition label_payload_error (error : exn) : exn :=
  match error with
  | InvalidCharacterError => TypeError
  | _ => InvalidPayload error
  end.

(** The [try] block of [decode] (source lines 80-86).  On a missing
    segment [b64uDec] reads a property of [undefined]. *)
Definition decode_payload (rawPayload : option string) : result value :=
  rethrow label_payload_error
    (str ← match rawPayload with
           | Some s => b64uDec s
           | None => Throw TypeError
           end;
     JSON.parse str).

(** [decode], from the parsed URL on (source lines 73-118). *)
Definition decode_url (url : URL.t) : result DecodeResult.t :=
  if negb (String.eqb (URL.protocol url) "steem:") then
    Throw (InvalidProtocol (URL.protocol url))
  else if negb (String.eqb (URL.host url) "sign") then
    Throw (InvalidAction (URL.host url))
  else
    let segments := List.tl (Str.split "/" (URL.pathname url)) in
    let type := nth_error segments 0 in
    let rawPayload := nth_error segments 1 in
    payload ← decode_payload rawPayload;
    tx ← match type with
         | Some t =>
             if String.eqb t "tx" then Ok payload
             else if String.eqb t "op" then Ok (unresolved (Arr [payload]))
             else if String.eqb t "ops" then Ok (unresolved payload)
             else Throw (InvalidSigningAction type)
         | None => Throw (InvalidSigningAction type)
         end;
    let search := URL.searchParams url in
    callback ← match URLSearchParams.get search "cb" with
               | Some cb => s ← b64uDec cb; Ok (Some s)
               | None => Ok None
               end;
    let no_broadcast := if URLSearchParams.has search "nb" then Some true else None in
    let signer := URLSearchParams.get search "s" in
    Ok (DecodeResult.mk tx (Parameters.mk signer callback no_broadcast)).

Definition decode (steemUrl : string) : result DecodeResult.t :=
  url ← URL.parse steemUrl;
  decode_url url.

(** ** [resolveTransaction] (source lines 121-192) *)

Module ResolveOptions.
Record t : Type := mk {
  ref_block_num : Z;
  ref_block_prefix : Z;
  expiration : string;
  signers : list string;
  preferred_signer : string
}.
End ResolveOptions.

Module ResolveResult.
Record t : Type := mk { tx : value; signer : string }.
End ResolveResult.

Definition RESOLVE_PATTERN : Regex.pattern :=
  List.map (fun m => (m, m))
    ["__ref_block_num"; "__ref_block_prefix"; "__expiration"; "__signer"].

(** The inner function [walk] of [resolveTransaction]. *)
Fixpoint walk (ctx : gmap string scalar) (val : value) : value :=
  match val with
  | Str s => Str (Regex.replace RESOLVE_PATTERN (fun m _ => ToString (ctx !! m)) s)
  | Arr l => Arr (List.map (walk ctx) l)
  | Obj o =>
      Obj (fold_left (fun rv kv => Object.set rv (fst kv) (walk ctx (snd kv)))
             (Object.entries o) [])
  | _ => val
  end.

Definition resolveTransaction (utx : value) (params : Parameters.t)
    (options : ResolveOptions.t) : result ResolveResult.t :=
  let signer :=
    or_string (Parameters.signer params) (ResolveOptions.preferred_signer options) in
  if negb (existsb (String.eqb signer) (ResolveOptions.signers options)) then
    Throw (SignerUnavailable signer)
  else
    let ctx : gmap string scalar :=
      {[ "__ref_block_num" := SNum (ResolveOptions.ref_block_num options);
         "__ref_block_prefix" := SNum (ResolveOptions.ref_block_prefix options);
         "__expiration" := SStr (ResolveOptions.expiration options);
         "__signer" := SStr signer ]} in
    let tx := walk ctx utx in
    Ok (ResolveResult.mk tx signer).

(** ** [resolveCallback] (source lines 194-218) *)

Module TransactionConfirmation.
Record t : Type := mk {
  sig : string;
  id : option string;
  block : option Z;
  txn : option Z
}.

(** [ctx[m]] *)
Definition get (ctx : t) (m : string) : option scalar :=
  if String.eqb m "sig" then Some (SStr (sig ctx))
  else if String.eqb m "id" then SStr <$> id ctx
  else if String.eqb m "block" then SNum <$> block ctx
  else if String.eqb m "txn" then SNum <$> txn ctx
  else None.
End TransactionConfirmation.

Definition CALLBACK_RESOLVE_PATTERN : Regex.pattern :=
  List.map (fun m => ("{{" ++ m ++ "}}", m)) ["sig"; "id"; "block"; "txn"].

Definition resolveCallback (url : string) (ctx : TransactionConfirmation.t) : string :=
  Regex.replace CALLBACK_RESOLVE_PATTERN
    (fun _ m => ToString (Some (or_else (TransactionConfirmation.get ctx m) (SStr EmptyString))))
    url.

(** ** The encoders (source lines 220-257) *)

Definition encodeParameters (params : Parameters.t) : string :=
  let out : URLSearchParams.t := [] in
  let out := match Parameters.no_broadcast params with
             | Some true => URLSearchParams.set out "nb" EmptyString
             | _ => out
             end in
  let out := if truthy (SStr <$> Parameters.signer params)
             then URLSearchParams.set out "s" (default EmptyString (Parameters.signer params))
             else out in
  let out := if truthy (SStr <$> Parameters.callback params)
             then URLSearchParams.set out "cb"
                    (b64uEnc (default EmptyString (Parameters.callback params)))
             else out in
  let qs := URLSearchParams.toString out in
  if (0 <? String.length qs)%nat then "?" ++ qs else qs.

Definition encodeJson (data : value) : string := b64uEnc (JSON.stringify data).

Definition encodeTx (tx : value) (params : Parameters.t) : string :=
  "steem://sign/tx/" ++ encodeJson tx ++ encodeParameters params.

Definition encodeOp (op : value) (params : Parameters.t) : string :=
  "steem://sign/op/" ++ encodeJson op ++ encodeParameters params.

Definition encodeOps (ops : value) (params : Parameters.t) : string :=
  "steem://sign/ops/" ++ encodeJson ops ++ encodeParameters params.


(** ** [resolveTransaction] on the heap

    The same function with the objects in a store, to follow what it
    writes: an array or an object is a location of the heap, and
    [val.map(walk)], [{}] and [rv[k] = ...] allocate and update
    locations. *)

Module Heap.

Definition loc : Type := positive.

(** A value: a primitive, or a reference to an array or an object. *)
Inductive val : Type :=
  | VNull
  | VBool (b : bool)
  | VNum (n : Z)
  | VStr (s : string)
  | VRef (l : loc).

Inductive object : Type :=
  | OArray (elems : list val)
  | OObject (props : list (string * val)).

Abbreviation heap := (gmap loc object).

(** The values stored in an object. *)
Definition contents (o : object) : list val :=
  match o with
  | OArray l => l
  | OObject ps => List.map snd ps
  end.

(** [A[k] = v] at the end of the array under construction. *)
Definition push (v : val) (o : object) : object :=
  match o with
  | OArray l => OArray (l ++ [v])
  | OObject _ => o
  end.

(** [rv[k] = v] *)
Definition put (k : string) (v : val) (o : object) : object :=
  match o with
  | OObject ps => OObject (Object.set ps k v)
  | OArray _ => o
  end.

(** The loop of [val.map(walk)] into the new array [a]. *)
Definition walk_elements (walk : heap -> val -> option (heap * val)) (a : loc)
  : list val -> heap -> option heap :=
  fix go es h :=
    match es with
    | [] => Some h
    | e :: r =>
        match walk h e with
        | Some (h1, v) => go r (alter (push v) a h1)
        | None => None
        end
    end.

(** The loop [for (const [k, v] of Object.entries(val)) rv[k] = walk(v)]. *)
Definition walk_entries (walk : heap -> val -> option (heap * val)) (rv : loc)
  : list (string * val) -> heap -> option heap :=
  fix go ps h :=
    match ps with
    | [] => Some h
    | (k, v) :: r =>
        match walk h v with
        | Some (h1, v') => go r (alter (put k v') rv h1)
        | None => None
        end
    end.

(** [walk]; [None] when the recursion is deeper than [fuel] (a cyclic
    structure exhausts any fuel) or a reference dangles. *)
Fixpoint walk (fuel : nat) (ctx : gmap string scalar) (h : heap) (v : val)
  : option (heap * val) :=
  match fuel with
  | O => None
  | S f =>
      match v with
      | VStr s =>
          Some (h, VStr (Regex.replace RESOLVE_PATTERN (fun m _ => ToString (ctx !! m)) s))
      | VRef l =>
          match h !! l with
          | Some (OArray es) =>
              let a := fresh (dom h) in
              h' ← walk_elements (walk f ctx) a es (<[a := OArray []]> h);
              Some (h', VRef a)
          | Some (OObject ps) =>
              let rv := fresh (dom h) in
              h' ← walk_entries (walk f ctx) rv (Object.entries ps) (<[rv := OObject []]> h);
              Some (h', VRef rv)
          | None => None
          end
      | _ => Some (h, v)
      end
  end.

(** [resolveTransaction]: the heap after the call, and its outcome. *)
Definition resolveTransaction (fuel : nat) (h : heap) (utx : val)
    (params : Parameters.t) (options : ResolveOptions.t)
  : option (heap * result (val * string)) :=
  let signer :=
    or_string (Parameters.signer params) (ResolveOptions.preferred_signer options) in
  if negb (existsb (String.eqb signer) (ResolveOptions.signers options)) then
    Some (h, Throw (SignerUnavailable signer))
  else
    let ctx : gmap string scalar :=
      {[ "__ref_block_num" := SNum (ResolveOptions.ref_block_num options);
         "__ref_block_prefix" := SNum (ResolveOptions.ref_block_prefix options);
         "__expiration" := SStr (ResolveOptions.expiration options);
         "__signer" := SStr signer ]} in
    '(h', tx) ← walk fuel ctx h utx;
    Some (h', Ok (tx, signer)).

(** [l] is reachable from [v] in [h]. *)
Inductive reachable (h : heap) : val -> loc -> Prop :=
  | reachable_here l : reachable h (VRef l) l
  | reachable_step l o v l' :
      h !! l = Some o -> In v (contents o) -> reachable h v l' ->
      reachable h (VRef l) l'.

(** [v] in the heap [h] is the value [x]. *)
#[warnings="-register-all"] Inductive represents (h : heap) : val -> value -> Prop :=
  | represents_null : represents h VNull Null
  | represents_bool b : represents h (VBool b) (Bool b)
  | represents_num n : represents h (VNum n) (Num n)
  | represents_str s : represents h (VStr s) (Str s)
  | represents_arr l es xs :
      h !! l = Some (OArray es) -> Forall2 (represents h) es xs ->
      represents h (VRef l) (Arr xs)
  | represents_obj l ps xs :
      h !! l = Some (OObject ps) ->
      Forall2 (fun p x => fst p = fst x /\ represents h (snd p) (snd x)) ps xs ->
      represents h (VRef l) (Obj xs).

End Heap.


(** * The statements under verification

    Definitions that the theorems of the second part are stated with: the
    behaviour as the specification words it, and as the source has it. *)

(** ** Base64u *)

Definition is_base64_char (c : ascii) : bool :=
  match Base64.index_of c with Some _ => true | None => false end.

(** Base64 as the specification has it: the alphabet, and a padding that
    makes the length a multiple of four. *)
Definition valid_base64 (s : string) : bool :=
  (String.length s mod 4 =? 0)%nat && Str.forallb is_base64_char (Base64.strip_padding s).

Definition is_base64u_char (c : ascii) : bool :=
  Str.is_alnum c || existsb (Ascii.eqb c) ["-"; "_"; "."]%char.

Definition valid_b64u (s : string) : bool :=
  Str.forallb is_base64u_char s && valid_base64 (Str.map B64U_LOOKUP_dec s).

(** The bits of the last group that encode no byte are zero. *)
Fixpoint zero_tail (l : list N) : bool :=
  match l with
  | _ :: _ :: _ :: _ :: r => zero_tail r
  | [_; _; s3] => (s3 mod 4 =? 0)%N
  | [_; s2] => (s2 mod 16 =? 0)%N
  | [_] => false
  | [] => true
  end.

(** Canonical Base64: valid, and the unused bits are zero. *)
Definition canonical_base64 (s : string) : bool :=
  (String.length s mod 4 =? 0)%nat &&
  match Base64.indices (Base64.strip_padding s) with
  | Some l => zero_tail l
  | None => false
  end.

Definition canonical_b64u (s : string) : bool :=
  Str.forallb is_base64u_char s && canonical_base64 (Str.map B64U_LOOKUP_dec s).

(** What [atob] accepts. *)
Definition forgiving_base64 (s : string) : bool :=
  let d := Base64.forgiving_data s in
  negb (String.length d mod 4 =? 1)%nat && Str.forallb is_base64_char d.

(** The codec is a bijection between the byte strings and the strings
    that [valid] accepts, and decoding fails outside [accepted]. *)
Definition b64u_bijection (valid : string -> bool) (accepted : string -> bool) : Prop :=
  (forall b, b64uDec (b64uEnc b) = Ok b) /\
  (forall b, valid (b64uEnc b) = true) /\
  (forall s, valid s = true -> (b ← b64uDec s; Ok (b64uEnc b)) = Ok s) /\
  (forall s, accepted (Str.map B64U_LOOKUP_dec s) = false -> throws (b64uDec s)).


(** ** Values as JavaScript represents them *)

(** The own property keys are distinct and in enumeration order. *)
Fixpoint keys_ordered (ks : list string) : bool :=
  match ks with
  | [] => true
  | k :: r =>
      forallb (fun k' => negb (String.eqb k' k) && negb (Object.goes_before k' k)) r
      && keys_ordered r
  end.

(** Every object of the value lists its properties as JavaScript
    enumerates them. *)
Fixpoint ordered_props (v : value) : bool :=
  match v with
  | Arr l => forallb ordered_props l
  | Obj o => keys_ordered (List.map fst o) && forallb (fun kv => ordered_props (snd kv)) o
  | _ => true
  end.

(** No object of the value has an own property named [__proto__]. *)
Fixpoint no_proto_key (v : value) : bool :=
  match v with
  | Arr l => forallb no_proto_key l
  | Obj o => forallb (fun kv => negb (String.eqb (fst kv) "__proto__") && no_proto_key (snd kv)) o
  | _ => true
  end.

(** [f] applied to every string value, the structure kept. *)
Fixpoint map_strings (f : string -> string) (v : value) : value :=
  match v with
  | Str s => Str (f s)
  | Arr l => Arr (List.map (map_strings f) l)
  | Obj o => Obj (List.map (fun kv => (fst kv, map_strings f (snd kv))) o)
  | _ => v
  end.

(** ** Signer selection *)

(** The signer as the specification selects it. *)
Definition specified_signer (params : Parameters.t) (options : ResolveOptions.t) : string :=
  match Parameters.signer params with
  | Some s => s
  | None => ResolveOptions.preferred_signer options
  end.

(** The signer as the source selects it: an empty [params.signer] counts
    as unset. *)
Definition selected_signer (params : Parameters.t) (options : ResolveOptions.t) : string :=
  match Parameters.signer params with
  | Some s => if String.eqb s EmptyString then ResolveOptions.preferred_signer options else s
  | None => ResolveOptions.preferred_signer options
  end.

Definition signer_selection (choose : Parameters.t -> ResolveOptions.t -> string)
    (utx : value) (params : Parameters.t) (options : ResolveOptions.t) : Prop :=
  let signer := choose params options in
  (In signer (ResolveOptions.signers options) ->
     exists tx, resolveTransaction utx params options = Ok (ResolveResult.mk tx signer)) /\
  (~ In signer (ResolveOptions.signers options) ->
     resolveTransaction utx params options = Throw (SignerUnavailable signer)) /\
  (forall r, resolveTransaction utx params options = Ok r ->
     In (ResolveResult.signer r) (ResolveOptions.signers options)).

(** ** Placeholder resolution *)

(** The resolution as the specification describes it: a string that is
    one of the four tokens becomes the mapped value, with its type. *)
Definition specified_placeholder (options : ResolveOptions.t) (signer s : string) : value :=
  if String.eqb s "__ref_block_num" then Num (ResolveOptions.ref_block_num options)
  else if String.eqb s "__ref_block_prefix" then Num (ResolveOptions.ref_block_prefix options)
  else if String.eqb s "__expiration" then Str (ResolveOptions.expiration options)
  else if String.eqb s "__signer" then Str signer
  else Str s.

Fixpoint resolve_specified (options : ResolveOptions.t) (signer : string) (v : value) : value :=
  match v with
  | Str s => specified_placeholder options signer s
  | Arr l => Arr (List.map (resolve_specified options signer) l)
  | Obj o => Obj (List.map (fun kv => (fst kv, resolve_specified options signer (snd kv))) o)
  | _ => v
  end.

Definition resolves_as_specified (utx : value) (params : Parameters.t)
    (options : ResolveOptions.t) : Prop :=
  forall r, resolveTransaction utx params options = Ok r ->
    ResolveResult.tx r = resolve_specified options (ResolveResult.signer r) utx.

(** No alternative of [RESOLVE_PATTERN] matches at the head of [s]. *)
Definition no_placeholder_at_head (s : string) : Prop :=
  forall tok, In tok ["__ref_block_num"; "__ref_block_prefix"; "__expiration"; "__signer"] ->
    Str.strip_prefix tok s = None.

(** What the source does to a string: the tokens are replaced from left
    to right by the text of their values, the other characters are kept. *)
Definition substitutes_placeholders (options : ResolveOptions.t) (signer : string)
    (resolve : string -> string) : Prop :=
  resolve EmptyString = EmptyString /\
  (forall rest, resolve ("__ref_block_num" ++ rest)
     = Number.toString (ResolveOptions.ref_block_num options) ++ resolve rest) /\
  (forall rest, resolve ("__ref_block_prefix" ++ rest)
     = Number.toString (ResolveOptions.ref_block_prefix options) ++ resolve rest) /\
  (forall rest, resolve ("__expiration" ++ rest)
     = ResolveOptions.expiration options ++ resolve rest) /\
  (forall rest, resolve ("__signer" ++ rest) = signer ++ resolve rest) /\
  (forall c rest, no_placeholder_at_head (String c rest) ->
     resolve (String c rest) = String c (resolve rest)).

(** An integer that a JavaScript number holds exactly, and that
    [Number.toString] prints in full. *)
Definition safe_integer (n : Z) : bool := (Z.abs n <=? 9007199254740991)%Z.

Definition safe_options (options : ResolveOptions.t) : bool :=
  safe_integer (ResolveOptions.ref_block_num options)
  && safe_integer (ResolveOptions.ref_block_prefix options).

(** The string is exactly one of the two tokens that stand for a number. *)
Definition numeric_placeholder (s : string) : bool :=
  String.eqb s "__ref_block_num" || String.eqb s "__ref_block_prefix".

(** [f] applied to every string value, the structure kept; what [f]
    returns need not be a string. *)
Fixpoint replace_strings (f : string -> value) (v : value) : value :=
  match v with
  | Str s => f s
  | Arr l => Arr (List.map (replace_strings f) l)
  | Obj o => Obj (List.map (fun kv => (fst kv, replace_strings f (snd kv))) o)
  | _ => v
  end.

(** The transaction [utx] with its strings rewritten by [resolve]; what
    stands for a string that is exactly a numeric token is [whole] of it. *)
Definition resolved_with (resolve : string -> string) (whole : string -> value)
    (utx : value) : value :=
  replace_strings (fun s => if numeric_placeholder s then whole s else Str (resolve s)) utx.

Definition spec_example_utx : value :=
  Obj [("ref_block_num", Str "__ref_block_num"); ("other", Str "not__ref_block_num_embedded")].

(** A transaction whose one token is embedded in a longer string. *)
Definition embedded_utx : value :=
  Obj [("other", Str "not__ref_block_num_embedded")].


(** ** Callback templates *)

(** The substitution as the specification describes it: the field as a
    string, or the empty string when the field is absent. *)
Definition specified_callback_value (ctx : TransactionConfirmation.t) (m : string) : string :=
  match TransactionConfirmation.get ctx m with
  | Some v => ToString (Some v)
  | None => EmptyString
  end.

Definition resolveCallback_specified (url : string) (ctx : TransactionConfirmation.t) : string :=
  Regex.replace CALLBACK_RESOLVE_PATTERN (fun _ m => specified_callback_value ctx m) url.

(** ** Query construction *)

(** A field is set: it is present. *)
Definition is_set (a : option string) : bool :=
  match a with Some _ => true | None => false end.

(** A field is set to a non-empty string. *)
Definition is_nonempty (a : option string) : bool :=
  match a with Some s => negb (String.eqb s EmptyString) | None => false end.

(** The [name=value] sequences of the query, given when a field counts
    as set. *)
Definition query_sequences (set : option string -> bool) (params : Parameters.t)
  : list string :=
  ((match Parameters.no_broadcast params with Some true => ["nb="] | _ => [] end)
   ++ (if set (Parameters.signer params)
       then [("s=" ++ Url.urlencode (default EmptyString (Parameters.signer params)))%string]
       else [])
   ++ (if set (Parameters.callback params)
       then [("cb=" ++ b64uEnc (default EmptyString (Parameters.callback params)))%string]
       else []))%list.

Definition query_of (sequences : list string) : string :=
  match sequences with
  | [] => EmptyString
  | _ :: _ => "?" ++ String.concat "&" sequences
  end.

(** Characters that the query serializer leaves as they are. *)
Definition unreserved (c : ascii) : bool :=
  Str.is_alnum c || existsb (Ascii.eqb c) ["*"; "-"; "."; "_"]%char.


(** ** Decoding *)

(** [url.pathname.split('/').slice(1)] *)
Definition path_segments_of (url : URL.t) : list string :=
  List.tl (Str.split "/" (URL.pathname url)).

Definition kind_of (url : URL.t) : option string := nth_error (path_segments_of url) 0.
Definition payload_of (url : URL.t) : option string := nth_error (path_segments_of url) 1.

(** A [steem:] URL with the authority [sign]. *)
Definition signing_url (url : URL.t) : Prop :=
  URL.protocol url = "steem:" /\ URL.host url = "sign".

Definition recognized_kind (kind : option string) : Prop :=
  kind = Some "tx" \/ kind = Some "op" \/ kind = Some "ops".

Definition field (name : string) (v : value) : option value :=
  match v with
  | Obj o => snd <$> List.find (fun kv => String.eqb (fst kv) name) o
  | _ => None
  end.

Definition is_array (v : option value) : bool :=
  match v with Some (Arr _) => true | _ => false end.

Definition is_present (v : option value) : bool :=
  match v with Some _ => true | None => false end.

(** A structurally valid unresolved transaction: the required fields are
    present, [extensions] and [operations] are ordered sequences. *)
Definition structurally_valid (tx : value) : bool :=
  is_present (field "ref_block_num" tx) && is_present (field "ref_block_prefix" tx)
  && is_present (field "expiration" tx) && is_array (field "extensions" tx)
  && is_array (field "operations" tx).

(** The five fields are present, whatever [operations] holds. *)
Definition has_required_fields (tx : value) : bool :=
  is_present (field "ref_block_num" tx) && is_present (field "ref_block_prefix" tx)
  && is_present (field "expiration" tx) && is_array (field "extensions" tx)
  && is_present (field "operations" tx).

Definition decodes_to_valid (steemUrl : string) : Prop :=
  forall r, decode steemUrl = Ok r -> structurally_valid (DecodeResult.tx r) = true.

(** The kind is checked before the payload: a link whose kind is not
    recognized fails with [InvalidSigningAction] whatever its payload, and
    [InvalidPayload] is raised for a recognized kind only. *)
Definition kind_checked_first (steemUrl : string) : Prop :=
  forall url, URL.parse steemUrl = Ok url -> signing_url url ->
    (~ recognized_kind (kind_of url) ->
       decode steemUrl = Throw (InvalidSigningAction (kind_of url))) /\
    (forall e, decode steemUrl = Throw (InvalidPayload e) -> recognized_kind (kind_of url)).

(** The path is exactly [/<kind>/<payload>] with both segments non-empty. *)
Definition two_segments (url : URL.t) : Prop :=
  exists kind payload,
    path_segments_of url = [kind; payload] /\ kind <> EmptyString /\ payload <> EmptyString.

(** A link with any other path does not decode. *)
Definition rejects_other_paths (steemUrl : string) : Prop :=
  forall url, URL.parse steemUrl = Ok url -> signing_url url ->
    ~ two_segments url -> ~ succeeds (decode steemUrl).

(** Example links: a path of three segments, and the [follow] alias of the
    README, which the source does not implement. *)
Definition extra_segment : string := "steem://sign/tx/MQ../extra".
Definition extra_segment_url : URL.t := URL.mk "steem:" "sign" "/tx/MQ../extra" [].

Definition follow_alias : string := "steem://sign/follow/alice".
Definition follow_alias_url : URL.t := URL.mk "steem:" "sign" "/follow/alice" [].

(** A link of the kind [follow] whose payload is the Base64u text of
    [alice], which is no JSON text. *)
Definition follow_text : string := "steem://sign/follow/YWxpY2U.".
Definition follow_text_url : URL.t := URL.mk "steem:" "sign" "/follow/YWxpY2U." [].

(** A link without a payload segment. *)
Definition no_payload : string := "steem://sign/tx".
Definition no_payload_url : URL.t := URL.mk "steem:" "sign" "/tx" [].


(** ** Effects on the heap *)

(** The call leaves every object of the heap it started in as it was. *)
Definition unchanged (h h' : Heap.heap) : Prop :=
  forall l o, h !! l = Some o -> h' !! l = Some o.

(** Every object reachable from [v] was allocated after [h]. *)
Definition freshly_built (h h' : Heap.heap) (v : Heap.val) : Prop :=
  forall l, Heap.reachable h' v l -> h !! l = None.

(** The objects allocated since [h] hold no reference into [h]. *)
Definition new_closed (h h' : Heap.heap) : Prop :=
  forall l o v l', h !! l = None -> h' !! l = Some o -> In v (Heap.contents o) -> v = Heap.VRef l' ->
    h !! l' = None.

Definition fresh_value (h : Heap.heap) (v : Heap.val) : Prop :=
  forall l, v = Heap.VRef l -> h !! l = None.

Record walked (h h' : Heap.heap) : Prop := {
  walked_unchanged : unchanged h h';
  walked_closed : new_closed h h'
}.

Definition walk_ok (w : Heap.heap -> Heap.val -> option (Heap.heap * Heap.val)) : Prop :=
  forall h v h' v', w h v = Some (h', v') -> walked h h' /\ fresh_value h v'.

(** The objects of [h'] allocated since [h]. *)
Definition allocated (h h' : Heap.heap) : Heap.heap := h' ∖ h.

(** [w] on a heap value that is the value [x] returns, leaves the heap it
    started in as it was, and builds [f x] out of new objects. *)
Definition walk_refines (w : Heap.heap -> Heap.val -> option (Heap.heap * Heap.val))
    (f : value -> value) (x : value) : Prop :=
  forall h v, Heap.represents h v x ->
    exists h' v', w h v = Some (h', v') /\ unchanged h h' /\
      Heap.represents (allocated h h') v' (f x).

(** The outcome of the call on the heap is the outcome of the call on the
    value. *)
Definition same_outcome (h' : Heap.heap) (outcome : result (Heap.val * string))
    (expected : result ResolveResult.t) : Prop :=
  match expected with
  | Ok r =>
      exists tx, outcome = Ok (tx, ResolveResult.signer r) /\
        Heap.represents h' tx (ResolveResult.tx r)
  | Throw e => outcome = Throw e
  | Unmodelled => False
  end.

(** A transaction in a heap of two objects. *)
Definition sample_heap : Heap.heap :=
  {[ 1%positive := Heap.OObject [("operations", Heap.VRef 2%positive); ("signer", Heap.VStr "__signer")];
     2%positive := Heap.OArray [Heap.VNum 1; Heap.VStr "x__expiration"] ]}.

Definition sample_options : ResolveOptions.t :=
  ResolveOptions.mk 42 7 "2020-01-01T00:00:00" ["foo"; "bar"] "foo".


(** ** JSON texts *)

(** The 256 code units. *)
Definition all_ascii : list ascii := List.map (fun n => ascii_of_N (N.of_nat n)) (seq 0 256).

(** The escape of [c] reads back as [c]. *)
Definition escape_reads_back (c : ascii) : bool :=
  match JSON.escape_char c with
  | String x EmptyString =>
      Ascii.eqb x c && negb (Ascii.eqb c Str.dquote) && negb (Ascii.eqb c Str.backslash)
      && negb (Str.code c <? 32)%N
  | String b (String e EmptyString) =>
      Ascii.eqb b Str.backslash && negb (Ascii.eqb e "u")
      && match JSON.unescape e with Some c' => Ascii.eqb c' c | None => false end
  | String b (String u (String z1 (String z2 (String h1 (String h2 EmptyString))))) =>
      Ascii.eqb b Str.backslash && Ascii.eqb u "u"
      && match JSON.unicode_escape z1 z2 h1 h2 with Ok c' => Ascii.eqb c' c | _ => false end
  | _ => false
  end.

(** The first character of [s], if any, satisfies [p]. *)
Definition head_is (p : ascii -> bool) (s : string) : bool :=
  match s with
  | EmptyString => false
  | String c _ => p c
  end.

(** What may follow a value inside a JSON text produced by [stringify]. *)
Definition ends_value (rest : string) : bool :=
  match rest with
  | EmptyString => true
  | String c _ => existsb (Ascii.eqb c) [","; "]"; "}"]%char
  end.


(** The weight of a digit in front of [s]. *)
Definition weight (s : string) : N := (10 ^ N.of_nat (String.length s))%N.

(** The numbers of the value are integers that a JavaScript number holds
    exactly. *)
Fixpoint safe_numbers (v : value) : bool :=
  match v with
  | Num n => (Z.abs n <=? 9007199254740991)%Z
  | Arr l => forallb safe_numbers l
  | Obj o => forallb (fun kv => safe_numbers (snd kv)) o
  | _ => true
  end.

(** The fuel that parsing the text of a value takes. *)
Fixpoint size (v : value) : nat :=
  match v with
  | Arr l => S (list_sum (List.map (fun x => S (size x)) l))
  | Obj o => S (list_sum (List.map (fun kv => S (size (snd kv))) o))
  | _ => 1
  end.

(** [stringify] is read back by [parse_value], whatever follows. *)
Definition reads_back (v : value) : Prop :=
  forall fuel rest, size v <= fuel -> ends_value rest = true ->
    JSON.parse_value fuel (JSON.stringify v ++ rest) = Ok (v, rest).

(** The first character of a value's text. *)
Definition starts_value (c : ascii) : bool :=
  negb (JSON.is_ws c) && negb (Ascii.eqb c "]") && negb (Ascii.eqb c "}").


(** ** Query strings *)

Definition plus_to_space (c : ascii) : ascii := if Ascii.eqb c "+" then " "%char else c.

(** The UTF-8 bytes of [c] decode to [c]. *)
Definition utf8_reads_back (c : ascii) : bool :=
  match Url.utf8_encode (String c EmptyString) with
  | String b EmptyString => (Str.code b <? 128)%N && Ascii.eqb b c
  | String b (String b2 EmptyString) =>
      negb (Str.code b <? 128)%N && ((Str.code b =? 194) || (Str.code b =? 195))%N
      && (128 <=? Str.code b2)%N && (Str.code b2 <? 192)%N
      && Ascii.eqb (ascii_of_N ((Str.code b - 192) * 64 + (Str.code b2 - 128))) c
  | _ => false
  end.

(** The serialized byte [c] decodes to [c], and holds no separator. *)
Definition urlencode_reads_back (c : ascii) : bool :=
  match Str.map plus_to_space (Url.urlencode_byte c) with
  | String x EmptyString => negb (Ascii.eqb x "%") && Ascii.eqb x c
  | String p (String h1 (String h2 EmptyString)) =>
      Ascii.eqb p "%"
      && match JSON.hex_value h1, JSON.hex_value h2 with
         | Some a, Some b => Ascii.eqb (ascii_of_N (a * 16 + b)) c
         | _, _ => false
         end
  | _ => false
  end.

(** The characters of a serialized name or value. *)
Definition is_urlencoded_char (c : ascii) : bool :=
  unreserved c || existsb (Ascii.eqb c) ["+"; "%"]%char.

(** The characters of a serialized query. *)
Definition is_query_char (c : ascii) : bool :=
  is_urlencoded_char c || existsb (Ascii.eqb c) ["&"; "="]%char.

Definition pair_text (p : string * string) : string :=
  Url.urlencode (fst p) ++ "=" ++ Url.urlencode (snd p).

(** [c] does not occur in [s]. *)
Definition absent (c : ascii) (s : string) : bool :=
  Str.forallb (fun x => negb (Ascii.eqb x c)) s.


(** ** Links *)

(** [?] and the serialized pairs, or nothing (source lines 232-236). *)
Definition query (l : URLSearchParams.t) : string :=
  let qs := URLSearchParams.toString l in
  if (0 <? String.length qs)%nat then "?" ++ qs else qs.

(** The pairs that [encodeParameters] sets. *)
Definition parameter_pairs (params : Parameters.t) : URLSearchParams.t :=
  ((match Parameters.no_broadcast params with Some true => [("nb", EmptyString)] | _ => [] end)
   ++ (if is_nonempty (Parameters.signer params)
       then [("s", default EmptyString (Parameters.signer params))] else [])
   ++ (if is_nonempty (Parameters.callback params)
       then [("cb", b64uEnc (default EmptyString (Parameters.callback params)))] else []))%list.

(** A segment that the URL parser cannot take for [.] or [..]. *)
Definition starts_plain (s : string) : bool :=
  negb (head_is (fun c => Ascii.eqb c "." || Ascii.eqb c "%") s).

(** Parameters that the query string can carry: no [no_broadcast: false],
    no empty [signer] or [callback]. *)
Definition carried (params : Parameters.t) : bool :=
  match Parameters.no_broadcast params with Some false => false | _ => true end
  && match Parameters.signer params with Some s => negb (String.eqb s EmptyString) | None => true end
  && match Parameters.callback params with Some s => negb (String.eqb s EmptyString) | None => true end.



(** ** The examples of the README *)

Definition vote : value :=
  Arr [Str "vote";
       Obj [("voter", Str "foo"); ("author", Str "bar"); ("permlink", Str "baz");
            ("weight", Num 10000)]].

Definition transfer : value :=
  Arr [Str "transfer";
       Obj [("from", Str "foo"); ("to", Str "bar"); ("amount", Str "10.000 STEEM");
            ("memo", Str "baz")]].

Definition witness_vote : value :=
  Arr [Str "account_witness_vote";
       Obj [("account", Str "__signer"); ("witness", Str "jesta"); ("approve", Bool true)]].

Definition limit_order : value :=
  Obj [("ref_block_num", Num 48872);
       ("ref_block_prefix", Num 1543858519);
       ("expiration", Str "2018-05-29T13:17:39");
       ("extensions", Arr []);
       ("operations",
        Arr [Arr [Str "limit_order_create2";
                  Obj [("owner", Str "foo");
                       ("orderid", Num 1);
                       ("amount_to_sell", Str "10.000 STEEM");
                       ("fill_or_kill", Bool false);
                       ("exchange_rate",
                        Obj [("base", Str "1.000 STEEM"); ("quote", Str "0.420 SBD")]);
                       ("expiration", Str "2018-05-30T00:00:00")]]])].

Definition limit_order_parameters : Parameters.t :=
  Parameters.mk (Some "foo") (Some "https://steem.trader/sign_callback?id={{id}}") None.

Definition no_parameters : Parameters.t := Parameters.mk None None None.


(** * Further statements

    Definitions for the properties of the third part. *)

(** [s] without the padding character of Base64u. *)
Definition unpadded (s : string) : string :=
  Str.filter (fun c => negb (Ascii.eqb c ".")) s.

(** [s] without ASCII whitespace. *)
Definition without_whitespace (s : string) : string :=
  Str.filter (fun c => negb (Base64.is_ascii_whitespace c)) s.

(** The parameters that a link carries for [params]: [no_broadcast] when
    it is [true], [signer] and [callback] when they are non-empty. *)
Definition normalized (params : Parameters.t) : Parameters.t :=
  Parameters.mk
    (if is_nonempty (Parameters.signer params) then Parameters.signer params else None)
    (if is_nonempty (Parameters.callback params) then Parameters.callback params else None)
    (match Parameters.no_broadcast params with Some true => Some true | _ => None end).

(** The characters of a link: letters, digits and [* - . _], and the
    delimiters [: / ? & = % +]. *)
Definition is_link_char (c : ascii) : bool :=
  unreserved c || existsb (Ascii.eqb c) [":"; "/"; "?"; "&"; "="; "%"; "+"]%char.

(** What an encoder of kind [kind] returns. *)
Definition link (kind : string) (data : value) (params : Parameters.t) : string :=
  "steem://sign/" ++ kind ++ "/" ++ encodeJson data ++ encodeParameters params.

(** The checks of [decode] that a parsed link passes. *)
Definition accepted_link (url : URL.t) : Prop :=
  signing_url url /\ recognized_kind (kind_of url) /\
  succeeds (decode_payload (payload_of url)) /\
  (forall cb, URLSearchParams.get (URL.searchParams url) "cb" = Some cb -> succeeds (b64uDec cb)).

(** No alternative of [p] matches anywhere in [s]. *)
Fixpoint matches_nowhere (p : Regex.pattern) (s : string) : bool :=
  match Regex.exec p s with
  | Some _ => false
  | None =>
      match s with
      | EmptyString => true
      | String _ r => matches_nowhere p r
      end
  end.

(** No string of the value holds a placeholder. *)
Fixpoint placeholder_free (v : value) : bool :=
  match v with
  | Str s => matches_nowhere RESOLVE_PATTERN s
  | Arr l => forallb placeholder_free l
  | Obj o => forallb (fun kv => placeholder_free (snd kv)) o
  | _ => true
  end.

(** The transaction of an [op] or [ops] link, resolved, with [num] and
    [prefix] for the two block numbers of its header. *)
Definition resolved_header (num prefix : value) (options : ResolveOptions.t)
    (operations : value) : value :=
  Obj [("ref_block_num", num);
       ("ref_block_prefix", prefix);
       ("expiration", Str (ResolveOptions.expiration options));
       ("extensions", Arr []);
       ("operations", operations)].

(** The object at [l] holds a value from which [l] is reachable. *)
Definition on_cycle (h : Heap.heap) (l : Heap.loc) : Prop :=
  exists o v, h !! l = Some o /\ In v (Heap.contents o) /\ Heap.reachable h v l.

(** An object on a cycle is reachable from [v]. *)
Definition reaches_cycle (h : Heap.heap) (v : Heap.val) : Prop :=
  exists l, Heap.reachable h v l /\ on_cycle h l.

(** An array that holds itself. *)
Definition self_array : Heap.heap := {[ 1%positive := Heap.OArray [Heap.VRef 1%positive] ]}.

(** What the three parsers return lists the properties of its objects as
    JavaScript enumerates them. *)
Definition parses_ordered (fuel : nat) : Prop :=
  (forall s v rest, JSON.parse_value fuel s = Ok (v, rest) -> ordered_props v = true) /\
  (forall s l rest, JSON.parse_elements fuel s = Ok (l, rest) ->
     forallb ordered_props l = true) /\
  (forall s ms rest, JSON.parse_members fuel s = Ok (ms, rest) ->
     forallb (fun kv => ordered_props (snd kv)) ms = true).

(** A link that asks for [nb=false]. *)
Definition nb_false_link : string := "steem://sign/tx/MQ..?nb=false".

(** The options of the README examples. *)
Definition readme_options : ResolveOptions.t :=
  ResolveOptions.mk 0 0 "1970-01-01T00:00:00" ["foo"] "foo".


(* ====================================================================== *)
(** * Part II: properties *)
(* ====================================================================== *)

(** ** Tactics *)

(** Case analysis on the 256 code units. *)
Ltac ascii_cases c := destruct c as [[] [] [] [] [] [] [] []].

(** Arithmetic with division and remainder by constants. *)
Ltac euclid := zify; Z.to_euclidean_division_equations; lia.

(** Replaces the code of every character by a number below 256. *)
Ltac forget_codes :=
  repeat match goal with
         | |- context [Str.code ?c] =>
             let H := fresh in
             pose proof (N_ascii_bounded c : (Str.code c < 256)%N) as H;
             generalize dependent (Str.code c); intros
         end.

(** ** Case analysis by computation *)

Lemma ascii_forall (p : ascii -> bool) :
  forallb p all_ascii = true -> forall c, p c = true.
Proof.
  intros H c. rewrite forallb_forall in H. apply H.
  unfold all_ascii. apply in_map_iff. exists (N.to_nat (N_of_ascii c)). split.
  - now rewrite N2Nat.id, ascii_N_embedding.
  - apply in_seq. pose proof (N_ascii_bounded c). lia.
Qed.

(** ** Facts about strings *)

Lemma str_append_nil_r (s : string) : s ++ "" = s.
Proof. induction s as [|c s IH]; simpl; [reflexivity | now rewrite IH]. Qed.

Lemma str_append_assoc s t u : (s ++ t) ++ u = s ++ (t ++ u).
Proof. induction s as [|c s IH]; simpl; [reflexivity | now rewrite IH]. Qed.

Lemma str_length_append s t :
  String.length (s ++ t) = (String.length s + String.length t)%nat.
Proof. induction s as [|c s IH]; simpl; [reflexivity | now rewrite IH]. Qed.

Lemma str_map_append f s t : Str.map f (s ++ t) = Str.map f s ++ Str.map f t.
Proof. induction s as [|c s IH]; simpl; [reflexivity | now rewrite IH]. Qed.

Lemma str_length_map f s : String.length (Str.map f s) = String.length s.
Proof. induction s as [|c s IH]; simpl; [reflexivity | now rewrite IH]. Qed.

Lemma str_forallb_append p s t : Str.forallb p (s ++ t) = Str.forallb p s && Str.forallb p t.
Proof.
  induction s as [|c s IH]; simpl; [reflexivity |].
  now rewrite IH, andb_assoc.
Qed.

Lemma str_filter_all p s : Str.forallb p s = true -> Str.filter p s = s.
Proof.
  induction s as [|c s IH]; simpl; [reflexivity |].
  intros [Hc Hs]%andb_true_iff. rewrite Hc. now rewrite IH.
Qed.

Lemma str_forallb_impl (p q : ascii -> bool) s :
  (forall c, p c = true -> q c = true) ->
  Str.forallb p s = true -> Str.forallb q s = true.
Proof.
  intros Hpq. induction s as [|c s IH]; simpl; [reflexivity |].
  intros [Hc Hs]%andb_true_iff. rewrite (Hpq _ Hc). now apply IH.
Qed.

Lemma str_map_id_on (f : ascii -> ascii) (p : ascii -> bool) s :
  (forall c, p c = true -> f c = c) -> Str.forallb p s = true -> Str.map f s = s.
Proof.
  intros Hf. induction s as [|c s IH]; simpl; [reflexivity |].
  intros [Hc Hs]%andb_true_iff. now rewrite (Hf _ Hc), IH.
Qed.


Lemma string_ind3 (P : string -> Prop) :
  P EmptyString ->
  (forall a, P (String a EmptyString)) ->
  (forall a b, P (String a (String b EmptyString))) ->
  (forall a b c r, P r -> P (String a (String b (String c r)))) ->
  forall s, P s.
Proof.
  intros H0 H1 H2 H3 s.
  enough (P s /\ (forall a, P (String a s)) /\ (forall a b, P (String a (String b s)))) by tauto.
  induction s as [|c s (IH0 & IH1 & IH2)]; repeat split; auto.
Qed.


(** ** Facts about Base64 *)

Section Base64Facts.
Import Str Base64.
Local Open Scope N_scope.

Lemma code_bound c : code c < 256.
Proof. apply N_ascii_bounded. Qed.

Lemma chr_code c : chr (code c) = c.
Proof. apply ascii_N_embedding. Qed.

Lemma below_64_cases (P : N -> Prop) :
  (Forall P (List.map N.of_nat (seq 0 64))) -> forall n, n < 64 -> P n.
Proof.
  intros H n Hn. rewrite List.Forall_forall in H. apply H.
  apply in_map_iff. exists (N.to_nat n). split; [lia|]. apply in_seq. lia.
Qed.

Lemma index_of_char_of n : n < 64 -> index_of (char_of n) = Some n.
Proof.
  revert n. apply below_64_cases. repeat constructor.
Qed.


Lemma char_of_not_special n :
  n < 64 -> Ascii.eqb (char_of n) "=" = false /\ is_ascii_whitespace (char_of n) = false.
Proof. revert n. apply below_64_cases. repeat constructor. Qed.

Lemma sextets3 a b c :
  let n := code a * 65536 + code b * 256 + code c in
  let m := n / 262144 * 262144 + (n / 4096) mod 64 * 4096 + (n / 64) mod 64 * 64 + n mod 64 in
  m / 65536 = code a /\ (m / 256) mod 256 = code b /\ m mod 256 = code c /\ n / 262144 < 64.
Proof. cbv zeta. forget_codes. euclid. Qed.

Lemma sextets2 a b :
  let n := code a * 65536 + code b * 256 in
  let m := n / 262144 * 262144 + (n / 4096) mod 64 * 4096 + (n / 64) mod 64 * 64 in
  m / 65536 = code a /\ (m / 256) mod 256 = code b /\ n / 262144 < 64.
Proof. cbv zeta. forget_codes. euclid. Qed.

Lemma sextets1 a :
  let n := code a * 65536 in
  let m := n / 262144 * 262144 + (n / 4096) mod 64 * 4096 in
  m / 65536 = code a /\ n / 262144 < 64.
Proof. cbv zeta. forget_codes. euclid. Qed.

Lemma of_to_sextets s : of_sextets (to_sextets s) = s.
Proof.
  induction s as [|a|a b|a b c r IH] using string_ind3.
  - reflexivity.
  - cbn [to_sextets of_sextets]. destruct (sextets1 a) as [-> _]. now rewrite chr_code.
  - cbn [to_sextets of_sextets]. destruct (sextets2 a b) as (-> & -> & _).
    now rewrite !chr_code.
  - cbn [to_sextets of_sextets]. destruct (sextets3 a b c) as (-> & -> & -> & _).
    now rewrite !chr_code, IH.
Qed.

Lemma to_sextets_bound s : Forall (fun n => n < 64) (to_sextets s).
Proof.
  induction s as [|a|a b|a b c r IH] using string_ind3; cbn [to_sextets].
  - constructor.
  - destruct (sextets1 a) as [_ H]. repeat constructor; [exact H | now apply N.mod_lt].
  - destruct (sextets2 a b) as (_ & _ & H).
    repeat constructor; [exact H | now apply N.mod_lt ..].
  - destruct (sextets3 a b c) as (_ & _ & _ & H).
    repeat constructor; [exact H | now apply N.mod_lt .. | exact IH].
Qed.

Lemma indices_chars l : Forall (fun n => n < 64) l -> indices (chars l) = Some l.
Proof.
  induction 1 as [|n l Hn _ IH]; simpl; [reflexivity |].
  now rewrite (index_of_char_of n Hn), IH.
Qed.

Lemma length_chars l : String.length (chars l) = length l.
Proof. induction l as [|n l IH]; simpl; [reflexivity | now rewrite IH]. Qed.

Lemma chars_no_whitespace l :
  Forall (fun n => n < 64) l ->
  forallb (fun c => negb (is_ascii_whitespace c)) (chars l) = true.
Proof.
  induction 1 as [|n l Hn _ IH]; simpl; [reflexivity |].
  destruct (char_of_not_special n Hn) as [_ ->]. exact IH.
Qed.

Lemma strip_padding_chars l pad :
  Forall (fun n => n < 64) l ->
  pad = EmptyString \/ pad = "="%string \/ pad = "=="%string ->
  strip_padding (chars l ++ pad) = chars l.
Proof.
  intros Hl Hpad. induction Hl as [|n l Hn _ IH].
  - destruct Hpad as [-> | [-> | ->]]; reflexivity.
  - cbn [chars String.append strip_padding].
    destruct (char_of_not_special n Hn) as [Hne _].
    cbn [String.eqb]. rewrite Hne. cbn [andb orb]. now rewrite IH.
Qed.

Lemma padding_cases s :
  padding s = EmptyString \/ padding s = "="%string \/ padding s = "=="%string.
Proof.
  unfold padding. destruct (String.length s mod 3)%nat as [|[|[|k]]]; auto.
Qed.

Lemma mod3_step n : (S (S (S n)) mod 3 = n mod 3)%nat.
Proof. replace (S (S (S n))) with (n + 1 * 3)%nat by lia. apply Nat.Div0.mod_add. Qed.

Lemma mod4_step n : (S (S (S (S n))) mod 4 = n mod 4)%nat.
Proof. replace (S (S (S (S n)))) with (n + 1 * 4)%nat by lia. apply Nat.Div0.mod_add. Qed.

Lemma btoa_length s :
  (String.length (btoa s) mod 4 = 0)%nat /\
  (length (to_sextets s) mod 4 =? 1)%nat = false.
Proof.
  unfold btoa. rewrite str_length_append, length_chars.
  induction s as [|a|a b|a b c r IH] using string_ind3; try (split; reflexivity).
  unfold padding in *. cbn [to_sextets length String.length].
  rewrite mod3_step, mod4_step. cbn [Nat.add]. now rewrite mod4_step.
Qed.

Theorem atob_btoa s : atob (btoa s) = Ok s.
Proof.
  pose proof (to_sextets_bound s) as Hb.
  destruct (btoa_length s) as [Hlen Hlen'].
  unfold atob, forgiving_data. rewrite str_filter_all.
  2:{ unfold btoa. rewrite str_forallb_append, (chars_no_whitespace _ Hb).
      destruct (padding_cases s) as [-> | [-> | ->]]; reflexivity. }
  rewrite Hlen. cbn [Nat.eqb].
  unfold btoa. rewrite (strip_padding_chars _ _ Hb (padding_cases s)).
  rewrite length_chars, Hlen', (indices_chars _ Hb), of_to_sextets. reflexivity.
Qed.

End Base64Facts.

(** ** Facts about Base64u *)

Section Base64uFacts.
Import Str Base64.
Local Open Scope N_scope.

Lemma str_map_map f g s : Str.map f (Str.map g s) = Str.map (fun c => f (g c)) s.
Proof. induction s as [|c s IH]; simpl; [reflexivity | now rewrite IH]. Qed.

Lemma str_map_ext_on (f g : ascii -> ascii) (p : ascii -> bool) s :
  (forall c, p c = true -> f c = g c) -> Str.forallb p s = true -> Str.map f s = Str.map g s.
Proof.
  intros Hf. induction s as [|c s IH]; simpl; [reflexivity |].
  intros [Hc Hs]%andb_true_iff. now rewrite (Hf _ Hc), IH.
Qed.

Lemma str_map_id s : Str.map (fun c => c) s = s.
Proof. induction s as [|c s IH]; simpl; [reflexivity | now rewrite IH]. Qed.

Lemma lookup_dec_enc n :
  n < 64 -> B64U_LOOKUP_dec (B64U_LOOKUP_enc (char_of n)) = char_of n.
Proof. revert n. apply below_64_cases. repeat constructor. Qed.

Lemma btoa_chars s :
  Str.forallb (fun c => Ascii.eqb (B64U_LOOKUP_dec (B64U_LOOKUP_enc c)) c) (btoa s) = true.
Proof.
  unfold btoa. rewrite str_forallb_append. apply andb_true_iff. split.
  - pose proof (to_sextets_bound s) as Hb.
    induction Hb as [|n l Hn _ IH]; [reflexivity |].
    cbn [chars Str.forallb]. rewrite (lookup_dec_enc n Hn), Ascii.eqb_refl. exact IH.
  - destruct (padding_cases s) as [-> | [-> | ->]]; reflexivity.
Qed.

(** Decoding inverts encoding. *)
Theorem b64uDec_b64uEnc b : b64uDec (b64uEnc b) = Ok b.
Proof.
  unfold b64uDec, b64uEnc. rewrite str_map_map.
  rewrite (str_map_ext_on _ (fun c => c) _ _ (fun c H => proj1 (Ascii.eqb_eq _ _) H) (btoa_chars b)).
  rewrite str_map_id. apply atob_btoa.
Qed.

Lemma index_of_inv c n : index_of c = Some n -> n < 64 /\ char_of n = c.
Proof. ascii_cases c; intros [= <-]; split; reflexivity. Qed.

Lemma indices_inv d l :
  indices d = Some l -> chars l = d /\ Forall (fun n => n < 64) l.
Proof.
  revert l. induction d as [|c d IH]; intros l; simpl.
  - intros [= <-]. split; [reflexivity | constructor].
  - destruct (index_of c) as [n|] eqn:Hc; [|discriminate].
    destruct (indices d) as [l'|]; [|discriminate]. intros [= <-].
    destruct (index_of_inv _ _ Hc) as [Hn Hchar], (IH _ eq_refl) as [Hd Hl].
    simpl. rewrite Hchar, Hd. split; [reflexivity | now constructor].
Qed.

Lemma indices_forallb d :
  Str.forallb is_base64_char d = match indices d with Some _ => true | None => false end.
Proof.
  induction d as [|c d IH]; simpl; [reflexivity |].
  rewrite IH. unfold is_base64_char.
  destruct (index_of c), (indices d); reflexivity.
Qed.

(** The padding that [strip_padding] removes. *)
Lemma strip_padding_split d :
  exists pad, d = (strip_padding d ++ pad)%string /\
    (pad = EmptyString \/ pad = "="%string \/ pad = "=="%string).
Proof.
  induction d as [|c d (pad & Hd & Hpad)].
  - exists EmptyString. auto.
  - cbn [strip_padding].
    destruct (String.eqb_spec (String c d) "="%string) as [-> | _].
    { exists "="%string. auto. }
    destruct (String.eqb_spec (String c d) "=="%string) as [-> | _].
    { exists "=="%string. auto. }
    exists pad. cbn [orb]. split; [|exact Hpad]. simpl. now rewrite <- Hd.
Qed.

Lemma list_ind4 {A} (P : list A -> Prop) :
  P [] -> (forall a, P [a]) -> (forall a b, P [a; b]) -> (forall a b c, P [a; b; c]) ->
  (forall a b c d r, P r -> P (a :: b :: c :: d :: r)) ->
  forall l, P l.
Proof.
  intros H0 H1 H2 H3 H4 l.
  enough (P l /\ (forall a, P (a :: l)) /\ (forall a b, P (a :: b :: l)) /\
          (forall a b c, P (a :: b :: c :: l))) by tauto.
  induction l as [|x l (I0 & I1 & I2 & I3)]; repeat apply conj; auto.
Qed.

Lemma code_chr n : n < 256 -> code (chr n) = n.
Proof. apply N_ascii_embedding. Qed.


Lemma recompose3 n :
  n / 65536 * 65536 + (n / 256) mod 256 * 256 + n mod 256 = n.
Proof. euclid. Qed.

Lemma sextets_of_sum s1 s2 s3 s4 :
  s1 < 64 -> s2 < 64 -> s3 < 64 -> s4 < 64 ->
  let n := s1 * 262144 + s2 * 4096 + s3 * 64 + s4 in
  n / 262144 = s1 /\ (n / 4096) mod 64 = s2 /\ (n / 64) mod 64 = s3 /\ n mod 64 = s4 /\
  n / 65536 < 256 /\ (n / 256) mod 256 < 256 /\ n mod 256 < 256.
Proof. cbv zeta. intros. repeat apply conj; euclid. Qed.

Lemma bytes3 s1 s2 s3 s4 :
  s1 < 64 -> s2 < 64 -> s3 < 64 -> s4 < 64 ->
  let n := s1 * 262144 + s2 * 4096 + s3 * 64 + s4 in
  let a := n / 65536 in let b := (n / 256) mod 256 in let c := n mod 256 in
  a < 256 /\ b < 256 /\ c < 256 /\
  let m := a * 65536 + b * 256 + c in
  m / 262144 = s1 /\ (m / 4096) mod 64 = s2 /\ (m / 64) mod 64 = s3 /\ m mod 64 = s4.
Proof.
  cbv zeta. intros H1 H2 H3 H4. rewrite recompose3.
  destruct (sextets_of_sum s1 s2 s3 s4 H1 H2 H3 H4) as (? & ? & ? & ? & ? & ? & ?).
  auto 10.
Qed.

Lemma bytes2 s1 s2 s3 :
  s1 < 64 -> s2 < 64 -> s3 < 64 -> s3 mod 4 = 0 ->
  let n := s1 * 262144 + s2 * 4096 + s3 * 64 in
  let a := n / 65536 in let b := (n / 256) mod 256 in
  a < 256 /\ b < 256 /\
  let m := a * 65536 + b * 256 in
  m / 262144 = s1 /\ (m / 4096) mod 64 = s2 /\ (m / 64) mod 64 = s3.
Proof.
  cbv zeta. intros H1 H2 H3 Hz.
  assert (N.lt 0 64) as H0 by lia.
  destruct (sextets_of_sum s1 s2 s3 0 H1 H2 H3 H0) as (E1 & E2 & E3 & _ & Ha & Hb & _).
  cbv zeta in *. rewrite N.add_0_r in *.
  set (n := s1 * 262144 + s2 * 4096 + s3 * 64) in *.
  assert (n mod 256 = 0) as Hc by (subst n; euclid).
  pose proof (recompose3 n) as Hn. rewrite Hc, N.add_0_r in Hn. rewrite Hn. auto.
Qed.

Lemma bytes1 s1 s2 :
  s1 < 64 -> s2 < 64 -> s2 mod 16 = 0 ->
  let n := s1 * 262144 + s2 * 4096 in
  let a := n / 65536 in
  a < 256 /\
  let m := a * 65536 in
  m / 262144 = s1 /\ (m / 4096) mod 64 = s2.
Proof.
  cbv zeta. intros H1 H2 Hz.
  assert (N.lt 0 64) as H0 by lia.
  destruct (sextets_of_sum s1 s2 0 0 H1 H2 H0 H0) as (E1 & E2 & _ & _ & Ha & _ & _).
  cbv zeta in *. rewrite !N.add_0_r in *.
  set (n := s1 * 262144 + s2 * 4096) in *.
  assert (n / 65536 * 65536 = n) as Hn by (subst n; euclid).
  rewrite Hn. auto.
Qed.

Lemma to_of_sextets l :
  Forall (fun n => n < 64) l -> zero_tail l = true ->
  to_sextets (of_sextets l) = l /\
  padding (of_sextets l) =
    match (length l mod 4)%nat with
    | 2%nat => "=="%string
    | 3%nat => "="%string
    | _ => EmptyString
    end.
Proof.
  induction l as [|s1|s1 s2|s1 s2 s3|s1 s2 s3 s4 r IH] using list_ind4; intros Hl Hz.
  - split; reflexivity.
  - discriminate Hz.
  - inversion Hl as [|? ? H1 Hl1]; subst. inversion Hl1 as [|? ? H2 _]; subst.
    cbn [zero_tail] in Hz. apply N.eqb_eq in Hz.
    destruct (bytes1 s1 s2 H1 H2 Hz) as (Ha & E1 & E2).
    cbn [of_sextets to_sextets]. rewrite (code_chr _ Ha), E1, E2. split; reflexivity.
  - inversion Hl as [|? ? H1 Hl1]; subst. inversion Hl1 as [|? ? H2 Hl2]; subst.
    inversion Hl2 as [|? ? H3 _]; subst.
    cbn [zero_tail] in Hz. apply N.eqb_eq in Hz.
    destruct (bytes2 s1 s2 s3 H1 H2 H3 Hz) as (Ha & Hb & E1 & E2 & E3).
    cbn [of_sextets to_sextets]. rewrite (code_chr _ Ha), (code_chr _ Hb), E1, E2, E3.
    split; reflexivity.
  - inversion Hl as [|? ? H1 Hl1]; subst. inversion Hl1 as [|? ? H2 Hl2]; subst.
    inversion Hl2 as [|? ? H3 Hl3]; subst. inversion Hl3 as [|? ? H4 Hr]; subst.
    cbn [zero_tail] in Hz. destruct (IH Hr Hz) as [IH1 IH2].
    destruct (bytes3 s1 s2 s3 s4 H1 H2 H3 H4) as (Ha & Hb & Hc & E1 & E2 & E3 & E4).
    cbn [of_sextets to_sextets].
    rewrite (code_chr _ Ha), (code_chr _ Hb), (code_chr _ Hc), E1, E2, E3, E4, IH1.
    split; [reflexivity |].
    unfold padding in *. cbn [String.length length]. rewrite mod3_step, mod4_step. exact IH2.
Qed.

Lemma zero_tail_length l : zero_tail l = true -> (length l mod 4 =? 1)%nat = false.
Proof.
  induction l as [|s1|s1 s2|s1 s2 s3|s1 s2 s3 s4 r IH] using list_ind4;
    try reflexivity; [discriminate |].
  cbn [zero_tail length]. rewrite mod4_step. exact IH.
Qed.

Lemma zero_tail_to_sextets b : zero_tail (to_sextets b) = true.
Proof.
  induction b as [|a|a b|a b c r IH] using string_ind3; cbn [to_sextets zero_tail].
  - reflexivity.
  - apply N.eqb_eq. forget_codes. euclid.
  - apply N.eqb_eq. forget_codes. euclid.
  - exact IH.
Qed.

Lemma base64_no_whitespace d l :
  indices d = Some l -> Str.forallb (fun c => negb (is_ascii_whitespace c)) d = true.
Proof.
  intros [<- Hl]%indices_inv. now apply chars_no_whitespace.
Qed.

Lemma lookup_enc_dec c :
  is_base64u_char c = true -> B64U_LOOKUP_enc (B64U_LOOKUP_dec c) = c.
Proof. ascii_cases c; intros H; try discriminate H; reflexivity. Qed.

Lemma b64uEnc_chars b : Str.forallb is_base64u_char (b64uEnc b) = true.
Proof.
  unfold b64uEnc, btoa. rewrite str_map_append, str_forallb_append.
  apply andb_true_iff. split.
  - pose proof (to_sextets_bound b) as Hb.
    induction Hb as [|n l Hn _ IH]; [reflexivity |].
    cbn [chars Str.map Str.forallb]. rewrite IH, andb_true_r.
    revert n Hn. apply below_64_cases. repeat constructor.
  - destruct (padding_cases b) as [-> | [-> | ->]]; reflexivity.
Qed.

Lemma dec_enc_btoa b : Str.map B64U_LOOKUP_dec (b64uEnc b) = btoa b.
Proof.
  unfold b64uEnc. rewrite str_map_map.
  rewrite (str_map_ext_on _ (fun c => c) _ _ (fun c H => proj1 (Ascii.eqb_eq _ _) H) (btoa_chars b)).
  apply str_map_id.
Qed.

Lemma b64uEnc_canonical b : canonical_b64u (b64uEnc b) = true.
Proof.
  unfold canonical_b64u, canonical_base64.
  rewrite b64uEnc_chars, dec_enc_btoa. cbn [andb].
  destruct (btoa_length b) as [-> _]. cbn [Nat.eqb andb].
  unfold btoa. rewrite (strip_padding_chars _ _ (to_sextets_bound b) (padding_cases b)).
  rewrite (indices_chars _ (to_sextets_bound b)). apply zero_tail_to_sextets.
Qed.

Lemma canonical_base64_encode t :
  canonical_base64 t = true -> exists b, atob t = Ok b /\ btoa b = t.
Proof.
  unfold canonical_base64.
  intros [Hlen Hc]%andb_true_iff.
  destruct (indices (strip_padding t)) as [l|] eqn:Hi; [|discriminate].
  destruct (indices_inv _ _ Hi) as [Hbody Hl].
  destruct (strip_padding_split t) as (pad & Ht & Hpad).
  destruct (to_of_sextets l Hl Hc) as [Hto Hpadding].
  exists (of_sextets l). split.
  - unfold atob, forgiving_data. rewrite str_filter_all.
    + rewrite Hlen, Hi.
      replace (String.length (strip_padding t)) with (length l)
        by (now rewrite <- Hbody, length_chars).
      now rewrite (zero_tail_length _ Hc).
    + rewrite Ht, str_forallb_append, (base64_no_whitespace _ _ Hi).
      destruct Hpad as [-> | [-> | ->]]; reflexivity.
  - unfold btoa. rewrite Hto, Hbody, Hpadding.
    rewrite Ht at 2. f_equal.
    apply Nat.eqb_eq in Hlen. rewrite Ht, str_length_append, <- Hbody, length_chars in Hlen.
    pose proof (zero_tail_length _ Hc) as H1. apply Nat.eqb_neq in H1.
    pose proof (Nat.mod_upper_bound (length l) 4 ltac:(lia)) as Hub.
    destruct Hpad as [-> | [-> | ->]]; cbn [String.length] in Hlen.
    + rewrite Nat.add_0_r in Hlen. now rewrite Hlen.
    + rewrite Nat.Div0.add_mod in Hlen by lia.
      destruct (length l mod 4)%nat as [|[|[|[|k]]]]; try discriminate Hlen; try reflexivity; lia.
    + rewrite Nat.Div0.add_mod in Hlen by lia.
      destruct (length l mod 4)%nat as [|[|[|[|k]]]]; try discriminate Hlen; try reflexivity; lia.
Qed.

Lemma canonical_b64u_encode s :
  canonical_b64u s = true -> (b ← b64uDec s; Ok (b64uEnc b)) = Ok s.
Proof.
  unfold canonical_b64u. intros [Hs Hc]%andb_true_iff.
  destruct (canonical_base64_encode _ Hc) as (b & Hdec & Henc).
  unfold b64uDec. rewrite Hdec. simpl. f_equal.
  unfold b64uEnc. rewrite Henc, str_map_map.
  rewrite (str_map_ext_on _ (fun c => c) _ _ lookup_enc_dec Hs). apply str_map_id.
Qed.

Lemma forgiving_base64_rejects t :
  forgiving_base64 t = false -> atob t = Throw InvalidCharacterError.
Proof.
  unfold forgiving_base64, atob. rewrite indices_forallb.
  destruct (String.length (forgiving_data t) mod 4 =? 1)%nat; [reflexivity |].
  destruct (indices (forgiving_data t)); [discriminate | reflexivity].
Qed.

(** Claim C3, as the source has it.  [b64uDec (b64uEnc b)] is [b] for every
    byte string [b]; what [b64uEnc] produces is canonical Base64u (the
    alphabet, a padding with [.] to a multiple of four, the unused bits of
    the last group zero); [b64uEnc (b64uDec s)] is [s] for every canonical
    Base64u string [s]; and [b64uDec] fails on every string that, after
    the reverse substitution, [atob] does not accept. *)
Theorem b64u_codec : b64u_bijection canonical_b64u forgiving_base64.
Proof.
  repeat apply conj.
  - apply b64uDec_b64uEnc.
  - apply b64uEnc_canonical.
  - apply canonical_b64u_encode.
  - intros s H. eexists. unfold b64uDec. now apply forgiving_base64_rejects.
Qed.

(** Claim C3 on the canonical string [MQ..], the text of the byte string
    [1]. *)
Lemma b64u_codec_witness :
  canonical_b64u "MQ.." = true /\
  (b ← b64uDec "MQ.."; Ok (b64uEnc b)) = Ok "MQ..".
Proof.
  split; [reflexivity |].
  exact (proj1 (proj2 (proj2 b64u_codec)) "MQ.." eq_refl).
Defined.

(** Claim C3, as stated, fails on [MR..]: the string is valid Base64u
    (alphabet and padding), it decodes to the byte string [1], and
    encoding that gives [MQ..]. *)
Lemma b64u_counterexample : ~ b64u_bijection valid_b64u valid_base64.
Proof.
  intros (_ & _ & H & _). specialize (H "MR.."%string eq_refl). discriminate H.
Qed.

(** [MQ] lacks its padding, so it is not valid Base64, and decoding
    succeeds. *)
Example b64u_unpadded_accepted :
  valid_base64 (Str.map B64U_LOOKUP_dec "MQ") = false /\ b64uDec "MQ" = Ok "1"%string.
Proof. split; reflexivity. Qed.

End Base64uFacts.


(** ** Induction on values *)

Lemma value_ind (P : value -> Prop) :
  P Null -> (forall b, P (Bool b)) -> (forall n, P (Num n)) -> (forall s, P (Str s)) ->
  (forall l, Forall P l -> P (Arr l)) ->
  (forall o, Forall (fun kv => P (snd kv)) o -> P (Obj o)) ->
  forall v, P v.
Proof.
  intros HNull HBool HNum HStr HArr HObj. fix IH 1. intros [|b|n|s|l|o].
  - exact HNull.
  - apply HBool.
  - apply HNum.
  - apply HStr.
  - apply HArr. induction l as [|x l IHl]; constructor; [apply IH | exact IHl].
  - apply HObj. induction o as [|[k x] o IHo]; constructor; [apply IH | exact IHo].
Qed.

(** ** Global replacement *)

Lemma strip_prefix_append p r : Str.strip_prefix p (p ++ r) = Some r.
Proof.
  induction p as [|c p IH]; simpl; [reflexivity |].
  now rewrite Ascii.eqb_refl.
Qed.

Lemma strip_prefix_inv p s r : Str.strip_prefix p s = Some r -> s = p ++ r.
Proof.
  revert s. induction p as [|c p IH]; intros s; simpl.
  - now intros [= ->].
  - destruct s as [|d s]; [discriminate |].
    destruct (Ascii.eqb_spec c d) as [-> |]; [|discriminate].
    intros H. now rewrite (IH _ H).
Qed.

Lemma replace_from_skip p f a r :
  Regex.replace_from p f (String.length a) (a ++ r) = Regex.replace_from p f 0 r.
Proof.
  induction a as [|c a IH]; simpl; [|exact IH].
  destruct r; reflexivity.
Qed.

(** A match at the head is replaced, and the scan goes on after it. *)
Lemma replace_match p f c m r g :
  Regex.exec p (String c m ++ r) = Some (String c m, g) ->
  Regex.replace p f (String c m ++ r) = f (String c m) g ++ Regex.replace p f r.
Proof.
  intros H. unfold Regex.replace.
  change (String c m ++ r) with (String c (m ++ r)) in *.
  cbn [Regex.replace_from]. rewrite H. cbn [String.length].
  now rewrite replace_from_skip.
Qed.

(** Without a match at the head, the first character is copied. *)
Lemma replace_no_match p f c r :
  Regex.exec p (String c r) = None ->
  Regex.replace p f (String c r) = String c (Regex.replace p f r).
Proof. intros H. unfold Regex.replace. cbn [Regex.replace_from]. now rewrite H. Qed.

Lemma replace_empty p f :
  Regex.exec p EmptyString = None -> Regex.replace p f EmptyString = EmptyString.
Proof. intros H. unfold Regex.replace. cbn [Regex.replace_from]. now rewrite H. Qed.

(** [exec] finds the first alternative that is a prefix. *)
Lemma exec_first lit g alts r :
  Regex.exec ((lit, g) :: alts) (lit ++ r) = Some (lit, g).
Proof. cbn [Regex.exec]. now rewrite strip_prefix_append. Qed.

Lemma exec_next lit g alts s :
  Str.strip_prefix lit s = None ->
  Regex.exec ((lit, g) :: alts) s = Regex.exec alts s.
Proof. intros H. cbn [Regex.exec]. now rewrite H. Qed.

Lemma exec_Some p s m g :
  Regex.exec p s = Some (m, g) -> In (m, g) p /\ exists r, s = m ++ r.
Proof.
  induction p as [|[lit g'] alts IH]; cbn [Regex.exec]; [discriminate |].
  destruct (Str.strip_prefix lit s) as [r|] eqn:Hp.
  - intros [= -> ->]. split; [now left |]. exists r. now apply strip_prefix_inv.
  - intros H. destruct (IH H) as [Hin Hr]. split; [now right | exact Hr].
Qed.

Lemma exec_None p s :
  Regex.exec p s = None <-> forall m g, In (m, g) p -> Str.strip_prefix m s = None.
Proof.
  induction p as [|[lit g'] alts IH]; cbn [Regex.exec].
  - split; [intros _ m g [] | reflexivity].
  - destruct (Str.strip_prefix lit s) as [r|] eqn:Hp.
    + split; [discriminate |]. intros H. specialize (H lit g' (or_introl eq_refl)). congruence.
    + rewrite IH. split.
      * intros H m g [[= <- <-] | Hin]; [exact Hp | eauto].
      * intros H m g Hin. apply (H m g). now right.
Qed.

(** ** Objects *)

Lemma obj_define_append {V} (o : list (string * V)) k v :
  forallb (fun k' => negb (String.eqb k k') && negb (Object.goes_before k k')) (List.map fst o) = true ->
  Object.define o k v = (o ++ [(k, v)])%list.
Proof.
  induction o as [|[k' v'] o IH]; simpl; [reflexivity |].
  intros [[Hne Hgb]%andb_true_iff Ho]%andb_true_iff.
  apply negb_true_iff in Hne, Hgb. rewrite Hne, Hgb. now rewrite IH.
Qed.

(** Properties set one after the other on an object, in enumeration
    order, come out in that order. *)
Lemma fold_define_ordered {V W} (f : string * V -> W) o (acc : list (string * W)) :
  keys_ordered (List.map fst acc ++ List.map fst o)%list = true ->
  fold_left (fun rv kv => Object.define rv (fst kv) (f kv)) o acc
  = (acc ++ List.map (fun kv => (fst kv, f kv)) o)%list.
Proof.
  revert acc. induction o as [|[k v] o IH]; intros acc Hord; simpl.
  - now rewrite List.app_nil_r.
  - cbn [List.map fst] in Hord.
    replace (List.map fst acc ++ k :: List.map fst o)%list
      with ((List.map fst acc ++ [k]) ++ List.map fst o)%list in Hord
      by now rewrite <- List.app_assoc.
    assert (forallb (fun k' => negb (String.eqb k k') && negb (Object.goes_before k k'))
              (List.map fst acc) = true) as Hk.
    { clear IH. revert Hord. generalize (List.map fst acc) as ks. intros ks.
      induction ks as [|k0 ks IHks]; simpl; [reflexivity |].
      rewrite !forallb_app. simpl.
      intros [[[_ [H0 _]%andb_true_iff]%andb_true_iff _]%andb_true_iff Hks]%andb_true_iff.
      now rewrite H0, (IHks Hks). }
    rewrite (obj_define_append _ _ _ Hk), IH.
    + now rewrite <- List.app_assoc.
    + now rewrite List.map_app.
Qed.

(** ** Signer selection *)

Lemma includes_In (x : string) (l : list string) :
  existsb (String.eqb x) l = true <-> In x l.
Proof.
  rewrite existsb_exists. split.
  - intros (y & Hy & Heq). apply String.eqb_eq in Heq. now subst.
  - intros H. exists x. split; [exact H | apply String.eqb_refl].
Qed.

Lemma or_string_selected params options :
  or_string (Parameters.signer params) (ResolveOptions.preferred_signer options)
  = selected_signer params options.
Proof.
  unfold or_string, selected_signer.
  destruct (Parameters.signer params) as [s|]; simpl; [|reflexivity].
  now destruct (String.eqb s EmptyString).
Qed.

(** Claim C4, as the source has it.  [resolveTransaction] selects
    [params.signer] when it is set to a non-empty string and
    [options.preferred_signer] otherwise; it succeeds with that signer
    when it is a member of [options.signers], fails with
    [SignerUnavailable] when it is not, and the signer of every result is
    a member of [options.signers]. *)
Theorem resolveTransaction_signer utx params options :
  signer_selection selected_signer utx params options.
Proof.
  unfold signer_selection, resolveTransaction.
  rewrite or_string_selected.
  set (signer := selected_signer params options).
  destruct (existsb (String.eqb signer) (ResolveOptions.signers options)) eqn:Hin; simpl.
  - apply includes_In in Hin. repeat split.
    + intros _. eexists. reflexivity.
    + intros Hn. contradiction.
    + intros r [= <-]. exact Hin.
  - assert (~ In signer (ResolveOptions.signers options)) as Hn.
    { intros H%includes_In. congruence. }
    repeat split.
    + intros H. contradiction.
    + intros r [=].
Qed.

(** Claim C4 on the example of the specification: no signer is asked
    for, and the preferred signer [foo] is available. *)
Lemma resolveTransaction_signer_witness :
  let options := ResolveOptions.mk 0 0 "2020-01-01T00:00:00" ["foo"; "bar"] "foo" in
  In "foo" (ResolveOptions.signers options) /\
  exists tx,
    resolveTransaction (unresolved (Arr [])) no_parameters options
    = Ok (ResolveResult.mk tx "foo").
Proof.
  cbv zeta. split; [now left |].
  apply (proj1 (resolveTransaction_signer (unresolved (Arr [])) no_parameters
                  (ResolveOptions.mk 0 0 "2020-01-01T00:00:00" ["foo"; "bar"] "foo"))).
  now left.
Defined.

(** Claim C4, as stated, fails when [params.signer] is set to the empty
    string: the signer of the claim is the empty string, which is no member
    of [options.signers], and the call succeeds, with the preferred signer. *)
Lemma signer_selection_counterexample :
  ~ signer_selection specified_signer (unresolved (Arr []))
      (Parameters.mk (Some EmptyString) None None)
      (ResolveOptions.mk 0 0 "2020-01-01T00:00:00" ["foo"; "bar"] "foo").
Proof.
  intros (_ & Hthrow & _).
  assert (~ In EmptyString ["foo"; "bar"]) as Hn.
  { intros [H | [H | []]]; discriminate H. }
  specialize (Hthrow Hn). vm_compute in Hthrow. discriminate Hthrow.
Qed.

Example empty_signer_resolved :
  resolveTransaction (unresolved (Arr [])) (Parameters.mk (Some EmptyString) None None)
    (ResolveOptions.mk 0 0 "2020-01-01T00:00:00" ["foo"; "bar"] "foo")
  = Ok (ResolveResult.mk
          (Obj [("ref_block_num", Str "0"); ("ref_block_prefix", Str "0");
                ("expiration", Str "2020-01-01T00:00:00"); ("extensions", Arr []);
                ("operations", Arr [])]) "foo").
Proof. vm_compute. reflexivity. Qed.

Example signer_selection_spec_example :
  let options := ResolveOptions.mk 0 0 "2020-01-01T00:00:00" ["foo"; "bar"] "foo" in
  resolveTransaction Null (Parameters.mk None None None) options
    = Ok (ResolveResult.mk Null "foo") /\
  resolveTransaction Null (Parameters.mk (Some "qux") None None) options
    = Throw (SignerUnavailable "qux").
Proof. split; reflexivity. Qed.

(** ** Placeholder resolution *)

Lemma walk_map_strings ctx v :
  ordered_props v = true -> no_proto_key v = true ->
  walk ctx v
  = map_strings (Regex.replace RESOLVE_PATTERN (fun m _ => ToString (ctx !! m))) v.
Proof.
  induction v as [| | | |l IH|o IH] using value_ind; try reflexivity.
  - cbn [ordered_props no_proto_key walk map_strings]. intros Ho Hp. f_equal.
    induction IH as [|x l Hx _ IHl]; [reflexivity |].
    cbn [forallb List.map] in *.
    apply andb_true_iff in Ho as [Ho1 Ho2], Hp as [Hp1 Hp2].
    now rewrite Hx, IHl.
  - cbn [ordered_props no_proto_key walk map_strings]. unfold Object.entries.
    intros [Hk Ho]%andb_true_iff Hp. f_equal.
    transitivity (fold_left (fun rv kv => Object.define rv (fst kv) (walk ctx (snd kv))) o []).
    { generalize (@nil (string * value)) as acc.
      clear Hk Ho IH. induction o as [|[k x] o IHo]; intros acc; [reflexivity |].
      cbn [forallb fst snd] in Hp. apply andb_true_iff in Hp as [[Hk Hx]%andb_true_iff Hp].
      cbn [fold_left fst snd]. unfold Object.set at 2.
      apply negb_true_iff in Hk. rewrite Hk. now apply IHo. }
    rewrite (fold_define_ordered (fun kv => walk ctx (snd kv))) by exact Hk.
    cbn [app]. clear Hk.
    induction IH as [|[k x] o Hx _ IHo]; [reflexivity |].
    cbn [forallb List.map fst snd] in *.
    apply andb_true_iff in Ho as [Ho1 Ho2], Hp as [[_ Hp1]%andb_true_iff Hp2].
    now rewrite Hx, IHo.
Qed.

Lemma resolve_ctx_lookup (n p : Z) (e s : string) :
  let ctx : gmap string scalar :=
    {[ "__ref_block_num" := SNum n; "__ref_block_prefix" := SNum p;
       "__expiration" := SStr e; "__signer" := SStr s ]} in
  ctx !! "__ref_block_num" = Some (SNum n) /\
  ctx !! "__ref_block_prefix" = Some (SNum p) /\
  ctx !! "__expiration" = Some (SStr e) /\
  ctx !! "__signer" = Some (SStr s).
Proof. cbv zeta. repeat split; simplify_map_eq; reflexivity. Qed.

Lemma resolve_pattern_no_match s :
  no_placeholder_at_head s -> Regex.exec RESOLVE_PATTERN s = None.
Proof.
  intros H. apply exec_None. intros m g Hin. apply H.
  simpl in Hin. simpl. intuition congruence.
Qed.

Lemma replace_strings_map_strings f v :
  replace_strings (fun s => Str (f s)) v = map_strings f v.
Proof.
  induction v as [| | | |l IH|o IH] using value_ind; try reflexivity.
  - cbn [replace_strings map_strings]. f_equal.
    induction IH as [|x l Hx _ IHl]; [reflexivity |]. cbn [List.map]. now rewrite Hx, IHl.
  - cbn [replace_strings map_strings]. f_equal.
    induction IH as [|[k x] o Hx _ IHo]; [reflexivity |].
    cbn [List.map fst snd] in *. now rewrite Hx, IHo.
Qed.

Lemma resolved_with_map_strings resolve v :
  resolved_with resolve (fun s => Str (resolve s)) v = map_strings resolve v.
Proof.
  unfold resolved_with. rewrite <- replace_strings_map_strings.
  induction v as [| | | s |l IH|o IH] using value_ind; try reflexivity.
  - cbn [replace_strings]. now destruct (numeric_placeholder s).
  - cbn [replace_strings]. f_equal.
    induction IH as [|x l Hx _ IHl]; [reflexivity |]. cbn [List.map]. now rewrite Hx, IHl.
  - cbn [replace_strings]. f_equal.
    induction IH as [|[k x] o Hx _ IHo]; [reflexivity |].
    cbn [List.map fst snd] in *. now rewrite Hx, IHo.
Qed.

(** Claim C1, as the source has it.  On a value that lists the properties
    of its objects as JavaScript enumerates them, none of them named
    [__proto__], and with block numbers that a JavaScript number holds
    exactly, a successful [resolveTransaction] keeps the structure and
    every value that is not a string, and rewrites the strings with one
    function: it replaces, from left to right, each occurrence of the four
    tokens, at the head of the string or inside it, by the text of the
    mapped value (the decimal digits of a number), and keeps the other
    characters.  The statement leaves open what stands for a string that
    is exactly [__ref_block_num] or [__ref_block_prefix]. *)
Theorem resolveTransaction_substitution utx params options r :
  ordered_props utx = true ->
  no_proto_key utx = true ->
  safe_options options = true ->
  resolveTransaction utx params options = Ok r ->
  exists resolve whole,
    substitutes_placeholders options (ResolveResult.signer r) resolve /\
    ResolveResult.tx r = resolved_with resolve whole utx.
Proof.
  intros Ho Hp _. unfold resolveTransaction.
  set (signer := or_string _ _).
  destruct (existsb _ _); cbn [negb]; [|discriminate].
  intros [= <-]. cbn [ResolveResult.tx ResolveResult.signer].
  match goal with |- context [walk ?c utx] => set (ctx := c) end.
  exists (Regex.replace RESOLVE_PATTERN (fun m _ => ToString (ctx !! m))),
         (fun s => Str (Regex.replace RESOLVE_PATTERN (fun m _ => ToString (ctx !! m)) s)).
  rewrite resolved_with_map_strings.
  split; [|apply (walk_map_strings _ _ Ho Hp)].
  subst ctx.
  destruct (resolve_ctx_lookup (ResolveOptions.ref_block_num options)
              (ResolveOptions.ref_block_prefix options)
              (ResolveOptions.expiration options) signer) as (Hn & Hx & He & Hs).
  cbv zeta in Hn, Hx, He, Hs.
  unfold substitutes_placeholders. repeat apply conj.
  - reflexivity.
  - intros rest. rewrite replace_match with (g := "__ref_block_num"); [|reflexivity].
    now rewrite Hn.
  - intros rest. rewrite replace_match with (g := "__ref_block_prefix"); [|reflexivity].
    now rewrite Hx.
  - intros rest. rewrite replace_match with (g := "__expiration"); [|reflexivity].
    now rewrite He.
  - intros rest. rewrite replace_match with (g := "__signer"); [|reflexivity].
    now rewrite Hs.
  - intros c rest Hno. apply replace_no_match. now apply resolve_pattern_no_match.
Qed.

Example embedded_code_example :
  resolveTransaction embedded_utx (Parameters.mk None None None)
      (ResolveOptions.mk 42 0 "2020-01-01T00:00:00" ["foo"] "foo")
  = Ok (ResolveResult.mk (Obj [("other", Str "not42_embedded")]) "foo").
Proof. vm_compute. reflexivity. Qed.

(** Claim C1, as stated, fails on
    [{other: "not__ref_block_num_embedded"}] with [ref_block_num = 42]:
    the claim leaves the string as it is, the source replaces the token
    inside it and gives [not42_embedded]. *)
Lemma placeholder_counterexample :
  ~ resolves_as_specified embedded_utx (Parameters.mk None None None)
      (ResolveOptions.mk 42 0 "2020-01-01T00:00:00" ["foo"] "foo").
Proof.
  intros H. specialize (H _ embedded_code_example). vm_compute in H. discriminate H.
Qed.

Example placeholder_code_example :
  resolveTransaction spec_example_utx (Parameters.mk None None None)
      (ResolveOptions.mk 42 0 "2020-01-01T00:00:00" ["foo"] "foo")
  = Ok (ResolveResult.mk
          (Obj [("ref_block_num", Str "42"); ("other", Str "not42_embedded")]) "foo").
Proof. vm_compute. reflexivity. Qed.

(** Claim C1 on the example of the specification. *)
Lemma resolveTransaction_substitution_witness :
  exists resolve whole,
    substitutes_placeholders (ResolveOptions.mk 42 0 "2020-01-01T00:00:00" ["foo"] "foo") "foo" resolve /\
    Obj [("ref_block_num", Str "42"); ("other", Str "not42_embedded")]
    = resolved_with resolve whole spec_example_utx.
Proof.
  exact (resolveTransaction_substitution spec_example_utx (Parameters.mk None None None)
           (ResolveOptions.mk 42 0 "2020-01-01T00:00:00" ["foo"] "foo") _
           eq_refl eq_refl eq_refl placeholder_code_example).
Defined.

(** ** Callback templates *)

Example resolveCallback_spec_example :
  resolveCallback "https://x/cb?tx={{id}}&b={{block}}"
    (TransactionConfirmation.mk "ab" (Some "cd") (Some 5%Z) None) = "https://x/cb?tx=cd&b=5" /\
  resolveCallback "https://x/cb?tx={{id}}&b={{block}}"
    (TransactionConfirmation.mk "ab" None None None) = "https://x/cb?tx=&b=".
Proof. split; reflexivity. Qed.

(** Claim C8 on a confirmation whose transaction is the first of its
    block ([txn = 0]): the source substitutes the empty string for
    [{{txn}}], where the field is present and its text is [0]. *)
Lemma resolveCallback_txn_zero :
  let ctx := TransactionConfirmation.mk "ab" (Some "cd") (Some 5%Z) (Some 0%Z) in
  resolveCallback "https://x/cb?b={{block}}&n={{txn}}" ctx = "https://x/cb?b=5&n=" /\
  resolveCallback_specified "https://x/cb?b={{block}}&n={{txn}}" ctx = "https://x/cb?b=5&n=0".
Proof. split; reflexivity. Qed.

Lemma replace_ext p f f' s :
  (forall m g, In (m, g) p -> f m g = f' m g) ->
  Regex.replace p f s = Regex.replace p f' s.
Proof.
  intros Hf. unfold Regex.replace. generalize 0%nat as k. 
  induction s as [|c s IH]; intros k; cbn [Regex.replace_from].
  - destruct k; [|reflexivity]. destruct (Regex.exec p EmptyString) as [[m g]|] eqn:He; [|reflexivity].
    apply exec_Some in He as [Hin _]. now apply Hf.
  - destruct k; [|apply IH].
    destruct (Regex.exec p (String c s)) as [[m g]|] eqn:He.
    + apply exec_Some in He as [Hin _]. rewrite (Hf _ _ Hin).
      destruct (String.length m); now rewrite IH.
    + now rewrite IH.
Qed.

(** Apart from a block number or a transaction index of zero, the source
    substitutes what the specification describes. *)
Theorem resolveCallback_unless_zero url ctx :
  TransactionConfirmation.block ctx <> Some 0%Z ->
  TransactionConfirmation.txn ctx <> Some 0%Z ->
  resolveCallback url ctx = resolveCallback_specified url ctx.
Proof.
  intros Hb Ht. apply replace_ext. intros m g Hin.
  unfold specified_callback_value.
  destruct ctx as [sig id block txn]; simpl in Hb, Ht.
  simpl in Hin. destruct Hin as [[= <- <-] | [[= <- <-] | [[= <- <-] | [[= <- <-] | []]]]];
    cbn.
  - now destruct sig.
  - destruct id as [[|]|]; reflexivity.
  - destruct block as [[| |]|]; try reflexivity. congruence.
  - destruct txn as [[| |]|]; try reflexivity. congruence.
Qed.

Example resolveCallback_unless_zero_example :
  resolveCallback "cb://{{sig}}/{{txn}}{{other}}" (TransactionConfirmation.mk "ab" None (Some 5%Z) (Some 1%Z))
  = "cb://ab/1{{other}}".
Proof.
  rewrite (resolveCallback_unless_zero _ _); [reflexivity | discriminate | discriminate].
Qed.

(** ** Query construction *)

Lemma unreserved_encode c :
  unreserved c = true ->
  (Str.code c <? 128)%N = true /\ Url.urlencode_byte c = String c EmptyString.
Proof. ascii_cases c; intros H; try discriminate H; split; reflexivity. Qed.

Lemma urlencode_unreserved s :
  Str.forallb unreserved s = true -> Url.urlencode s = s.
Proof.
  unfold Url.urlencode. induction s as [|c s IH]; [reflexivity |].
  cbn [Str.forallb]. intros [Hc Hs]%andb_true_iff.
  destruct (unreserved_encode c Hc) as [Hlt Henc].
  cbn [Url.utf8_encode]. rewrite Hlt. cbn [Url.urlencode_bytes].
  now rewrite Henc, (IH Hs).
Qed.

Lemma b64u_char_unreserved n :
  (n < 64)%N -> unreserved (B64U_LOOKUP_enc (Base64.char_of n)) = true.
Proof. revert n. apply below_64_cases. repeat constructor. Qed.

Lemma b64uEnc_unreserved s : Str.forallb unreserved (b64uEnc s) = true.
Proof.
  unfold b64uEnc, Base64.btoa. rewrite str_map_append, str_forallb_append.
  apply andb_true_iff. split.
  - pose proof (to_sextets_bound s) as Hb.
    induction Hb as [|n l Hn _ IH]; [reflexivity |].
    cbn [Base64.chars Str.map Str.forallb]. now rewrite (b64u_char_unreserved n Hn).
  - destruct (padding_cases s) as [-> | [-> | ->]]; reflexivity.
Qed.

(** Claim C9, as the source has it.  The query is empty when nothing is
    emitted, and otherwise [?] and the emitted sequences joined by [&], in
    the order [nb], [s], [cb]: [nb=] when [no_broadcast] is [true],
    [s=<signer>] (form-urlencoded) when [signer] is set to a non-empty
    string, [cb=<Base64u(callback)>] when [callback] is set to a non-empty
    string. *)
Theorem encodeParameters_query params :
  encodeParameters params = query_of (query_sequences is_nonempty params).
Proof.
  destruct params as [signer callback nb].
  unfold encodeParameters, query_sequences, query_of, URLSearchParams.toString.
  cbn [Parameters.signer Parameters.callback Parameters.no_broadcast].
  assert (Hcb : forall c, Url.urlencode (b64uEnc c) = b64uEnc c)
    by (intros c; apply urlencode_unreserved, b64uEnc_unreserved).
  destruct nb as [[|]|];
    (destruct signer as [[|c s]|]; cbn [fmap option_fmap option_map truthy is_nonempty default String.eqb negb]);
    (destruct callback as [[|c' s']|]; cbn [fmap option_fmap option_map truthy is_nonempty default String.eqb negb]);
    cbn [URLSearchParams.set String.eqb Ascii.eqb Bool.eqb andb List.filter fst snd negb app
         List.map String.concat];
    rewrite ?Hcb; reflexivity.
Qed.

(** Claim C9, as stated, fails when [signer] is set to the empty string:
    the claim emits [?s=], the source emits nothing. *)
Lemma encodeParameters_counterexample :
  encodeParameters (Parameters.mk (Some EmptyString) None None)
  <> query_of (query_sequences is_set (Parameters.mk (Some EmptyString) None None)).
Proof. discriminate. Qed.

(** ** Decoding *)

Lemma decode_url_signing url :
  signing_url url ->
  decode_url url =
    (payload ← decode_payload (payload_of url);
     tx ← match kind_of url with
          | Some t =>
              if String.eqb t "tx" then Ok payload
              else if String.eqb t "op" then Ok (unresolved (Arr [payload]))
              else if String.eqb t "ops" then Ok (unresolved payload)
              else Throw (InvalidSigningAction (kind_of url))
          | None => Throw (InvalidSigningAction (kind_of url))
          end;
     callback ← match URLSearchParams.get (URL.searchParams url) "cb" with
                | Some cb => s ← b64uDec cb; Ok (Some s)
                | None => Ok None
                end;
     Ok (DecodeResult.mk tx
           (Parameters.mk (URLSearchParams.get (URL.searchParams url) "s") callback
              (if URLSearchParams.has (URL.searchParams url) "nb" then Some true else None)))).
Proof.
  intros [Hp Hh]. unfold decode_url. rewrite Hp, Hh. reflexivity.
Qed.

Lemma bind_Ok_inv {A B} (r : result A) (k : A -> result B) b :
  (x ← r; k x) = Ok b -> exists a, r = Ok a /\ k a = Ok b.
Proof. destruct r as [a| |]; simpl; [eauto | discriminate | discriminate]. Qed.

Lemma decode_url_Ok_signing url r : decode_url url = Ok r -> signing_url url.
Proof.
  unfold decode_url, signing_url.
  destruct (String.eqb_spec (URL.protocol url) "steem:"); [|discriminate].
  destruct (String.eqb_spec (URL.host url) "sign"); [|discriminate]. auto.
Qed.

Lemma decode_payload_Ok raw v :
  decode_payload raw = Ok v ->
  exists s text, raw = Some s /\ b64uDec s = Ok text /\ JSON.parse text = Ok v.
Proof.
  unfold decode_payload. destruct raw as [s|]; [|discriminate].
  destruct (b64uDec s) as [text| |] eqn:Hd; [|discriminate ..].
  simpl. destruct (JSON.parse text) as [v'| |] eqn:Hp; [|discriminate ..].
  intros [= ->]. eauto.
Qed.

Lemma unresolved_fields operations : has_required_fields (unresolved operations) = true.
Proof. reflexivity. Qed.

Lemma kind_cases (k : option string) :
  recognized_kind k \/
  (~ recognized_kind k /\
   match k with
   | Some t => String.eqb t "tx" = false /\ String.eqb t "op" = false /\ String.eqb t "ops" = false
   | None => True
   end).
Proof.
  unfold recognized_kind. destruct k as [t|].
  - destruct (String.eqb_spec t "tx") as [-> |]; [auto |].
    destruct (String.eqb_spec t "op") as [-> |]; [auto |].
    destruct (String.eqb_spec t "ops") as [-> |]; [auto |].
    right. split; [|auto]. intros [[=] | [[=] | [=]]]; contradiction.
  - right. split; [|exact I]. intros [[=] | [[=] | [=]]].
Qed.

(** Claim C5, as the source has it.  A successful [decode] has parsed the
    link, found the scheme [steem:], the authority [sign], a kind among
    [tx], [op], [ops] and a payload that is the Base64u text of a JSON
    value; its transaction is that value for [tx], and for [op] and [ops]
    the three placeholders, [extensions = []] and [operations] set to
    [[payload]] and to the payload, whatever JSON value the payload is.
    The five fields are present for [op] and [ops]; nothing is checked. *)
Theorem decode_result steemUrl r :
  decode steemUrl = Ok r ->
  exists url kind raw text payload,
    URL.parse steemUrl = Ok url /\ signing_url url /\
    kind_of url = Some kind /\ payload_of url = Some raw /\
    b64uDec raw = Ok text /\ JSON.parse text = Ok payload /\
    ((kind = "tx" /\ DecodeResult.tx r = payload) \/
     (kind = "op" /\ DecodeResult.tx r = unresolved (Arr [payload])) \/
     (kind = "ops" /\ DecodeResult.tx r = unresolved payload)) /\
    (kind <> "tx" -> has_required_fields (DecodeResult.tx r) = true).
Proof.
  unfold decode. intros (url & Hurl & H)%bind_Ok_inv.
  pose proof (decode_url_Ok_signing _ _ H) as Hs.
  rewrite (decode_url_signing _ Hs) in H.
  apply bind_Ok_inv in H as (payload & Hpay & H).
  apply bind_Ok_inv in H as (tx & Htx & H).
  apply bind_Ok_inv in H as (cb & Hcb & H).
  injection H as <-. cbn [DecodeResult.tx].
  apply decode_payload_Ok in Hpay as (raw & text & Hraw & Htext & Hparse).
  destruct (kind_of url) as [k|] eqn:Hkind; [|discriminate Htx].
  exists url; exists k; exists raw; exists text; exists payload.
  refine (conj Hurl (conj Hs (conj Hkind (conj Hraw (conj Htext (conj Hparse (conj _ _))))))).
  - destruct (String.eqb_spec k "tx") as [-> |].
    { injection Htx as <-. left. split; reflexivity. }
    destruct (String.eqb_spec k "op") as [-> |].
    { injection Htx as <-. right. left. split; reflexivity. }
    destruct (String.eqb_spec k "ops") as [-> |].
    { injection Htx as <-. right. right. split; reflexivity. }
    discriminate.
  - intros Hne. destruct (String.eqb_spec k "tx") as [-> |]; [contradiction |].
    destruct (String.eqb k "op"); [injection Htx as <-; reflexivity |].
    destruct (String.eqb k "ops"); [injection Htx as <-; reflexivity |].
    discriminate.
Qed.

Lemma decode_ops_example :
  decode "steem://sign/ops/MQ.." =
  Ok (DecodeResult.mk (unresolved (Num 1)) (Parameters.mk None None None)).
Proof. vm_compute. reflexivity. Qed.

Lemma decode_tx_example :
  decode "steem://sign/tx/MQ.." = Ok (DecodeResult.mk (Num 1) (Parameters.mk None None None)).
Proof. vm_compute. reflexivity. Qed.

(** Claim C5 at the link [steem://sign/ops/MQ..], whose payload is the
    number [1]. *)
Lemma decode_result_witness :
  exists url kind raw text payload,
    URL.parse "steem://sign/ops/MQ.." = Ok url /\ signing_url url /\
    kind_of url = Some kind /\ payload_of url = Some raw /\
    b64uDec raw = Ok text /\ JSON.parse text = Ok payload /\
    ((kind = "tx" /\ unresolved (Num 1) = payload) \/
     (kind = "op" /\ unresolved (Num 1) = unresolved (Arr [payload])) \/
     (kind = "ops" /\ unresolved (Num 1) = unresolved payload)) /\
    (kind <> "tx" -> has_required_fields (unresolved (Num 1)) = true).
Proof. exact (decode_result _ _ decode_ops_example). Defined.

(** Claim C5, as stated, fails on the link [steem://sign/ops/MQ..]: its
    payload is the number [1], no ordered sequence, and [decode] succeeds
    with [operations = 1]. *)
Lemma decode_valid_counterexample : ~ decodes_to_valid "steem://sign/ops/MQ..".
Proof. intros H. specialize (H _ decode_ops_example). discriminate H. Qed.

(** For the kind [tx] no field is required either. *)
Example decode_tx_unchecked : ~ decodes_to_valid "steem://sign/tx/MQ..".
Proof. intros H. specialize (H _ decode_tx_example). discriminate H. Qed.

Lemma decode_parsed steemUrl url :
  URL.parse steemUrl = Ok url -> decode steemUrl = decode_url url.
Proof. intros H. unfold decode. rewrite H. reflexivity. Qed.

Lemma decode_url_unrecognized url :
  signing_url url -> ~ recognized_kind (kind_of url) ->
  decode_url url =
    (_ ← decode_payload (payload_of url); Throw (InvalidSigningAction (kind_of url))).
Proof.
  intros Hs Hk. rewrite (decode_url_signing _ Hs).
  destruct (kind_cases (kind_of url)) as [Hr | [_ Hne]]; [contradiction |].
  destruct (decode_payload (payload_of url)) as [payload| |]; try reflexivity.
  simpl. destruct (kind_of url) as [t|]; [|reflexivity].
  destruct Hne as (-> & -> & ->). reflexivity.
Qed.

(** Claim C6, as the source has it.  [decode] decodes the payload before
    it looks at the kind: for a link with the scheme [steem:] and the
    authority [sign] whose kind is none of [tx], [op], [ops], decoding
    never succeeds; it fails with [InvalidSigningAction] when the payload
    decodes, and with [InvalidPayload] when the payload segment is
    missing or is the Base64u text of something that is no JSON text. *)
Theorem decode_unrecognized_kind steemUrl url :
  URL.parse steemUrl = Ok url -> signing_url url -> ~ recognized_kind (kind_of url) ->
  ~ succeeds (decode steemUrl) /\
  (forall payload, decode_payload (payload_of url) = Ok payload ->
     decode steemUrl = Throw (InvalidSigningAction (kind_of url))) /\
  (payload_of url = None -> decode steemUrl = Throw (InvalidPayload TypeError)) /\
  (forall raw text, payload_of url = Some raw -> b64uDec raw = Ok text ->
     JSON.parse text = Throw SyntaxError ->
     decode steemUrl = Throw (InvalidPayload SyntaxError)).
Proof.
  intros Hu Hs Hk. rewrite (decode_parsed _ _ Hu), (decode_url_unrecognized _ Hs Hk).
  refine (conj _ (conj _ (conj _ _))).
  - intros [r H]. destruct (decode_payload (payload_of url)); discriminate H.
  - intros payload ->. reflexivity.
  - intros ->. reflexivity.
  - intros raw text -> Hd Hp. unfold decode_payload. rewrite Hd.
    cbn [mbind result_bind bind]. rewrite Hp. reflexivity.
Qed.

Lemma follow_alias_parsed : URL.parse follow_alias = Ok follow_alias_url.
Proof. vm_compute. reflexivity. Qed.

(** On the alias of the README the payload [alice] is no Base64u text,
    and the handler of [decode] does not get to label the exception. *)
Example follow_alias_decoded : decode follow_alias = Throw TypeError.
Proof. vm_compute. reflexivity. Qed.

Lemma follow_text_parsed : URL.parse follow_text = Ok follow_text_url.
Proof. vm_compute. reflexivity. Qed.

Lemma follow_text_decoded : decode follow_text = Throw (InvalidPayload SyntaxError).
Proof. vm_compute. reflexivity. Qed.

Lemma follow_text_kind : ~ recognized_kind (kind_of follow_text_url).
Proof. intros [[=] | [[=] | [=]]]. Qed.

(** Claim C6, as stated, fails on the link [steem://sign/follow/YWxpY2U.]:
    its kind [follow] is not recognized, and [decode] fails with
    [InvalidPayload], not with [InvalidSigningAction], because the payload
    is the Base64u text of [alice], which is no JSON text. *)
Lemma kind_check_counterexample : ~ kind_checked_first follow_text.
Proof.
  intros H.
  destruct (H _ follow_text_parsed (conj eq_refl eq_refl)) as [H1 _].
  specialize (H1 follow_text_kind). rewrite follow_text_decoded in H1. discriminate H1.
Qed.

(** Claim C6 at the link [steem://sign/follow/YWxpY2U.]. *)
Lemma decode_unrecognized_kind_witness :
  ~ succeeds (decode follow_text) /\
  (forall payload, decode_payload (payload_of follow_text_url) = Ok payload ->
     decode follow_text = Throw (InvalidSigningAction (kind_of follow_text_url))) /\
  (payload_of follow_text_url = None -> decode follow_text = Throw (InvalidPayload TypeError)) /\
  (forall raw text, payload_of follow_text_url = Some raw -> b64uDec raw = Ok text ->
     JSON.parse text = Throw SyntaxError ->
     decode follow_text = Throw (InvalidPayload SyntaxError)).
Proof.
  apply decode_unrecognized_kind.
  - vm_compute. reflexivity.
  - split; reflexivity.
  - intros [[=] | [[=] | [=]]].
Defined.

Lemma nth_error_firstn_2 (l l' : list string) :
  firstn 2 l = firstn 2 l' ->
  nth_error l 0 = nth_error l' 0 /\ nth_error l 1 = nth_error l' 1.
Proof.
  destruct l as [|a [|b l]], l' as [|a' [|b' l']]; simpl; intros [=]; subst; auto.
Qed.

(** Claim C7, as the source has it.  For a link with the scheme [steem:]
    and the authority [sign], [decode] fails when the payload segment is
    missing or empty; when the kind segment is empty it fails like every
    link of an unrecognized kind; and the segments after the second are
    never looked at: two links with the same first two segments and the
    same query decode alike. *)
Theorem decode_path steemUrl url :
  URL.parse steemUrl = Ok url -> signing_url url ->
  (payload_of url = None -> decode steemUrl = Throw (InvalidPayload TypeError)) /\
  (payload_of url = Some EmptyString -> decode steemUrl = Throw (InvalidPayload SyntaxError)) /\
  (kind_of url = Some EmptyString ->
     decode steemUrl =
       (_ ← decode_payload (payload_of url);
        Throw (InvalidSigningAction (Some EmptyString)))) /\
  (forall steemUrl' url', URL.parse steemUrl' = Ok url' -> signing_url url' ->
     firstn 2 (path_segments_of url') = firstn 2 (path_segments_of url) ->
     URL.searchParams url' = URL.searchParams url ->
     decode steemUrl' = decode steemUrl).
Proof.
  intros Hu Hs. rewrite (decode_parsed _ _ Hu). repeat apply conj.
  - intros Hp. rewrite (decode_url_signing _ Hs), Hp. reflexivity.
  - intros Hp. rewrite (decode_url_signing _ Hs), Hp. reflexivity.
  - intros Hk. rewrite decode_url_unrecognized, Hk; [reflexivity | exact Hs |].
    rewrite Hk. intros [[=] | [[=] | [=]]].
  - intros steemUrl' url' Hu' Hs' Hseg Hq. rewrite (decode_parsed _ _ Hu').
    rewrite (decode_url_signing _ Hs), (decode_url_signing _ Hs').
    unfold kind_of, payload_of. destruct (nth_error_firstn_2 _ _ Hseg) as [-> ->].
    now rewrite Hq.
Qed.

Lemma extra_segment_parsed : URL.parse extra_segment = Ok extra_segment_url.
Proof. vm_compute. reflexivity. Qed.

Lemma extra_segment_decoded :
  decode extra_segment = Ok (DecodeResult.mk (Num 1) (Parameters.mk None None None)).
Proof. vm_compute. reflexivity. Qed.

(** Claim C7, as stated, fails on the link [steem://sign/tx/MQ../extra]: its
    path has three segments, and [decode] succeeds, with the transaction
    that [MQ..] encodes. *)
Lemma path_counterexample : ~ rejects_other_paths extra_segment.
Proof.
  intros H. apply (H _ extra_segment_parsed).
  - split; reflexivity.
  - intros (k & p & [=] & _).
  - eexists. exact extra_segment_decoded.
Qed.

(** Claim C7 at the link [steem://sign/tx], which has no payload segment. *)
Lemma decode_path_witness :
  (payload_of no_payload_url = None -> decode no_payload = Throw (InvalidPayload TypeError)) /\
  (payload_of no_payload_url = Some EmptyString ->
     decode no_payload = Throw (InvalidPayload SyntaxError)) /\
  (kind_of no_payload_url = Some EmptyString ->
     decode no_payload =
       (_ ← decode_payload (payload_of no_payload_url);
        Throw (InvalidSigningAction (Some EmptyString)))) /\
  (forall steemUrl' url', URL.parse steemUrl' = Ok url' -> signing_url url' ->
     firstn 2 (path_segments_of url') = firstn 2 (path_segments_of no_payload_url) ->
     URL.searchParams url' = URL.searchParams no_payload_url ->
     decode steemUrl' = decode no_payload).
Proof.
  apply decode_path.
  - vm_compute. reflexivity.
  - split; reflexivity.
Defined.

Example decode_no_payload : decode no_payload = Throw (InvalidPayload TypeError).
Proof. vm_compute. reflexivity. Qed.

Example decode_empty_payload : decode "steem://sign/tx/" = Throw (InvalidPayload SyntaxError).
Proof. vm_compute. reflexivity. Qed.

Example decode_empty_kind :
  decode "steem://sign//MQ.." = Throw (InvalidSigningAction (Some EmptyString)).
Proof. vm_compute. reflexivity. Qed.

(** ** Effects on the heap *)

Section HeapFacts.
Local Abbreviation walk_value := walk (only parsing).
Local Abbreviation resolve_value := resolveTransaction (only parsing).
Import Heap.

Lemma fresh_None (h : heap) : h !! fresh (dom h) = None.
Proof. apply not_elem_of_dom, is_fresh. Qed.

Lemma walked_refl h : walked h h.
Proof.
  split; [intros l o H; exact H |].
  intros l o v l' Hn Hs. congruence.
Qed.

Lemma unchanged_None h h' l : unchanged h h' -> h' !! l = None -> h !! l = None.
Proof.
  intros Hu Hn. destruct (h !! l) as [o|] eqn:Hl; [|reflexivity].
  apply Hu in Hl. congruence.
Qed.

Lemma walked_trans h1 h2 h3 : walked h1 h2 -> walked h2 h3 -> walked h1 h3.
Proof.
  intros [U12 C12] [U23 C23]. split.
  - intros l o H. auto.
  - intros l o v l' Hn Hs Hin ->.
    destruct (h2 !! l) as [o2|] eqn:H2.
    + pose proof (U23 _ _ H2) as H3. rewrite H3 in Hs. injection Hs as <-.
      eapply C12; eauto.
    + eapply unchanged_None; [exact U12 |]. eapply C23; eauto.
Qed.

Lemma walked_alloc h o :
  contents o = [] -> walked h (<[fresh (dom h) := o]> h).
Proof.
  intros Ho. split.
  - intros l o' Hl. rewrite lookup_insert_ne; [exact Hl |].
    intros <-. rewrite fresh_None in Hl. discriminate.
  - intros l o' v l' Hn Hs Hin ->.
    destruct (decide (fresh (dom h) = l)) as [<- | Hne].
    + rewrite lookup_insert_eq in Hs. injection Hs as <-. rewrite Ho in Hin. destruct Hin.
    + rewrite lookup_insert_ne in Hs by exact Hne. congruence.
Qed.

(** Updating an object allocated since [h] with values that are fresh. *)
Lemma walked_alter h h' (f : object -> object) a :
  walked h h' -> h !! a = None ->
  (forall o v, In v (contents (f o)) -> In v (contents o) \/ fresh_value h v) ->
  walked h (alter f a h').
Proof.
  intros [U C] Ha Hf. split.
  - intros l o Hl. rewrite lookup_alter_ne; [now apply U |].
    intros <-. congruence.
  - intros l o v l' Hn Hs Hin ->.
    destruct (decide (a = l)) as [<- | Hne].
    + rewrite lookup_alter_eq in Hs.
      destruct (h' !! a) as [o'|] eqn:Ho'; [|discriminate]. injection Hs as <-.
      destruct (Hf _ _ Hin) as [Hin' | Hfresh]; [|now apply Hfresh].
      eapply C; eauto.
    + rewrite lookup_alter_ne in Hs by exact Hne. eapply C; eauto.
Qed.

Lemma push_contents v o x :
  In x (contents (push v o)) -> In x (contents o) \/ x = v.
Proof.
  destruct o as [l|ps]; simpl; [|auto].
  rewrite in_app_iff. simpl. intuition.
Qed.

Lemma define_contents {V} (ps : list (string * V)) k v x :
  In x (List.map snd (Object.define ps k v)) -> In x (List.map snd ps) \/ x = v.
Proof.
  induction ps as [|[k' v'] ps IH]; simpl.
  - intuition.
  - destruct (String.eqb k k'); simpl; [intuition |].
    destruct (Object.goes_before k k'); simpl; intuition.
Qed.

Lemma put_contents k v o x :
  In x (contents (put k v o)) -> In x (contents o) \/ x = v.
Proof.
  destruct o as [l|ps]; simpl; [auto |].
  unfold Object.set. destruct (String.eqb k "__proto__"); [auto |]. apply define_contents.
Qed.

Lemma fresh_value_weaken h h' v : unchanged h h' -> fresh_value h' v -> fresh_value h v.
Proof. intros U F l ->. eapply unchanged_None; eauto. Qed.

Lemma walk_elements_ok w a es h0 h h' :
  walk_ok w -> walked h0 h -> h0 !! a = None ->
  walk_elements w a es h = Some h' -> walked h0 h'.
Proof.
  intros Hw. revert h. induction es as [|e es IH]; intros h Hh Ha; simpl.
  - now intros [= <-].
  - destruct (w h e) as [[h1 v]|] eqn:He; [|discriminate].
    destruct (Hw _ _ _ _ He) as [H1 Hv].
    apply IH; [|exact Ha].
    apply walked_alter; [eapply walked_trans; eauto | exact Ha |].
    intros o x [Hin | ->]%push_contents; [now left | right].
    eapply fresh_value_weaken; [apply Hh | exact Hv].
Qed.

Lemma walk_entries_ok w rv ps h0 h h' :
  walk_ok w -> walked h0 h -> h0 !! rv = None ->
  walk_entries w rv ps h = Some h' -> walked h0 h'.
Proof.
  intros Hw. revert h. induction ps as [|[k e] ps IH]; intros h Hh Ha; simpl.
  - now intros [= <-].
  - destruct (w h e) as [[h1 v]|] eqn:He; [|discriminate].
    destruct (Hw _ _ _ _ He) as [H1 Hv].
    apply IH; [|exact Ha].
    apply walked_alter; [eapply walked_trans; eauto | exact Ha |].
    intros o x [Hin | ->]%put_contents; [now left | right].
    eapply fresh_value_weaken; [apply Hh | exact Hv].
Qed.

Lemma walk_walked fuel ctx : walk_ok (walk fuel ctx).
Proof.
  induction fuel as [|f IH]; intros h v h' v'; [discriminate |].
  destruct v as [| | | s | l]; cbn [walk];
    try (intros [= <- <-]; split; [apply walked_refl | intros l' [=]]).
  destruct (h !! l) as [[es|ps]|] eqn:Hl; [| |discriminate].
  - destruct (walk_elements _ _ _ _) as [h1|] eqn:Hw; [|discriminate].
    intros [= <- <-]. split.
    + eapply (walk_elements_ok _ _ _ h); [exact IH | | apply fresh_None | exact Hw].
      now apply walked_alloc.
    + intros l' [= <-]. apply fresh_None.
  - destruct (walk_entries _ _ _ _) as [h1|] eqn:Hw; [|discriminate].
    intros [= <- <-]. split.
    + eapply (walk_entries_ok _ _ _ h); [exact IH | | apply fresh_None | exact Hw].
      now apply walked_alloc.
    + intros l' [= <-]. apply fresh_None.
Qed.

Lemma walked_freshly_built h h' v :
  walked h h' -> fresh_value h v -> freshly_built h h' v.
Proof.
  intros [U C] Hv l Hr. induction Hr as [l | l o x l' Hl Hin Hr IH].
  - now apply Hv.
  - apply IH. intros l2 ->. eapply C; eauto.
Qed.

Lemma Forall2_represents_mono (P : val -> value -> Prop) (Q : val -> value -> Prop) es xs :
  Forall (fun x => forall v, P v x -> Q v x) xs ->
  Forall2 P es xs -> Forall2 Q es xs.
Proof.
  intros HF H2. induction H2 as [|e x es xs He H2 IH]; [constructor |].
  inversion HF; subst. constructor; auto.
Qed.

Lemma represents_mono x : forall h h' v,
  unchanged h h' -> represents h v x -> represents h' v x.
Proof.
  induction x as [|b|n|s|l IH|o IH] using value_ind; intros h h' v U R;
    inversion R; subst; try constructor.
  - eapply represents_arr; [apply U; eassumption |].
    eapply Forall2_represents_mono; [|eassumption].
    eapply List.Forall_impl; [|exact IH]. intros x Hx v. now apply Hx.
  - eapply represents_obj; [apply U; eassumption |].
    match goal with H : Forall2 _ ps o |- _ => revert H end.
    clear -IH U. intros H2. induction H2 as [|p x ps o [Hk Hr] H2 IH2]; [constructor |].
    inversion IH; subst. constructor; [split; [exact Hk | eauto] | auto].
Qed.

Lemma unchanged_refl h : unchanged h h.
Proof. intros l o H. exact H. Qed.

Lemma unchanged_trans h1 h2 h3 : unchanged h1 h2 -> unchanged h2 h3 -> unchanged h1 h3.
Proof. intros U V l o H. auto. Qed.

Lemma allocated_lookup h h' l o :
  allocated h h' !! l = Some o <-> h' !! l = Some o /\ h !! l = None.
Proof. apply lookup_difference_Some. Qed.

(** What a step of the loops keeps of the objects built so far. *)
Lemma built_kept h hc h1 a f :
  unchanged hc h1 ->
  unchanged (delete a (allocated h hc)) (delete a (allocated h (alter f a h1))).
Proof.
  intros U l o [Hne Hl]%lookup_delete_Some. apply allocated_lookup in Hl as [Hl Hn].
  apply lookup_delete_Some. split; [exact Hne |].
  apply allocated_lookup. split; [|exact Hn].
  rewrite lookup_alter_ne by exact Hne. now apply U.
Qed.

Lemma built_new h hc h1 a f o :
  unchanged h hc -> hc !! a = Some o ->
  unchanged (allocated hc h1) (delete a (allocated h (alter f a h1))).
Proof.
  intros U Ha l o' [Hl Hn]%allocated_lookup.
  assert (a <> l) as Hne by (intros <-; congruence).
  apply lookup_delete_Some. split; [exact Hne |].
  apply allocated_lookup. split; [now rewrite lookup_alter_ne by exact Hne |].
  destruct (h !! l) as [o2|] eqn:H2; [|reflexivity]. apply U in H2. congruence.
Qed.

Lemma built_final h h' a : unchanged (delete a (allocated h h')) (allocated h h').
Proof. intros l o [_ Hl]%lookup_delete_Some. exact Hl. Qed.

Lemma walk_elements_represents w f h a :
  h !! a = None ->
  forall es xs, Forall2 (represents h) es xs -> Forall (walk_refines w f) xs ->
  forall hc acc ys,
    unchanged h hc -> hc !! a = Some (OArray acc) ->
    Forall2 (represents (delete a (allocated h hc))) acc ys ->
    exists h' acc',
      walk_elements w a es hc = Some h' /\ unchanged h h' /\
      h' !! a = Some (OArray acc') /\
      Forall2 (represents (delete a (allocated h h'))) acc' (ys ++ List.map f xs)%list.
Proof.
  intros Ha es xs H2. induction H2 as [|e x es xs He H2 IH]; intros HF hc acc ys U Hacc Hys.
  - exists hc, acc. rewrite app_nil_r. cbn. auto.
  - inversion HF as [|? ? Hx HF']; subst.
    destruct (Hx hc e (represents_mono _ _ _ _ U He)) as (h1 & v' & Hw & U1 & Rv).
    cbn [walk_elements]. rewrite Hw.
    pose proof (U1 _ _ Hacc) as Hacc1.
    destruct (IH HF' (alter (push v') a h1) (acc ++ [v'])%list (ys ++ [f x])%list) as (h' & acc' & Hgo & U' & Ha' & R').
    + intros l o Hl. rewrite lookup_alter_ne by (intros <-; congruence). apply U1, U, Hl.
    + rewrite lookup_alter_eq, Hacc1. reflexivity.
    + apply Forall2_app.
      * eapply Forall2_impl; [exact Hys |]. intros v y. apply represents_mono.
        now apply built_kept.
      * constructor; [|constructor]. revert Rv. apply represents_mono.
        eapply built_new; eauto.
    + exists h', acc'. rewrite <- List.app_assoc in R'. auto.
Qed.

Lemma Forall2_define (R : val -> value -> Prop) ps xs k v y :
  Forall2 (fun p x => fst p = fst x /\ R (snd p) (snd x)) ps xs -> R v y ->
  Forall2 (fun p x => fst p = fst x /\ R (snd p) (snd x))
    (Object.define ps k v) (Object.define xs k y).
Proof.
  intros H2 Hv. induction H2 as [|[k1 v1] [k2 y1] ps xs [Hk Hr] H2 IH]; cbn in *.
  - constructor; [split; auto | constructor].
  - subst k2. destruct (String.eqb k k1).
    + constructor; [split; auto | exact H2].
    + destruct (Object.goes_before k k1).
      * constructor; [split; auto |]. constructor; [split; auto | exact H2].
      * constructor; [split; auto | exact IH].
Qed.

Lemma Forall2_set (R : val -> value -> Prop) ps xs k v y :
  Forall2 (fun p x => fst p = fst x /\ R (snd p) (snd x)) ps xs -> R v y ->
  Forall2 (fun p x => fst p = fst x /\ R (snd p) (snd x))
    (Object.set ps k v) (Object.set xs k y).
Proof.
  intros H2 Hv. unfold Object.set. destruct (String.eqb k "__proto__"); [exact H2 |].
  now apply Forall2_define.
Qed.

Lemma walk_entries_represents w f h rv :
  h !! rv = None ->
  forall ps xs,
    Forall2 (fun p x => fst p = fst x /\ represents h (snd p) (snd x)) ps xs ->
    Forall (fun kv => walk_refines w f (snd kv)) xs ->
  forall hc acc ys,
    unchanged h hc -> hc !! rv = Some (OObject acc) ->
    Forall2 (fun p x => fst p = fst x /\ represents (delete rv (allocated h hc)) (snd p) (snd x))
      acc ys ->
    exists h' acc',
      walk_entries w rv ps hc = Some h' /\ unchanged h h' /\
      h' !! rv = Some (OObject acc') /\
      Forall2 (fun p x => fst p = fst x /\ represents (delete rv (allocated h h')) (snd p) (snd x))
        acc' (fold_left (fun o kv => Object.set o (fst kv) (f (snd kv))) xs ys).
Proof.
  intros Ha ps xs H2.
  induction H2 as [|[k e] [k' x] ps xs [Hk He] H2 IH]; intros HF hc acc ys U Hacc Hys.
  - exists hc, acc. cbn. auto.
  - cbn in Hk, He. subst k'. inversion HF as [|? ? Hx HF']; subst. cbn in Hx.
    destruct (Hx hc e (represents_mono _ _ _ _ U He)) as (h1 & v' & Hw & U1 & Rv).
    cbn [walk_entries]. rewrite Hw.
    pose proof (U1 _ _ Hacc) as Hacc1.
    destruct (IH HF' (alter (put k v') rv h1) (Object.set acc k v') (Object.set ys k (f x)))
      as (h' & acc' & Hgo & U' & Ha' & R').
    + intros l o Hl. rewrite lookup_alter_ne by (intros <-; congruence). apply U1, U, Hl.
    + rewrite lookup_alter_eq, Hacc1. reflexivity.
    + apply Forall2_set.
      * eapply Forall2_impl; [exact Hys |]. intros p y [Hfst Hr]. split; [exact Hfst |].
        revert Hr. apply represents_mono. now apply built_kept.
      * revert Rv. apply represents_mono. eapply built_new; eauto.
    + exists h', acc'. cbn [fold_left fst snd]. auto.
Qed.

Lemma size_element x l : In x l -> size x < list_sum (List.map (fun x => S (size x)) l).
Proof.
  induction l as [|y l IH]; [intros [] |].
  intros [-> | Hin]; cbn [List.map list_sum fold_right]; [lia |].
  specialize (IH Hin). unfold list_sum in IH. lia.
Qed.

Lemma size_property (kv : string * value) o :
  In kv o -> size (snd kv) < list_sum (List.map (fun kv => S (size (snd kv))) o).
Proof.
  induction o as [|y l IH]; [intros [] |].
  intros [-> | Hin]; cbn [List.map list_sum fold_right]; [lia |].
  specialize (IH Hin). unfold list_sum in IH. lia.
Qed.

Lemma walk_represents ctx x : forall fuel,
  size x <= fuel -> walk_refines (Heap.walk fuel ctx) (walk_value ctx) x.
Proof.
  induction x as [|b|n|s|l IH|o IH] using value_ind; intros [|fuel] Hfuel h v R;
    try (cbn in Hfuel; lia); inversion R; subst.
  - exists h, VNull. repeat apply conj; [reflexivity | apply unchanged_refl | constructor].
  - exists h, (VBool b). repeat apply conj; [reflexivity | apply unchanged_refl | constructor].
  - exists h, (VNum n). repeat apply conj; [reflexivity | apply unchanged_refl | constructor].
  - eexists h, (VStr _). repeat apply conj; [reflexivity | apply unchanged_refl | constructor].
  - match goal with H : h !! _ = Some _ |- _ => rename H into Hl end.
    match goal with H : Forall2 _ _ _ |- _ => rename H into H2 end.
    cbn [Heap.walk]. rewrite Hl.
    pose proof (fresh_None h) as Hfresh. set (a := fresh (dom h)) in *.
    destruct (walk_elements_represents (Heap.walk fuel ctx) (walk_value ctx) h a Hfresh es l H2)
      with (hc := <[a := OArray []]> h) (acc := @nil val) (ys := @nil value)
      as (h' & acc' & Hgo & U' & Ha' & R').
    + rewrite List.Forall_forall in IH |- *. intros x Hin. apply IH; [exact Hin |].
      pose proof (size_element _ _ Hin). cbn [size] in Hfuel. lia.
    + intros l' o Hl'. rewrite lookup_insert_ne; [exact Hl' |]. intros <-. congruence.
    + apply lookup_insert_eq.
    + constructor.
    + exists h', (VRef a). rewrite Hgo. repeat apply conj; [reflexivity | exact U' |].
      cbn [walk_value]. eapply represents_arr.
      * apply allocated_lookup. split; [exact Ha' | exact Hfresh].
      * eapply Forall2_impl; [exact R' |]. intros v y. apply represents_mono, built_final.
  - match goal with H : h !! _ = Some _ |- _ => rename H into Hl end.
    match goal with H : Forall2 _ _ _ |- _ => rename H into H2 end.
    cbn [Heap.walk]. rewrite Hl.
    pose proof (fresh_None h) as Hfresh. set (rv := fresh (dom h)) in *.
    destruct (walk_entries_represents (Heap.walk fuel ctx) (walk_value ctx) h rv Hfresh ps o H2)
      with (hc := <[rv := OObject []]> h) (acc := @nil (string * val))
           (ys := @nil (string * value))
      as (h' & acc' & Hgo & U' & Ha' & R').
    + rewrite List.Forall_forall in IH |- *. intros x Hin. apply IH; [exact Hin |].
      pose proof (size_property _ _ Hin). cbn [size] in Hfuel. lia.
    + intros l' o' Hl'. rewrite lookup_insert_ne; [exact Hl' |]. intros <-. congruence.
    + apply lookup_insert_eq.
    + constructor.
    + exists h', (VRef rv). unfold Object.entries. rewrite Hgo.
      repeat apply conj; [reflexivity | exact U' |].
      cbn [walk_value]. unfold Object.entries. eapply represents_obj.
      * apply allocated_lookup. split; [exact Ha' | exact Hfresh].
      * eapply Forall2_impl; [exact R' |]. intros p y [Hk Hr]. split; [exact Hk |].
        revert Hr. apply represents_mono, built_final.
Qed.

Lemma allocated_unchanged h h' : unchanged (allocated h h') h'.
Proof. intros l o [Hl _]%allocated_lookup. exact Hl. Qed.

(** The call on a heap value that is the value [x] returns, and its
    outcome is the outcome of [resolveTransaction] on [x]. *)
Lemma resolveTransaction_refines h utx x params options :
  represents h utx x ->
  exists h' outcome,
    resolveTransaction (size x) h utx params options = Some (h', outcome) /\
    same_outcome h' outcome (resolve_value x params options).
Proof.
  intros R. unfold resolveTransaction, resolve_value.
  destruct (negb _).
  - exists h. eexists. split; reflexivity.
  - match goal with |- context [walk _ ?c _ _] => set (ctx := c) end.
    destruct (walk_represents ctx x (size x) (le_n _) h utx R) as (h' & v' & Hw & U & Rv).
    rewrite Hw. exists h'. eexists. split; [reflexivity |].
    cbn. exists v'. split; [reflexivity |].
    revert Rv. apply represents_mono, allocated_unchanged.
Qed.

Lemma resolveTransaction_unchanged fuel h utx params options h' outcome :
  resolveTransaction fuel h utx params options = Some (h', outcome) ->
  unchanged h h' /\
  forall tx signer, outcome = Ok (tx, signer) -> freshly_built h h' tx.
Proof.
  unfold resolveTransaction.
  destruct (negb _).
  - intros [= <- <-]. split; [intros l o H; exact H | discriminate].
  - destruct (walk fuel _ h utx) as [[h1 tx]|] eqn:Hw; [|discriminate].
    cbn. intros [= <- <-].
    destruct (walk_walked _ _ _ _ _ _ Hw) as [Hwalked Hfresh].
    split; [apply Hwalked |].
    intros tx' signer [= <- _]. now apply walked_freshly_built.
Qed.

(** Claim C10.  [resolveTransaction] does not mutate its argument.
    Whenever the call returns, every object of the heap it started in is
    as it was, so the input transaction is the same structure before and
    after, and every object reachable from the returned transaction was
    allocated by the call: the result shares no object with the input.
    And the call does return on every transaction that is a JSON value
    [x] (a finite structure without cycles), with the outcome of
    [resolveTransaction] on [x], the input still being [x] afterwards. *)
Theorem resolveTransaction_frame h utx params options :
  (forall fuel h' outcome,
     resolveTransaction fuel h utx params options = Some (h', outcome) ->
     unchanged h h' /\
     forall tx signer, outcome = Ok (tx, signer) -> freshly_built h h' tx) /\
  (forall x, represents h utx x ->
     exists h' outcome,
       resolveTransaction (size x) h utx params options = Some (h', outcome) /\
       represents h' utx x /\
       same_outcome h' outcome (resolve_value x params options)).
Proof.
  split.
  - intros fuel h' outcome. apply resolveTransaction_unchanged.
  - intros x R.
    destruct (resolveTransaction_refines h utx x params options R) as (h' & outcome & H & Hsame).
    exists h', outcome. repeat apply conj; [exact H | | exact Hsame].
    revert R. apply represents_mono. now apply (resolveTransaction_unchanged _ _ _ _ _ _ _ H).
Qed.

End HeapFacts.

Example sample_resolved :
  exists h' tx,
    Heap.resolveTransaction 3 sample_heap (Heap.VRef 1%positive) (Parameters.mk None None None) sample_options
      = Some (h', Ok (tx, "foo")) /\
    h' !! 1%positive = sample_heap !! 1%positive /\
    h' !! 2%positive = sample_heap !! 2%positive /\
    Heap.represents h' tx
      (Obj [("operations", Arr [Num 1; Str "x2020-01-01T00:00:00"]); ("signer", Str "foo")]).
Proof.
  eexists. eexists. split; [vm_compute; reflexivity |].
  split; [reflexivity |]. split; [reflexivity |].
  eapply Heap.represents_obj; [vm_compute; reflexivity |].
  repeat constructor.
  eapply Heap.represents_arr; [vm_compute; reflexivity |].
  repeat constructor.
Qed.

(** Claim C10 on a transaction of two objects: the call returns, the two
    objects are as they were, and the result is made of new objects. *)
Lemma resolveTransaction_frame_witness :
  exists h' tx,
    Heap.resolveTransaction 3 sample_heap (Heap.VRef 1%positive) (Parameters.mk None None None) sample_options
      = Some (h', Ok (tx, "foo")) /\
    unchanged sample_heap h' /\ freshly_built sample_heap h' tx.
Proof.
  destruct (Heap.resolveTransaction 3 sample_heap (Heap.VRef 1%positive) (Parameters.mk None None None)
              sample_options) as [[h' [[tx signer]| |]]|] eqn:H; try (vm_compute in H; discriminate H).
  assert (signer = "foo") as -> by (vm_compute in H; congruence).
  exists h', tx. split; [reflexivity |].
  destruct (proj1 (resolveTransaction_frame sample_heap (Heap.VRef 1%positive)
                     (Parameters.mk None None None) sample_options) _ _ _ H) as [Hu Hf].
  split; [exact Hu | now apply (Hf tx "foo")].
Defined.

(** ** Numbers in decimal *)

Section NumberFacts.
Import Str Number.
Local Open Scope N_scope.

Lemma digit_code d : d < 10 -> code (digit d) - 48 = d /\ is_digit (digit d) = true.
Proof.
  intros H. assert (Forall (fun d => code (digit d) - 48 = d /\ is_digit (digit d) = true)
    (List.map N.of_nat (seq 0 10))) as Hall by (repeat constructor).
  rewrite List.Forall_forall in Hall. apply Hall.
  apply in_map_iff. exists (N.to_nat d). split; [lia |]. apply in_seq. lia.
Qed.

Lemma value_of_weight a s : value_of a s = a * weight s + value_of 0 s.
Proof.
  revert a. induction s as [|c s IH]; intros a; unfold weight in *; cbn [value_of String.length].
  - change (N.of_nat 0) with 0. rewrite N.pow_0_r. lia.
  - rewrite (IH (a * 10 + _)), (IH (0 * 10 + _)).
    rewrite Nat2N.inj_succ, N.pow_succ_r'. lia.
Qed.

Lemma weight_cons c s : weight (String c s) = 10 * weight s.
Proof. unfold weight. cbn [String.length]. now rewrite Nat2N.inj_succ, N.pow_succ_r'. Qed.

Lemma value_of_digits fuel n acc :
  n < 10 ^ N.of_nat (S fuel) ->
  value_of 0 (digits_fuel fuel n acc) = n * weight acc + value_of 0 acc.
Proof.
  revert n acc. induction fuel as [|f IH]; intros n acc Hn.
  - change (10 ^ N.of_nat 1) with 10 in Hn.
    cbn [digits_fuel value_of]. rewrite N.mod_small by exact Hn.
    destruct (digit_code n Hn) as [-> _]. rewrite value_of_weight. lia.
  - cbn [digits_fuel]. destruct (N.ltb_spec n 10) as [Hlt | Hge].
    + cbn [value_of]. rewrite N.mod_small by exact Hlt.
      destruct (digit_code n Hlt) as [-> _]. rewrite value_of_weight. lia.
    + rewrite IH.
      * cbn [value_of]. rewrite weight_cons.
        destruct (digit_code (n mod 10)) as [-> _]; [now apply N.mod_lt |].
        rewrite (value_of_weight (0 * 10 + _)).
        pose proof (N.div_mod n 10 ltac:(lia)). nia.
      * rewrite Nat2N.inj_succ, N.pow_succ_r' in Hn.
        apply N.Div0.div_lt_upper_bound. exact Hn.
Qed.

Lemma size_bound n : n < 10 ^ N.of_nat (S (N.to_nat (N.size n))).
Proof.
  rewrite Nat2N.inj_succ, N2Nat.id.
  apply N.lt_le_trans with (2 ^ N.size n).
  - destruct n as [|p]; [reflexivity |]. apply N.size_gt.
  - rewrite N.pow_succ_r'. 
    assert (2 ^ N.size n <= 10 ^ N.size n) by (apply N.pow_le_mono_l; lia).
    assert (0 < 10 ^ N.size n) by (apply N.neq_0_lt_0, N.pow_nonzero; lia). lia.
Qed.

Lemma value_of_of_N n : value_of 0 (of_N n) = n.
Proof.
  unfold of_N. rewrite value_of_digits by apply size_bound.
  unfold weight. cbn. lia.
Qed.

Lemma digits_are_digits fuel n acc :
  forallb is_digit (digits_fuel fuel n acc) = forallb is_digit acc.
Proof.
  revert n acc. induction fuel as [|f IH]; intros n acc; cbn [digits_fuel].
  - cbn [forallb]. now destruct (digit_code (n mod 10)) as [_ ->]; [apply N.mod_lt |].
  - destruct (n <? 10).
    + cbn [forallb]. now destruct (digit_code (n mod 10)) as [_ ->]; [apply N.mod_lt |].
    + rewrite IH. cbn [forallb].
      now destruct (digit_code (n mod 10)) as [_ ->]; [apply N.mod_lt |].
Qed.

Lemma digit_zero d : d < 10 -> Ascii.eqb (digit d) "0" = true -> d = 0.
Proof.
  intros H. assert (Forall (fun d => Ascii.eqb (digit d) "0" = true -> d = 0)
    (List.map N.of_nat (seq 0 10))) as Hall by (repeat constructor; discriminate).
  rewrite List.Forall_forall in Hall. apply Hall.
  apply in_map_iff. exists (N.to_nat d). split; [lia |]. apply in_seq. lia.
Qed.

(** The first digit is zero for zero only. *)
Lemma digits_head fuel n acc :
  n < 10 ^ N.of_nat (S fuel) ->
  exists d r, digits_fuel fuel n acc = String d r /\
    (Ascii.eqb d "0" = true -> n = 0 /\ r = acc).
Proof.
  revert n acc. induction fuel as [|f IH]; intros n acc Hn.
  - change (10 ^ N.of_nat 1) with 10 in Hn. cbn [digits_fuel].
    eexists. eexists. split; [reflexivity |]. rewrite N.mod_small by exact Hn.
    intros H%digit_zero; auto.
  - cbn [digits_fuel]. destruct (N.ltb_spec n 10) as [Hlt | Hge].
    + eexists. eexists. split; [reflexivity |]. rewrite N.mod_small by exact Hlt.
      intros H%digit_zero; auto.
    + destruct (IH (n / 10) (String (digit (n mod 10)) acc)) as (d & r & Heq & Hz).
      { rewrite Nat2N.inj_succ, N.pow_succ_r' in Hn.
        apply N.Div0.div_lt_upper_bound. exact Hn. }
      exists d, r. split; [exact Heq |]. intros H0. destruct (Hz H0) as [Hdiv _].
      apply N.div_small_iff in Hdiv; lia.
Qed.

Lemma span_append p a rest :
  forallb p a = true -> head_is p rest = false -> span p (a ++ rest) = (a, rest).
Proof.
  intros Ha Hr. induction a as [|c a IH]; cbn [String.append].
  - destruct rest as [|c r]; cbn [span]; [reflexivity |]. cbn in Hr. now rewrite Hr.
  - cbn [forallb] in Ha. apply andb_true_iff in Ha as [Hc Ha].
    cbn [span]. now rewrite Hc, (IH Ha).
Qed.

Lemma parse_number_of_N n rest neg :
  head_is (fun c => is_digit c || Ascii.eqb c "." || Ascii.eqb c "e" || Ascii.eqb c "E") rest = false ->
  JSON.parse_number ((if neg : bool then "-" else "") ++ of_N n ++ rest)
  = Ok (Num (if neg then - Z.of_N n else Z.of_N n), rest).
Proof.
  intros Hrest. unfold JSON.parse_number.
  destruct (digits_head (N.to_nat (N.size n)) n EmptyString (size_bound n)) as (d & r & Hd & Hz).
  fold (of_N n) in Hd.
  assert (forallb is_digit (of_N n) = true) as Hdig by apply digits_are_digits.
  assert (head_is is_digit rest = false) as Hrd.
  { destruct rest as [|c rest]; [reflexivity |]. cbn in Hrest |- *.
    now destruct (is_digit c). }
  assert ((let '(neg', s1) :=
             match (if neg then "-" else "") ++ of_N n ++ rest with
             | String c r0 => if Ascii.eqb c "-" then (true, r0) else (false, (if neg then "-" else "") ++ of_N n ++ rest)
             | EmptyString => (false, (if neg then "-" else "") ++ of_N n ++ rest)
             end in (neg', s1)) = (neg, of_N n ++ rest)) as Hneg.
  { destruct neg; cbn [String.append].
    - reflexivity.
    - rewrite Hd in Hdig |- *. cbn [String.append]. cbn [forallb] in Hdig.
      apply andb_true_iff in Hdig as [Hdd _].
      destruct (Ascii.eqb_spec d "-") as [-> |]; [discriminate Hdd | reflexivity]. }
  destruct (match (if neg then "-" else "") ++ of_N n ++ rest with
            | String c r0 => _ | EmptyString => _ end) as [neg' s1].
  injection Hneg as -> ->.
  rewrite (span_append _ _ _ Hdig Hrd).
  rewrite Hd at 1. cbv beta iota.
  assert (Ascii.eqb d "0" && negb (String.eqb r EmptyString) = false) as ->.
  { destruct (Ascii.eqb d "0") eqn:H0; [|reflexivity].
    destruct (Hz eq_refl) as [_ ->]. reflexivity. }
  rewrite value_of_of_N.
  destruct rest as [|c rest]; [reflexivity |].
  cbn in Hrest. apply orb_false_iff in Hrest as [[[_ H1]%orb_false_iff H2]%orb_false_iff H3].
  now rewrite H1, H2, H3.
Qed.

End NumberFacts.

(** ** JSON texts *)

Section JSONStrings.
Import Str JSON.

Lemma escape_char_reads_back c : escape_reads_back c = true.
Proof. revert c. apply ascii_forall. vm_compute. reflexivity. Qed.

Lemma parse_string_escape_char c tail str rest :
  parse_string tail = Ok (str, rest) ->
  parse_string (escape_char c ++ tail) = Ok (String c str, rest).
Proof.
  intros H. pose proof (escape_char_reads_back c) as Hc. unfold escape_reads_back in Hc.
  destruct (escape_char c) as [|x [|e [|z1 [|z2 [|h1 [|h2 [|]]]]]]]; try discriminate Hc.
  - apply andb_true_iff in Hc as [[[->%Ascii.eqb_eq H1%negb_true_iff]%andb_true_iff
                                    H2%negb_true_iff]%andb_true_iff H3%negb_true_iff].
    cbn [String.append parse_string]. now rewrite H1, H2, H3, H.
  - apply andb_true_iff in Hc as [[->%Ascii.eqb_eq Hu%negb_true_iff]%andb_true_iff He].
    destruct (unescape e) as [c'|] eqn:Hun; [|discriminate]. apply Ascii.eqb_eq in He as ->.
    cbn [String.append parse_string].
    change (Ascii.eqb backslash dquote) with false.
    change (Ascii.eqb backslash backslash) with true. cbv iota.
    now rewrite Hu, Hun, H.
  - apply andb_true_iff in Hc as [[->%Ascii.eqb_eq ->%Ascii.eqb_eq]%andb_true_iff He].
    destruct (unicode_escape z1 z2 h1 h2) as [c'| |] eqn:Hun; try discriminate.
    apply Ascii.eqb_eq in He as ->.
    cbn [String.append parse_string].
    change (Ascii.eqb backslash dquote) with false.
    change (Ascii.eqb backslash backslash) with true.
    change (Ascii.eqb "u" "u") with true. cbv iota.
    now rewrite Hun, H.
Qed.

Lemma parse_string_escape s rest :
  parse_string (escape s ++ String dquote rest) = Ok (s, rest).
Proof.
  induction s as [|c s IH]; cbn [escape String.append].
  - cbn [parse_string]. now rewrite Ascii.eqb_refl.
  - rewrite str_append_assoc. now apply parse_string_escape_char.
Qed.

End JSONStrings.

Section JSONFacts.
Import Str JSON.

Lemma digit_dispatch c :
  is_digit c || Ascii.eqb c "-" = true ->
  starts_value c = true /\ Ascii.eqb c "[" = false /\ Ascii.eqb c "{" = false /\
  Ascii.eqb c dquote = false /\ Ascii.eqb c "-" || is_digit c = true.
Proof.
  revert c.
  assert (forall c, negb (is_digit c || Ascii.eqb c "-")
            || (starts_value c && negb (Ascii.eqb c "[") && negb (Ascii.eqb c "{")
                && negb (Ascii.eqb c dquote) && (Ascii.eqb c "-" || is_digit c)) = true) as H
    by (apply ascii_forall; vm_compute; reflexivity).
  intros c Hc. specialize (H c). rewrite Hc in H. cbn [negb orb] in H.
  apply andb_true_iff in H as [[[[H1 H2]%andb_true_iff H3]%andb_true_iff H4]%andb_true_iff H5].
  repeat apply conj; try assumption; now apply negb_true_iff.
Qed.

Lemma ends_value_head rest :
  ends_value rest = true ->
  head_is (fun c => is_digit c || Ascii.eqb c "." || Ascii.eqb c "e" || Ascii.eqb c "E") rest = false.
Proof.
  destruct rest as [|c rest]; [reflexivity |]. cbn [ends_value head_is].
  revert c.
  assert (forall c, negb (existsb (Ascii.eqb c) [","; "]"; "}"]%char)
            || negb (is_digit c || Ascii.eqb c "." || Ascii.eqb c "e" || Ascii.eqb c "E") = true) as H
    by (apply ascii_forall; vm_compute; reflexivity).
  intros c Hc. specialize (H c). rewrite Hc in H. now apply negb_true_iff.
Qed.

Lemma toString_shape n :
  exists neg m, Number.toString n = ((if neg : bool then "-" else "") ++ Number.of_N m)%string /\
    n = (if neg then - Z.of_N m else Z.of_N m)%Z.
Proof.
  unfold Number.toString. destruct (Z.ltb_spec n 0).
  - exists true, (Z.abs_N n). split; [reflexivity | rewrite N2Z.inj_abs_N; lia].
  - exists false, (Z.abs_N n). split; [reflexivity | rewrite N2Z.inj_abs_N; lia].
Qed.

Lemma of_N_head m rest :
  exists d r, (Number.of_N m ++ rest)%string = String d r /\ is_digit d = true.
Proof.
  destruct (digits_head (N.to_nat (N.size m)) m EmptyString (size_bound m)) as (d & r & Hd & _).
  fold (Number.of_N m) in Hd.
  pose proof (digits_are_digits (N.to_nat (N.size m)) m EmptyString) as Hdig.
  fold (Number.of_N m) in Hdig. rewrite Hd in Hdig |- *. cbn [forallb] in Hdig.
  apply andb_true_iff in Hdig as [Hdd _]. exists d, (r ++ rest)%string. now split.
Qed.

(** Every value's text starts with a character that starts a value. *)
Lemma stringify_head v rest :
  exists c r, (stringify v ++ rest)%string = String c r /\ starts_value c = true.
Proof.
  destruct v as [|[|]|n|s|l|o]; cbn [stringify]; try (eexists; eexists; split; reflexivity).
  destruct (toString_shape n) as (neg & m & -> & _).
  destruct neg; cbn [String.append]; [eexists; eexists; split; reflexivity |].
  destruct (of_N_head m rest) as (d & r & -> & Hd).
  exists d, r. split; [reflexivity |]. apply digit_dispatch. now rewrite Hd.
Qed.

Lemma skip_ws_head c r : is_ws c = false -> skip_ws (String c r) = String c r.
Proof. intros H. cbn [skip_ws]. now rewrite H. Qed.

Lemma starts_value_inv c :
  starts_value c = true ->
  is_ws c = false /\ Ascii.eqb c "]" = false /\ Ascii.eqb c "}" = false.
Proof.
  unfold starts_value. intros [[H1 H2]%andb_true_iff H3]%andb_true_iff.
  repeat split; now apply negb_true_iff.
Qed.

Lemma ends_value_cons c rest :
  existsb (Ascii.eqb c) [","; "]"; "}"]%char = true -> ends_value (String c rest) = true.
Proof. intros H. exact H. Qed.

(** The elements of a non-empty array, up to the closing bracket. *)
Lemma parse_elements_join x l :
  Forall reads_back (x :: l) ->
  forall fuel rest,
    list_sum (List.map (fun x => S (size x)) (x :: l)) <= fuel ->
    parse_elements fuel (join "," (List.map stringify (x :: l)) ++ String "]" rest)
    = Ok (x :: l, rest).
Proof.
  revert x. induction l as [|y l IH]; intros x Hall fuel rest Hfuel.
  - inversion Hall as [|? ? Hx _]; subst.
    cbn [List.map list_sum fold_right] in Hfuel. destruct fuel as [|f]; [lia |].
    cbn [List.map join String.concat parse_elements].
    rewrite (Hx f (String "]" rest)) by (reflexivity || lia).
    cbn. reflexivity.
  - inversion Hall as [|? ? Hx Hall']; subst.
    cbn [List.map list_sum fold_right] in Hfuel. destruct fuel as [|f]; [lia |].
    change (join "," (List.map stringify (x :: y :: l)))
      with (stringify x ++ "," ++ join "," (List.map stringify (y :: l)))%string.
    rewrite !str_append_assoc. cbn [parse_elements].
    rewrite (Hx f) by (reflexivity || lia).
    cbn [mbind result_bind bind String.append skip_ws is_ws existsb Ascii.eqb Bool.eqb orb].
    change (Ascii.eqb "," ",") with true. cbv iota.
    rewrite (IH y Hall' f rest) by (cbn [List.map list_sum fold_right]; lia).
    reflexivity.
Qed.


(** The members of a non-empty object, up to the closing brace. *)
Lemma parse_members_join kv o :
  Forall (fun kv => reads_back (snd kv)) (kv :: o) ->
  forall fuel rest,
    list_sum (List.map (fun kv => S (size (snd kv))) (kv :: o)) <= fuel ->
    parse_members fuel
      (join "," (List.map (fun kv => quote (fst kv) ++ ":" ++ stringify (snd kv))%string (kv :: o))
       ++ String "}" rest)
    = Ok (kv :: o, rest).
Proof.
  revert kv. induction o as [|kv' o IH]; intros [k x] Hall fuel rest Hfuel.
  - inversion Hall as [|? ? Hx _]; subst. cbn [snd] in Hx.
    cbn [List.map list_sum fold_right snd] in Hfuel. destruct fuel as [|f]; [lia |].
    cbn [List.map join String.concat fst snd]. unfold quote.
    rewrite !str_append_assoc. cbn [String.append parse_members skip_ws].
    change (is_ws dquote) with false. cbv iota. rewrite Ascii.eqb_refl.
    rewrite !str_append_assoc. cbn [String.append]. rewrite parse_string_escape.
    cbn [mbind result_bind bind skip_ws]. change (is_ws ":") with false.
    change (Ascii.eqb ":" ":") with true. cbv iota.
    rewrite (Hx f (String "}" rest)) by (reflexivity || lia).
    cbn. reflexivity.
  - inversion Hall as [|? ? Hx Hall']; subst. cbn [snd] in Hx.
    cbn [List.map list_sum fold_right snd] in Hfuel. destruct fuel as [|f]; [lia |].
    change (join "," (List.map (fun kv => quote (fst kv) ++ ":" ++ stringify (snd kv))%string
                        ((k, x) :: kv' :: o)))
      with ((quote k ++ ":" ++ stringify x) ++ "," ++
            join "," (List.map (fun kv => quote (fst kv) ++ ":" ++ stringify (snd kv))%string
                        (kv' :: o)))%string.
    unfold quote at 1.
    rewrite !str_append_assoc. cbn [String.append parse_members skip_ws].
    change (is_ws dquote) with false. cbv iota. rewrite Ascii.eqb_refl.
    rewrite !str_append_assoc. cbn [String.append]. rewrite parse_string_escape.
    cbn [mbind result_bind bind skip_ws]. change (is_ws ":") with false.
    change (Ascii.eqb ":" ":") with true. cbv iota.
    rewrite (Hx f) by (reflexivity || lia).
    cbn [mbind result_bind bind String.append skip_ws is_ws existsb Ascii.eqb Bool.eqb orb].
    change (Ascii.eqb "," ",") with true. cbv iota.
    assert (list_sum (List.map (fun kv => S (size (snd kv))) (kv' :: o)) <= f) as Hf
      by (cbn [List.map list_sum fold_right]; lia).
    pose proof (IH kv' Hall' f rest Hf) as Hp. cbn [String.append] in Hp.
    rewrite Hp. reflexivity.
Qed.

Lemma obj_of_members_ordered (o : list (string * value)) :
  keys_ordered (List.map fst o) = true -> obj_of_members o = o.
Proof.
  intros H. unfold obj_of_members.
  rewrite (fold_define_ordered (fun kv => snd kv) o []) by exact H.
  cbn [app]. induction o as [|[k v] o IH]; [reflexivity |].
  cbn [List.map fst snd]. f_equal. apply IH.
  cbn [List.map keys_ordered fst] in H. now apply andb_true_iff in H as [_ H].
Qed.

Lemma join_head {A} (f : A -> string) sep x l :
  exists tail, join sep (List.map f (x :: l)) = (f x ++ tail)%string.
Proof.
  destruct l as [|y l].
  - exists EmptyString. cbn [List.map join String.concat]. now rewrite str_append_nil_r.
  - eexists. reflexivity.
Qed.

Theorem parse_stringify v : ordered_props v = true -> reads_back v.
Proof.
  induction v as [|b|n|s|l IH|o IH] using value_ind; intros Hord fuel rest Hfuel Hrest;
    (destruct fuel as [|f]; [cbn [size] in Hfuel; lia |]).
  - reflexivity.
  - destruct b; reflexivity.
  - cbn [stringify]. destruct (toString_shape n) as (neg & m & Hn & ->).
    assert (exists c r, (Number.toString (if neg then - Z.of_N m else Z.of_N m) ++ rest)%string
                        = String c r /\ is_digit c || Ascii.eqb c "-" = true)
      as (c & r & Heq & Hc).
    { rewrite Hn. destruct neg; cbn [String.append].
      - eexists. eexists. split; reflexivity.
      - destruct (of_N_head m rest) as (d & r & -> & Hd). exists d, r. now rewrite Hd. }
    destruct (digit_dispatch c Hc) as (Hs & H1 & H2 & H3 & H4).
    destruct (starts_value_inv c Hs) as (Hws & _ & _).
    cbn [parse_value]. rewrite Heq, (skip_ws_head _ _ Hws), H1, H2, H3, H4.
    rewrite <- Heq, Hn, str_append_assoc.
    apply parse_number_of_N, ends_value_head, Hrest.
  - cbn [stringify parse_value]. unfold quote. cbn [String.append skip_ws].
    change (is_ws dquote) with false. cbv iota.
    change (Ascii.eqb dquote "[") with false. change (Ascii.eqb dquote "{") with false.
    rewrite Ascii.eqb_refl. rewrite str_append_assoc. cbn [String.append].
    now rewrite parse_string_escape.
  - cbn [stringify]. destruct l as [|x l].
    + reflexivity.
    + cbn [ordered_props] in Hord.
      assert (Forall reads_back (x :: l)) as Hall.
      { clear Hfuel. induction IH as [|y l' Hy _ IHl]; constructor.
        - apply Hy. cbn [forallb] in Hord. now apply andb_true_iff in Hord as [H _].
        - apply IHl. cbn [forallb] in Hord. now apply andb_true_iff in Hord as [_ H]. }
      cbn [size] in Hfuel. apply le_S_n in Hfuel.
      rewrite !str_append_assoc. cbn [String.append parse_value skip_ws].
      change (is_ws "[") with false. cbv iota. rewrite Ascii.eqb_refl.
      cbn [String.append].
      pose proof (parse_elements_join x l Hall f rest Hfuel) as Hp.
      destruct (join_head stringify "," x l) as (tail & Hj).
      rewrite Hj, ?str_append_assoc in Hp |- *.
      destruct (stringify_head x (tail ++ String "]" rest)%string) as (c & r & Heq & Hc).
      destruct (starts_value_inv c Hc) as (Hws & Hb & _).
      rewrite Heq in Hp |- *.
      rewrite (skip_ws_head _ _ Hws), Hb, Hp. reflexivity.
  - cbn [stringify]. destruct o as [|[k x] o].
    + reflexivity.
    + cbn [ordered_props] in Hord. apply andb_true_iff in Hord as [Hkeys Hord].
      assert (Forall (fun kv => reads_back (snd kv)) ((k, x) :: o)) as Hall.
      { clear Hfuel Hkeys. induction IH as [|y l' Hy _ IHl]; constructor.
        - apply Hy. cbn [forallb] in Hord. now apply andb_true_iff in Hord as [H _].
        - apply IHl. cbn [forallb] in Hord. now apply andb_true_iff in Hord as [_ H]. }
      cbn [size] in Hfuel. apply le_S_n in Hfuel.
      pose proof (parse_members_join (k, x) o Hall f rest Hfuel) as Hp.
      rewrite !str_append_assoc. cbn [String.append parse_value skip_ws].
      change (is_ws "{") with false. cbv iota.
      change (Ascii.eqb "{" "[") with false. rewrite Ascii.eqb_refl.
      cbn [String.append] in Hp |- *.
      destruct (join_head (fun kv : string * value =>
                             quote (fst kv) ++ String ":" (stringify (snd kv)))%string
                  "," (k, x) o) as (tail & Hj).
      rewrite Hj in Hp |- *. unfold quote in Hp at 1. unfold quote at 1.
      cbn [fst snd] in Hp |- *. rewrite ?str_append_assoc in Hp |- *.
      cbn [String.append] in Hp |- *.
      cbn [skip_ws]. change (is_ws dquote) with false. cbv iota.
      change (Ascii.eqb dquote "}") with false. cbv iota.
      rewrite Hp. cbn [mbind result_bind bind].
      now rewrite (obj_of_members_ordered _ Hkeys).
Qed.

End JSONFacts.

Section JSONRoundTrip.
Import Str JSON.

Lemma join_length {A} (f : A -> string) (w : A -> nat) sep l :
  Forall (fun x => w x <= String.length (f x)) l ->
  list_sum (List.map (fun x => S (w x)) l)
  <= S (String.length (join (String sep EmptyString) (List.map f l))).
Proof.
  induction 1 as [|x l Hx Hl IH]; [cbn; lia |].
  destruct l as [|y l].
  - cbn [List.map list_sum fold_right join String.concat]. lia.
  - change (join (String sep EmptyString) (List.map f (x :: y :: l)))
      with (f x ++ String sep EmptyString ++ join (String sep EmptyString) (List.map f (y :: l)))%string.
    rewrite !str_length_append. cbn [String.length].
    change (list_sum (List.map (fun x => S (w x)) (x :: y :: l)))
      with (S (w x) + list_sum (List.map (fun x => S (w x)) (y :: l)))%nat.
    lia.
Qed.

Lemma size_le_length v : size v <= String.length (stringify v).
Proof.
  induction v as [|b|n|s|l IH|o IH] using value_ind; cbn [size stringify].
  - cbn. lia.
  - destruct b; cbn; lia.
  - destruct (toString_shape n) as (neg & m & -> & _).
    destruct (of_N_head m EmptyString) as (d & r & Hd & _). rewrite str_append_nil_r in Hd.
    rewrite str_length_append, Hd. cbn [String.length]. lia.
  - unfold quote. cbn [String.length]. lia.
  - rewrite !str_length_append. cbn [String.length].
    pose proof (join_length stringify size "," l IH). lia.
  - rewrite !str_length_append. cbn [String.length].
    assert (Forall (fun kv : string * value =>
                      size (snd kv) <= String.length (quote (fst kv) ++ ":" ++ stringify (snd kv)))
              o) as Hall.
    { induction IH as [|kv o Hkv _ IHo]; constructor; [|exact IHo].
      rewrite !str_length_append. lia. }
    pose proof (join_length (fun kv : string * value => quote (fst kv) ++ ":" ++ stringify (snd kv))%string
                  (fun kv => size (snd kv)) "," o Hall). lia.
Qed.

(** [JSON.parse(JSON.stringify(v))] is [v]. *)
Theorem parse_stringify_value v :
  ordered_props v = true -> JSON.parse (JSON.stringify v) = Ok v.
Proof.
  intros Hord. unfold JSON.parse.
  pose proof (parse_stringify v Hord (2 * String.length (stringify v) + 1) EmptyString) as H.
  rewrite str_append_nil_r in H. rewrite H.
  - reflexivity.
  - pose proof (size_le_length v). lia.
  - reflexivity.
Qed.

End JSONRoundTrip.

(** ** Query strings *)

Section UrlencodedFacts.
Import Str Url.

Lemma utf8_char_reads_back c : utf8_reads_back c = true.
Proof. revert c. apply ascii_forall. vm_compute. reflexivity. Qed.

Lemma utf8_decode_encode s : utf8_decode (utf8_encode s) = Ok s.
Proof.
  induction s as [|c s IH]; [reflexivity |].
  pose proof (utf8_char_reads_back c) as Hc. unfold utf8_reads_back in Hc.
  cbn [utf8_encode] in Hc |- *. destruct (code c <? 128)%N eqn:Hlt.
  - cbn [utf8_decode]. rewrite Hlt, IH. reflexivity.
  - apply andb_true_iff in Hc as [[[[H1 H2]%andb_true_iff H3]%andb_true_iff H4]%andb_true_iff
                                  H5%Ascii.eqb_eq].
    apply negb_true_iff in H1.
    cbn [utf8_decode]. unfold code in *. rewrite H1, H2, H3, H4. cbn [andb].
    rewrite IH. cbn. now rewrite H5.
Qed.

Lemma urlencode_byte_reads_back c : urlencode_reads_back c = true.
Proof. revert c. apply ascii_forall. vm_compute. reflexivity. Qed.

Lemma percent_decode_literal x r :
  Ascii.eqb x "%" = false -> percent_decode (String x r) = String x (percent_decode r).
Proof.
  intros Hx. cbn [percent_decode]. destruct r as [|h1 [|h2 r2]]; try reflexivity.
  destruct (JSON.hex_value h1), (JSON.hex_value h2); rewrite ?Hx; reflexivity.
Qed.

Lemma percent_decode_bytes bs :
  percent_decode (Str.map plus_to_space (urlencode_bytes bs)) = bs.
Proof.
  induction bs as [|c bs IH]; [reflexivity |].
  cbn [urlencode_bytes]. rewrite str_map_append.
  pose proof (urlencode_byte_reads_back c) as Hc. unfold urlencode_reads_back in Hc.
  destruct (Str.map plus_to_space (urlencode_byte c)) as [|x [|h1 [|h2 [|]]]];
    try discriminate Hc.
  - apply andb_true_iff in Hc as [Hx%negb_true_iff ->%Ascii.eqb_eq].
    cbn [String.append]. now rewrite (percent_decode_literal _ _ Hx), IH.
  - apply andb_true_iff in Hc as [->%Ascii.eqb_eq Hh].
    cbn [String.append percent_decode].
    destruct (JSON.hex_value h1) as [a|]; [|discriminate].
    destruct (JSON.hex_value h2) as [b|]; [|discriminate].
    apply Ascii.eqb_eq in Hh as ->. cbn. now rewrite IH.
Qed.

Lemma urldecode_urlencode s : urldecode (urlencode s) = Ok s.
Proof.
  unfold urldecode, urlencode. fold plus_to_space.
  change (fun c => if Ascii.eqb c "+" then " "%char else c) with plus_to_space.
  rewrite percent_decode_bytes. apply utf8_decode_encode.
Qed.

Lemma urlencode_byte_chars c : forallb is_urlencoded_char (urlencode_byte c) = true.
Proof. revert c. apply ascii_forall. vm_compute. reflexivity. Qed.

Lemma urlencode_chars s : forallb is_urlencoded_char (urlencode s) = true.
Proof.
  unfold urlencode. induction (utf8_encode s) as [|c bs IH]; [reflexivity |].
  cbn [urlencode_bytes]. now rewrite str_forallb_append, urlencode_byte_chars, IH.
Qed.

Lemma urlencoded_not_separator c :
  is_urlencoded_char c = true ->
  Ascii.eqb c "=" = false /\ Ascii.eqb c "&" = false /\ Ascii.eqb c "?" = false /\
  Ascii.eqb c "#" = false /\ is_query_char c = true.
Proof.
  revert c.
  assert (forall c, negb (is_urlencoded_char c)
            || (negb (Ascii.eqb c "=") && negb (Ascii.eqb c "&") && negb (Ascii.eqb c "?")
                && negb (Ascii.eqb c "#") && is_query_char c) = true) as H
    by (apply ascii_forall; vm_compute; reflexivity).
  intros c Hc. specialize (H c). rewrite Hc in H. cbn [negb orb] in H.
  apply andb_true_iff in H as [[[[H1 H2]%andb_true_iff H3]%andb_true_iff H4]%andb_true_iff H5].
  repeat apply conj; try assumption; now apply negb_true_iff.
Qed.

End UrlencodedFacts.

Section SplitFacts.
Import Str Url.

Lemma span_all p s : forallb p s = true -> span p s = (s, EmptyString).
Proof.
  induction s as [|c s IH]; [reflexivity |]. cbn [forallb span].
  intros [Hc Hs]%andb_true_iff. now rewrite Hc, (IH Hs).
Qed.

Lemma span_stop p a c b :
  forallb p a = true -> p c = false -> span p (a ++ String c b) = (a, String c b).
Proof.
  intros Ha Hc. induction a as [|x a IH]; cbn [String.append span].
  - now rewrite Hc.
  - cbn [forallb] in Ha. apply andb_true_iff in Ha as [Hx Ha]. now rewrite Hx, (IH Ha).
Qed.

Lemma cut_none c s : absent c s = true -> URL.cut c s = (s, None).
Proof. intros H. unfold URL.cut. now rewrite (span_all _ _ H). Qed.

Lemma cut_some c a b : absent c a = true -> URL.cut c (a ++ String c b) = (a, Some b).
Proof.
  intros H. unfold URL.cut. rewrite (span_stop _ _ _ _ H); [reflexivity |].
  now rewrite Ascii.eqb_refl.
Qed.

Lemma split_none c s : absent c s = true -> split c s = [s].
Proof.
  induction s as [|x s IH]; [reflexivity |]. unfold absent. cbn [forallb split].
  intros [Hx%negb_true_iff Hs]%andb_true_iff. rewrite Hx. fold (absent c s) in Hs.
  now rewrite (IH Hs).
Qed.

Lemma split_some c a b : absent c a = true -> split c (a ++ String c b) = a :: split c b.
Proof.
  induction a as [|x a IH]; cbn [String.append split].
  - now rewrite Ascii.eqb_refl.
  - unfold absent. cbn [forallb]. intros [Hx%negb_true_iff Ha]%andb_true_iff.
    rewrite Hx. fold (absent c a) in Ha. now rewrite (IH Ha).
Qed.

Lemma absent_append c s t : absent c (s ++ t) = absent c s && absent c t.
Proof. apply str_forallb_append. Qed.

Lemma urlencode_absent s :
  absent "=" (urlencode s) = true /\ absent "&" (urlencode s) = true.
Proof.
  split; apply (str_forallb_impl is_urlencoded_char); try apply urlencode_chars;
    intros c Hc; destruct (urlencoded_not_separator c Hc) as (H1 & H2 & _);
    now apply negb_true_iff.
Qed.

Lemma pair_text_absent p : absent "&" (pair_text p) = true.
Proof.
  unfold pair_text. rewrite !absent_append.
  destruct (urlencode_absent (fst p)) as [_ ->], (urlencode_absent (snd p)) as [_ ->].
  reflexivity.
Qed.

Lemma split_pair_text p : split_pair (pair_text p) = (urlencode (fst p), urlencode (snd p)).
Proof.
  unfold split_pair, pair_text. cbn [String.append].
  destruct (urlencode_absent (fst p)) as [H _].
  rewrite (span_stop _ _ _ _ H); [reflexivity | reflexivity].
Qed.

Lemma split_concat (l : list string) :
  l <> [] -> Forall (fun s => absent "&" s = true) l ->
  split "&" (String.concat "&" l) = l.
Proof.
  intros Hne Hall. induction Hall as [|s l Hs Hl IH]; [contradiction |].
  destruct l as [|t l].
  - cbn [String.concat]. now apply split_none.
  - change (String.concat "&" (s :: t :: l)) with (s ++ String "&" (String.concat "&" (t :: l))).
    rewrite (split_some _ _ _ Hs), IH; [reflexivity | discriminate].
Qed.

Lemma parse_pairs_text l : parse_pairs (List.map pair_text l) = Ok l.
Proof.
  induction l as [|[n v] l IH]; [reflexivity |].
  cbn [List.map parse_pairs].
  assert (String.eqb (pair_text (n, v)) EmptyString = false) as ->.
  { apply String.eqb_neq. unfold pair_text. intros H.
    apply (f_equal String.length) in H. rewrite !str_length_append in H.
    cbn [String.length] in H. lia. }
  rewrite split_pair_text. cbn [fst snd]. rewrite !urldecode_urlencode, IH. reflexivity.
Qed.

(** The query parser reads back what [toString] writes. *)
Theorem urlencoded_parse_toString l :
  urlencoded_parse (URLSearchParams.toString l) = Ok l.
Proof.
  unfold urlencoded_parse, URLSearchParams.toString. fold pair_text.
  change (fun p : string * string => urlencode (fst p) ++ "=" ++ urlencode (snd p))
    with pair_text.
  destruct l as [|p l]; [reflexivity |].
  rewrite split_concat; [apply parse_pairs_text | discriminate |].
  apply Forall_forall. intros s [p' [<- _]]%list_elem_of_In%in_map_iff. apply pair_text_absent.
Qed.

Lemma toString_chars l : forallb is_query_char (URLSearchParams.toString l) = true.
Proof.
  unfold URLSearchParams.toString.
  change (fun p : string * string => urlencode (fst p) ++ "=" ++ urlencode (snd p))
    with pair_text.
  assert (forall p, forallb is_query_char (pair_text p) = true) as Hp.
  { intros p. unfold pair_text. rewrite !str_forallb_append.
    assert (forall s, forallb is_query_char (urlencode s) = true) as Hu.
    { intros s. apply (str_forallb_impl is_urlencoded_char); [|apply urlencode_chars].
      intros c Hc. now destruct (urlencoded_not_separator c Hc) as (_ & _ & _ & _ & H). }
    now rewrite !Hu. }
  induction l as [|p l IH]; [reflexivity |].
  destruct l as [|p' l]; [apply Hp |].
  change (String.concat "&" (List.map pair_text (p :: p' :: l)))
    with (pair_text p ++ String "&" (String.concat "&" (List.map pair_text (p' :: l)))).
  rewrite str_forallb_append, Hp. cbn [forallb andb].
  change (is_query_char "&") with true. exact IH.
Qed.

End SplitFacts.

(** ** Links *)

Section LinkFacts.
Import Str Url.

Lemma encodeParameters_pairs params :
  encodeParameters params = query (parameter_pairs params).
Proof.
  destruct params as [[[|c s]|] [[|c' s']|] [[|]|]]; reflexivity.
Qed.

Lemma query_cases l :
  (query l = EmptyString /\ l = []) \/
  (query l = String "?" (URLSearchParams.toString l)).
Proof.
  unfold query. destruct l as [|p l]; [left; split; reflexivity |].
  right. destruct (URLSearchParams.toString (p :: l)) eqn:H; [|reflexivity].
  exfalso. unfold URLSearchParams.toString in H. cbn [List.map String.concat] in H.
  apply (f_equal String.length) in H.
  destruct (List.map _ l); rewrite ?str_length_append in H; cbn [String.length] in H;
    rewrite ?str_length_append in H; cbn [String.length] in H; lia.
Qed.

Lemma not_dot_segment s :
  starts_plain s = true -> URL.is_single_dot s = false /\ URL.is_double_dot s = false.
Proof.
  unfold starts_plain, URL.is_single_dot, URL.is_double_dot.
  destruct s as [|c s]; [split; reflexivity |].
  cbn [head_is Str.map String.eqb]. intros H%negb_true_iff.
  assert (Ascii.eqb (URL.to_lower c) "." = false /\ Ascii.eqb (URL.to_lower c) "%" = false)
    as [-> ->]; [|split; reflexivity].
  revert c H.
  assert (forall c, (Ascii.eqb c "." || Ascii.eqb c "%")
            || (negb (Ascii.eqb (URL.to_lower c) ".") && negb (Ascii.eqb (URL.to_lower c) "%"))
            = true) as Hall by (apply ascii_forall; vm_compute; reflexivity).
  intros c Hc. specialize (Hall c). rewrite Hc in Hall.
  apply andb_true_iff in Hall as [H1 H2]. split; now apply negb_true_iff.
Qed.

Lemma unreserved_class c :
  unreserved c = true ->
  URL.is_printable c = true /\ URL.path_encoded c = false /\
  Ascii.eqb c "/" = false /\ Ascii.eqb c "?" = false /\ Ascii.eqb c "#" = false.
Proof.
  revert c.
  assert (forall c, negb (unreserved c)
            || (URL.is_printable c && negb (URL.path_encoded c) && negb (Ascii.eqb c "/")
                && negb (Ascii.eqb c "?") && negb (Ascii.eqb c "#")) = true) as H
    by (apply ascii_forall; vm_compute; reflexivity).
  intros c Hc. specialize (H c). rewrite Hc in H. cbn [negb orb] in H.
  apply andb_true_iff in H as [[[[H1 H2]%andb_true_iff H3]%andb_true_iff H4]%andb_true_iff H5].
  repeat apply conj; try assumption; now apply negb_true_iff.
Qed.

Lemma query_char_class c :
  is_query_char c = true ->
  URL.is_printable c = true /\ Ascii.eqb c "#" = false.
Proof.
  revert c.
  assert (forall c, negb (is_query_char c)
            || (URL.is_printable c && negb (Ascii.eqb c "#")) = true) as H
    by (apply ascii_forall; vm_compute; reflexivity).
  intros c Hc. specialize (H c). rewrite Hc in H. cbn [negb orb] in H.
  apply andb_true_iff in H as [H1 H2]. split; [assumption | now apply negb_true_iff].
Qed.

Lemma forallb_class (p q : ascii -> bool) s :
  (forall c, p c = true -> q c = true) -> forallb p s = true -> forallb q s = true.
Proof. apply str_forallb_impl. Qed.

(** The URL parser on a link that an encoder builds. *)
Lemma parse_link kind payload l :
  In kind ["tx"; "op"; "ops"] ->
  forallb unreserved payload = true -> starts_plain payload = true ->
  URL.parse ("steem://sign/" ++ kind ++ "/" ++ payload ++ query l)
  = Ok (URL.mk "steem:" "sign" ("/" ++ kind ++ "/" ++ payload) l).
Proof.
  intros Hkind Hpay Hplain.
  assert (forallb URL.is_printable payload = true) as Hprint.
  { revert Hpay. apply forallb_class. intros c Hc. now destruct (unreserved_class c Hc). }
  assert (forallb (fun c => negb (URL.path_encoded c)) payload = true) as Henc.
  { revert Hpay. apply forallb_class. intros c Hc.
    destruct (unreserved_class c Hc) as (_ & H & _). now rewrite H. }
  assert (absent "/" payload = true) as Hslash.
  { revert Hpay. apply forallb_class. intros c Hc.
    destruct (unreserved_class c Hc) as (_ & _ & H & _). now rewrite H. }
  assert (absent "?" payload = true) as Hq.
  { revert Hpay. apply forallb_class. intros c Hc.
    destruct (unreserved_class c Hc) as (_ & _ & _ & H & _). now rewrite H. }
  assert (absent "#" payload = true) as Hh.
  { revert Hpay. apply forallb_class. intros c Hc.
    destruct (unreserved_class c Hc) as (_ & _ & _ & _ & H). now rewrite H. }
  assert (forallb URL.is_printable (URLSearchParams.toString l) = true) as Hqprint.
  { generalize (toString_chars l). apply forallb_class. intros c Hc.
    now destruct (query_char_class c Hc). }
  assert (absent "#" (URLSearchParams.toString l) = true) as Hqh.
  { generalize (toString_chars l). apply forallb_class. intros c Hc.
    destruct (query_char_class c Hc) as [_ H]. now rewrite H. }
  destruct (not_dot_segment _ Hplain) as [Hsd Hdd].
  unfold URL.parse.
  assert (forallb URL.is_printable ("steem://sign/" ++ kind ++ "/" ++ payload ++ query l) = true)
    as ->.
  { rewrite !str_forallb_append, Hprint.
    destruct (query_cases l) as [[-> _] | ->];
      destruct Hkind as [<- | [<- | [<- | []]]]; cbn [forallb]; rewrite ?Hqprint; reflexivity. }
  cbn [negb].
  change ("steem://sign/" ++ kind ++ "/" ++ payload ++ query l)
    with ("steem" ++ String ":" ("//sign/" ++ kind ++ "/" ++ payload ++ query l)).
  rewrite span_stop by reflexivity.
  change (URL.is_alpha "s" && Ascii.eqb ":" ":") with true. cbn [negb].
  change (Str.map URL.to_lower "steem") with "steem".
  change (existsb (String.eqb "steem") URL.special_schemes) with false. cbv iota.
  assert (URL.cut "?" (fst (URL.cut "#" ("//sign/" ++ kind ++ "/" ++ payload ++ query l)))
          = ("//sign/" ++ kind ++ "/" ++ payload,
             match l with [] => None | _ => Some (URLSearchParams.toString l) end)) as ->.
  { destruct (query_cases l) as [[-> ->] | Hquery].
    - rewrite str_append_nil_r. rewrite (cut_none "#").
      + cbn [fst]. rewrite (cut_none "?"); [reflexivity |].
        rewrite !absent_append, Hq. destruct Hkind as [<- | [<- | [<- | []]]]; reflexivity.
      + rewrite !absent_append, Hh. destruct Hkind as [<- | [<- | [<- | []]]]; reflexivity.
    - rewrite Hquery. rewrite (cut_none "#").
      + cbn [fst].
        replace ("//sign/" ++ kind ++ "/" ++ payload ++ String "?" (URLSearchParams.toString l))
          with (("//sign/" ++ kind ++ "/" ++ payload) ++ String "?" (URLSearchParams.toString l))
          by (now rewrite !str_append_assoc).
        rewrite (cut_some "?").
        * destruct l; [|reflexivity]. discriminate Hquery.
        * rewrite !absent_append, Hq. destruct Hkind as [<- | [<- | [<- | []]]]; reflexivity.
      + rewrite !absent_append, Hh. unfold absent at 4. cbn [forallb].
        fold (absent "#" (URLSearchParams.toString l)). rewrite Hqh.
        destruct Hkind as [<- | [<- | [<- | []]]]; reflexivity. }
  cbv beta iota.
  assert ((match l with [] => None | _ :: _ => Some (URLSearchParams.toString l) end
           = None /\ l = [])
          \/ (match l with [] => None | _ :: _ => Some (URLSearchParams.toString l) end
              = Some (URLSearchParams.toString l))) as [[-> Hl] | ->]
    by (destruct l; [left; split; reflexivity | right; reflexivity]);
    rewrite ?urlencoded_parse_toString; rewrite ?Hl.
  all: cbn [mbind result_bind bind].
  all: change (strip_prefix "//" ("//sign/" ++ kind ++ "/" ++ payload))
    with (Some ("sign" ++ String "/" (kind ++ "/" ++ payload)));
    cbv iota; rewrite (cut_some "/") by reflexivity;
    change (forallb (fun c => negb (URL.host_forbidden c)) "sign") with true;
    change (forallb (fun c => negb (URL.host_unmodelled c)) "sign") with true;
    cbn [negb orb];
    assert (forallb (fun c => negb (URL.path_encoded c)) ("//sign/" ++ kind ++ "/" ++ payload)
            = true) as ->
      by (rewrite !str_forallb_append, Henc;
          destruct Hkind as [<- | [<- | [<- | []]]]; reflexivity);
    cbn [negb]; f_equal; f_equal;
    replace (kind ++ "/" ++ payload) with (kind ++ String "/" payload) by reflexivity;
    (rewrite (split_some "/"), (split_none _ _ Hslash);
     [|destruct Hkind as [<- | [<- | [<- | []]]]; reflexivity]);
    assert (URL.is_double_dot kind = false /\ URL.is_single_dot kind = false) as [Hkd Hks]
      by (destruct Hkind as [<- | [<- | [<- | []]]]; split; reflexivity);
    cbn [URL.path_segments]; rewrite Hkd, Hks, Hdd, Hsd;
    cbn [app URL.serialize_path List.map String.concat String.append];
    reflexivity.
Qed.

End LinkFacts.

(** ** Round trip *)

Section RoundTrip.
Import Str Url.

Lemma b64uEnc_starts_plain x : starts_plain (b64uEnc x) = true.
Proof.
  unfold starts_plain, b64uEnc, Base64.btoa.
  pose proof (to_sextets_bound x) as Hb.
  destruct (Base64.to_sextets x) as [|n l] eqn:Hs.
  - destruct x as [|a [|b [|c r]]]; [reflexivity | discriminate Hs ..].
  - inversion Hb as [|? ? Hn _]; subst. cbn [Base64.chars String.append Str.map head_is].
    clear Hs Hb. revert n Hn. apply below_64_cases. repeat constructor.
Qed.

Lemma split_path kind payload :
  In kind ["tx"; "op"; "ops"] -> absent "/" payload = true ->
  List.tl (split "/" ("/" ++ kind ++ "/" ++ payload)) = [kind; payload].
Proof.
  intros Hkind Hp. cbn [String.append split]. change (Ascii.eqb "/" "/") with true.
  cbv iota. cbn [List.tl].
  replace (kind ++ String "/" payload) with (kind ++ String "/" payload) by reflexivity.
  rewrite (split_some "/"), (split_none _ _ Hp); [reflexivity |].
  destruct Hkind as [<- | [<- | [<- | []]]]; reflexivity.
Qed.

Lemma b64uEnc_no_slash x : absent "/" (b64uEnc x) = true.
Proof.
  generalize (b64uEnc_unreserved x). apply str_forallb_impl. intros c Hc.
  destruct (unreserved_class c Hc) as (_ & _ & H & _). now rewrite H.
Qed.

(** The parameters that [decode] reads from the pairs that
    [encodeParameters] sets. *)
Lemma decode_parameters p :
  carried p = true ->
  let search := parameter_pairs p in
  (callback ← match URLSearchParams.get search "cb" with
              | Some cb => s ← b64uDec cb; Ok (Some s)
              | None => Ok None
              end;
   Ok (Parameters.mk (URLSearchParams.get search "s") callback
         (if URLSearchParams.has search "nb" then Some true else None)))
  = Ok p.
Proof.
  destruct p as [[[|c s]|] [[|c' s']|] [[|]|]]; try discriminate; intros _; cbv zeta;
    unfold parameter_pairs;
    cbn [Parameters.signer Parameters.callback Parameters.no_broadcast is_nonempty
         String.eqb negb default app URLSearchParams.get URLSearchParams.has List.find
         existsb fst snd fmap option_fmap option_map Ascii.eqb Bool.eqb andb orb];
    rewrite ?b64uDec_b64uEnc; reflexivity.
Qed.

(** Decoding a link built around the text of a value. *)
Lemma decode_link kind v p :
  In kind ["tx"; "op"; "ops"] ->
  ordered_props v = true -> carried p = true ->
  decode ("steem://sign/" ++ kind ++ "/" ++ encodeJson v ++ encodeParameters p)
  = Ok (DecodeResult.mk
          (if String.eqb kind "tx" then v
           else if String.eqb kind "op" then unresolved (Arr [v])
           else unresolved v) p).
Proof.
  intros Hkind Hv Hp. unfold decode, encodeJson.
  rewrite encodeParameters_pairs.
  rewrite (parse_link kind _ _ Hkind (b64uEnc_unreserved _) (b64uEnc_starts_plain _)).
  cbn [mbind result_bind bind]. unfold decode_url.
  cbn [URL.protocol URL.host URL.pathname URL.searchParams].
  change (negb (String.eqb "steem:" "steem:")) with false.
  change (negb (String.eqb "sign" "sign")) with false. cbv iota.
  rewrite (split_path _ _ Hkind (b64uEnc_no_slash _)).
  cbn [nth_error]. unfold decode_payload.
  rewrite b64uDec_b64uEnc. cbn [mbind result_bind bind].
  rewrite (parse_stringify_value _ Hv). cbn [rethrow].
  pose proof (decode_parameters p Hp) as Hparams. cbv zeta in Hparams.
  destruct Hkind as [<- | [<- | [<- | []]]];
    cbn [String.eqb Ascii.eqb Bool.eqb andb]; cbn [mbind result_bind bind];
    cbn [mbind result_bind bind] in Hparams;
    destruct (match URLSearchParams.get (parameter_pairs p) "cb" with
              | Some cb => _ | None => _ end) as [cb| |]; try discriminate Hparams;
    cbn [mbind result_bind bind] in Hparams |- *; injection Hparams as Hparams;
    rewrite Hparams; reflexivity.
Qed.


Theorem decode_encodeOp op p :
  ordered_props op = true -> carried p = true ->
  decode (encodeOp op p) = Ok (DecodeResult.mk (unresolved (Arr [op])) p).
Proof.
  intros Ht Hp. unfold encodeOp.
  change ("steem://sign/op/" ++ encodeJson op ++ encodeParameters p)
    with ("steem://sign/" ++ "op" ++ "/" ++ encodeJson op ++ encodeParameters p).
  rewrite (decode_link "op" op p); [reflexivity | right; now left | exact Ht | exact Hp].
Qed.

Theorem decode_encodeOps ops p :
  ordered_props ops = true -> carried p = true ->
  decode (encodeOps ops p) = Ok (DecodeResult.mk (unresolved ops) p).
Proof.
  intros Ht Hp. unfold encodeOps.
  change ("steem://sign/ops/" ++ encodeJson ops ++ encodeParameters p)
    with ("steem://sign/" ++ "ops" ++ "/" ++ encodeJson ops ++ encodeParameters p).
  rewrite (decode_link "ops" ops p); [reflexivity | right; right; now left | exact Ht | exact Hp].
Qed.



Example decode_no_broadcast_false :
  decode (encodeTx limit_order (Parameters.mk None None (Some false)))
  = Ok (DecodeResult.mk limit_order no_parameters).
Proof. vm_compute. reflexivity. Qed.

Example decode_empty_signer :
  decode (encodeTx limit_order (Parameters.mk (Some EmptyString) None None))
  = Ok (DecodeResult.mk limit_order no_parameters).
Proof. vm_compute. reflexivity. Qed.

End RoundTrip.


(** ** The examples of the README *)

Example encodeOp_vote :
  encodeOp vote no_parameters
  = "steem://sign/op/WyJ2b3RlIix7InZvdGVyIjoiZm9vIiwiYXV0aG9yIjoiYmFyIiwicGVybWxpbmsiOiJiYXoiLCJ3ZWlnaHQiOjEwMDAwfV0.".
Proof. vm_compute. reflexivity. Qed.

Example encodeOps_vote_transfer :
  encodeOps (Arr [vote; transfer])
    (Parameters.mk None (Some "https://example.com/wallet?tx={{id}}") None)
  = "steem://sign/ops/W1sidm90ZSIseyJ2b3RlciI6ImZvbyIsImF1dGhvciI6ImJhciIsInBlcm1saW5rIjoiYmF6Iiwid2VpZ2h0IjoxMDAwMH1dLFsidHJhbnNmZXIiLHsiZnJvbSI6ImZvbyIsInRvIjoiYmFyIiwiYW1vdW50IjoiMTAuMDAwIFNURUVNIiwibWVtbyI6ImJheiJ9XV0.?cb=aHR0cHM6Ly9leGFtcGxlLmNvbS93YWxsZXQ_dHg9e3tpZH19".
Proof. vm_compute. reflexivity. Qed.

Example encodeTx_limit_order :
  encodeTx limit_order limit_order_parameters
  = "steem://sign/tx/eyJyZWZfYmxvY2tfbnVtIjo0ODg3MiwicmVmX2Jsb2NrX3ByZWZpeCI6MTU0Mzg1ODUxOSwiZXhwaXJhdGlvbiI6IjIwMTgtMDUtMjlUMTM6MTc6MzkiLCJleHRlbnNpb25zIjpbXSwib3BlcmF0aW9ucyI6W1sibGltaXRfb3JkZXJfY3JlYXRlMiIseyJvd25lciI6ImZvbyIsIm9yZGVyaWQiOjEsImFtb3VudF90b19zZWxsIjoiMTAuMDAwIFNURUVNIiwiZmlsbF9vcl9raWxsIjpmYWxzZSwiZXhjaGFuZ2VfcmF0ZSI6eyJiYXNlIjoiMS4wMDAgU1RFRU0iLCJxdW90ZSI6IjAuNDIwIFNCRCJ9LCJleHBpcmF0aW9uIjoiMjAxOC0wNS0zMFQwMDowMDowMCJ9XV19?s=foo&cb=aHR0cHM6Ly9zdGVlbS50cmFkZXIvc2lnbl9jYWxsYmFjaz9pZD17e2lkfX0.".
Proof. vm_compute. reflexivity. Qed.

Example encodeOp_witness_vote :
  encodeOp witness_vote no_parameters
  = "steem://sign/op/WyJhY2NvdW50X3dpdG5lc3Nfdm90ZSIseyJhY2NvdW50IjoiX19zaWduZXIiLCJ3aXRuZXNzIjoiamVzdGEiLCJhcHByb3ZlIjp0cnVlfV0.".
Proof. vm_compute. reflexivity. Qed.

Example decode_witness_vote :
  decode "steem://sign/op/WyJhY2NvdW50X3dpdG5lc3Nfdm90ZSIseyJhY2NvdW50IjoiX19zaWduZXIiLCJ3aXRuZXNzIjoiamVzdGEiLCJhcHByb3ZlIjp0cnVlfV0."
  = Ok (DecodeResult.mk (unresolved (Arr [witness_vote])) no_parameters).
Proof. vm_compute. reflexivity. Qed.

Example resolve_witness_vote :
  resolveTransaction (unresolved (Arr [witness_vote])) no_parameters
    (ResolveOptions.mk 0 0 "1970-01-01T00:00:00" ["foo"] "foo")
  = Ok (ResolveResult.mk
          (Obj [("ref_block_num", Str "0");
                ("ref_block_prefix", Str "0");
                ("expiration", Str "1970-01-01T00:00:00");
                ("extensions", Arr []);
                ("operations",
                 Arr [Arr [Str "account_witness_vote";
                           Obj [("account", Str "foo"); ("witness", Str "jesta");
                                ("approve", Bool true)]]])])
          "foo").
Proof. vm_compute. reflexivity. Qed.


(* ====================================================================== *)
(** * Part III: further properties of the source *)
(* ====================================================================== *)

(** ** The codec *)

Section CodecFacts.
Import Base64.

Lemma length_to_sextets s :
  (length (to_sextets s) + String.length (padding s) = 4 * ((String.length s + 2) / 3))%nat.
Proof.
  induction s as [|a|a b|a b c r IH] using string_ind3.
  - reflexivity.
  - reflexivity.
  - reflexivity.
  - cbn [to_sextets length String.length]. unfold padding in *.
    cbn [String.length]. rewrite mod3_step.
    replace (S (S (S (String.length r))) + 2)%nat with (1 * 3 + (String.length r + 2))%nat by lia.
    rewrite Nat.div_add_l by lia. lia.
Qed.

(** Property X1.  What [b64uEnc] returns is made of letters, digits and [- _ .]
    only, and is four characters long for every three bytes, the last
    group padded. *)
Theorem b64uEnc_shape b :
  Str.forallb is_base64u_char (b64uEnc b) = true /\
  String.length (b64uEnc b) = (4 * ((String.length b + 2) / 3))%nat.
Proof.
  split; [apply b64uEnc_chars |].
  unfold b64uEnc, btoa. rewrite str_length_map, str_length_append, length_chars.
  apply length_to_sextets.
Qed.

Lemma str_filter_cons p c s :
  Str.filter p (String c s) = if p c then String c (Str.filter p s) else Str.filter p s.
Proof. reflexivity. Qed.

Lemma str_map_cons f c s : Str.map f (String c s) = String (f c) (Str.map f s).
Proof. reflexivity. Qed.

Lemma char_of_not_dot n :
  (n < 64)%N -> Ascii.eqb (B64U_LOOKUP_enc (char_of n)) "." = false.
Proof. revert n. apply below_64_cases. repeat constructor. Qed.

Lemma unpadded_chars l pad :
  Forall (fun n => (n < 64)%N) l ->
  pad = EmptyString \/ pad = "="%string \/ pad = "=="%string ->
  unpadded (Str.map B64U_LOOKUP_enc (chars l ++ pad)) = Str.map B64U_LOOKUP_enc (chars l).
Proof.
  intros Hl Hpad. unfold unpadded. induction Hl as [|n l Hn _ IH].
  - destruct Hpad as [-> | [-> | ->]]; reflexivity.
  - cbn [chars String.append]. rewrite str_map_cons, str_filter_cons.
    rewrite (char_of_not_dot n Hn). cbn [negb]. now rewrite IH.
Qed.

Lemma dec_enc_chars l :
  Forall (fun n => (n < 64)%N) l ->
  Str.map B64U_LOOKUP_dec (Str.map B64U_LOOKUP_enc (chars l)) = chars l.
Proof.
  induction 1 as [|n l Hn _ IH]; [reflexivity |].
  cbn [chars]. rewrite !str_map_cons. now rewrite (lookup_dec_enc n Hn), IH.
Qed.

Lemma atob_chars s : atob (chars (to_sextets s)) = Ok s.
Proof.
  pose proof (to_sextets_bound s) as Hb.
  destruct (btoa_length s) as [_ Hlen'].
  unfold atob, forgiving_data.
  rewrite (str_filter_all _ _ (chars_no_whitespace _ Hb)).
  assert ((if (String.length (chars (to_sextets s)) mod 4 =? 0)%nat
           then strip_padding (chars (to_sextets s)) else chars (to_sextets s))
          = chars (to_sextets s)) as ->.
  { destruct (String.length _ mod 4 =? 0)%nat; [|reflexivity].
    pose proof (strip_padding_chars (to_sextets s) EmptyString Hb (or_introl eq_refl)) as H.
    now rewrite str_append_nil_r in H. }
  rewrite length_chars, Hlen', (indices_chars _ Hb), of_to_sextets. reflexivity.
Qed.

(** Property X2.  [b64uDec] does not need the padding: it decodes what [b64uEnc]
    returns, without its [.], to the same bytes. *)
Theorem b64uDec_unpadded b : b64uDec (unpadded (b64uEnc b)) = Ok b.
Proof.
  unfold b64uEnc, btoa, b64uDec.
  rewrite (unpadded_chars _ _ (to_sextets_bound b) (padding_cases b)).
  rewrite (dec_enc_chars _ (to_sextets_bound b)). apply atob_chars.
Qed.

Lemma str_filter_map (f : ascii -> ascii) (p : ascii -> bool) s :
  (forall c, p (f c) = p c) ->
  Str.map f (Str.filter p s) = Str.filter p (Str.map f s).
Proof.
  intros Hf. induction s as [|c s IH]; [reflexivity |].
  rewrite str_map_cons, !str_filter_cons, Hf.
  destruct (p c); rewrite ?str_map_cons; now rewrite IH.
Qed.

Lemma str_filter_idem (p : ascii -> bool) s :
  Str.filter p (Str.filter p s) = Str.filter p s.
Proof.
  induction s as [|c s IH]; [reflexivity |].
  rewrite str_filter_cons. destruct (p c) eqn:Hc; [|exact IH].
  rewrite str_filter_cons. now rewrite Hc, IH.
Qed.

Lemma lookup_dec_whitespace c :
  negb (is_ascii_whitespace (B64U_LOOKUP_dec c)) = negb (is_ascii_whitespace c).
Proof.
  apply eqb_prop. revert c.
  apply (ascii_forall (fun c => Bool.eqb (negb (is_ascii_whitespace (B64U_LOOKUP_dec c)))
                                 (negb (is_ascii_whitespace c)))).
  vm_compute. reflexivity.
Qed.

(** Property X3.  [b64uDec] ignores ASCII whitespace, wherever it stands. *)
Theorem b64uDec_whitespace s : b64uDec (without_whitespace s) = b64uDec s.
Proof.
  unfold b64uDec, without_whitespace.
  rewrite (str_filter_map _ _ _ lookup_dec_whitespace).
  unfold atob, forgiving_data. now rewrite str_filter_idem.
Qed.

End CodecFacts.


(** ** The links of the encoders *)

Section LinkShape.
Import Str.

Lemma encodeParameters_normalized p : encodeParameters (normalized p) = encodeParameters p.
Proof. destruct p as [[[|c s]|] [[|c' s']|] [[|]|]]; reflexivity. Qed.

Lemma carried_normalized p : carried (normalized p) = true.
Proof. destruct p as [[[|c s]|] [[|c' s']|] [[|]|]]; reflexivity. Qed.

Lemma decode_link_any kind v p :
  In kind ["tx"; "op"; "ops"] -> ordered_props v = true ->
  decode (link kind v p)
  = Ok (DecodeResult.mk
          (if String.eqb kind "tx" then v
           else if String.eqb kind "op" then unresolved (Arr [v])
           else unresolved v) (normalized p)).
Proof.
  intros Hk Hv. unfold link. rewrite <- encodeParameters_normalized.
  apply decode_link; [exact Hk | exact Hv | apply carried_normalized].
Qed.







(** Property X9.  Two transactions with the same link are the same transaction,
    and their parameters are the same but for what a link does not carry. *)
Theorem encodeTx_injective t t' p p' :
  ordered_props t = true -> ordered_props t' = true ->
  encodeTx t p = encodeTx t' p' ->
  t = t' /\ normalized p = normalized p'.
Proof.
  intros Ht Ht' H.
  pose proof (decode_link_any "tx" t p (or_introl eq_refl) Ht) as D.
  pose proof (decode_link_any "tx" t' p' (or_introl eq_refl) Ht') as D'.
  change (link "tx" t p) with (encodeTx t p) in D.
  change (link "tx" t' p') with (encodeTx t' p') in D'.
  change (String.eqb "tx" "tx") with true in D, D'. cbv iota in D, D'.
  rewrite H, D' in D.
  assert (DecodeResult.mk t' (normalized p') = DecodeResult.mk t (normalized p)) as E
    by congruence.
  split; [exact (eq_sym (f_equal DecodeResult.tx E))
         | exact (eq_sym (f_equal DecodeResult.params E))].
Qed.

Example encodeTx_empty_signer :
  encodeTx limit_order (Parameters.mk (Some EmptyString) None None)
  = encodeTx limit_order no_parameters.
Proof. vm_compute. reflexivity. Qed.

Lemma encodeTx_injective_witness :
  limit_order = limit_order /\
  normalized (Parameters.mk (Some EmptyString) None None) = normalized no_parameters.
Proof.
  exact (encodeTx_injective limit_order limit_order _ _ eq_refl eq_refl encodeTx_empty_signer).
Defined.

(** Property X5.  The payload codec: the [try] block of [decode] reads back the
    value that [encodeJson] wrote, for a value of the model: its strings
    hold code units below 256, which is what [btoa] accepts, the
    properties of its objects stand as JavaScript enumerates them, and its
    numbers are integers that a JavaScript number holds exactly. *)
Theorem decode_payload_encodeJson v :
  ordered_props v = true -> safe_numbers v = true ->
  decode_payload (Some (encodeJson v)) = Ok v.
Proof.
  intros Hv _. unfold decode_payload, encodeJson. rewrite b64uDec_b64uEnc.
  cbn [mbind result_bind bind]. now rewrite (parse_stringify_value _ Hv).
Qed.

Lemma decode_payload_encodeJson_witness : decode_payload (Some (encodeJson vote)) = Ok vote.
Proof. exact (decode_payload_encodeJson vote eq_refl eq_refl). Defined.

Lemma link_char_classes c :
  (unreserved c = true -> is_link_char c = true) /\
  (is_query_char c = true -> is_link_char c = true).
Proof.
  assert (forall c, (negb (unreserved c) || is_link_char c)
                    && (negb (is_query_char c) || is_link_char c) = true) as H
    by (apply ascii_forall; vm_compute; reflexivity).
  specialize (H c). apply andb_true_iff in H as [H1 H2].
  split; intros Hc; [rewrite Hc in H1; exact H1 | rewrite Hc in H2; exact H2].
Qed.

Lemma encodeParameters_chars p : forallb is_link_char (encodeParameters p) = true.
Proof.
  rewrite encodeParameters_pairs.
  destruct (query_cases (parameter_pairs p)) as [[-> _] | ->]; [reflexivity |].
  cbn [forallb]. change (is_link_char "?") with true. cbn [andb].
  apply (str_forallb_impl is_query_char); [|apply toString_chars].
  intros c. apply link_char_classes.
Qed.

Lemma link_shape kind data p :
  In kind ["tx"; "op"; "ops"] ->
  forallb is_link_char (link kind data p) = true /\
  URL.parse (link kind data p)
  = Ok (URL.mk "steem:" "sign" ("/" ++ kind ++ "/" ++ encodeJson data) (parameter_pairs p)).
Proof.
  intros Hk. split.
  - unfold link. rewrite !str_forallb_append, encodeParameters_chars.
    assert (forallb is_link_char (encodeJson data) = true) as ->.
    { apply (str_forallb_impl unreserved); [|apply b64uEnc_unreserved].
      intros c. apply link_char_classes. }
    destruct Hk as [<- | [<- | [<- | []]]]; reflexivity.
  - unfold link. rewrite encodeParameters_pairs.
    apply parse_link; [exact Hk | apply b64uEnc_unreserved | apply b64uEnc_starts_plain].
Qed.

(** Property X10.  Every link that an encoder returns is made of letters, digits
    and [* - . _ : / ? & = % +] only, and [new URL] reads it as the scheme
    [steem:], the authority [sign], the path [/<kind>/<payload>] and the
    pairs of the parameters. *)
Theorem encoded_links data p :
  (forallb is_link_char (encodeTx data p) = true /\
   URL.parse (encodeTx data p)
   = Ok (URL.mk "steem:" "sign" ("/tx/" ++ encodeJson data) (parameter_pairs p))) /\
  (forallb is_link_char (encodeOp data p) = true /\
   URL.parse (encodeOp data p)
   = Ok (URL.mk "steem:" "sign" ("/op/" ++ encodeJson data) (parameter_pairs p))) /\
  (forallb is_link_char (encodeOps data p) = true /\
   URL.parse (encodeOps data p)
   = Ok (URL.mk "steem:" "sign" ("/ops/" ++ encodeJson data) (parameter_pairs p))).
Proof.
  repeat apply conj.
  - apply (link_shape "tx" data p). now left.
  - apply (link_shape "tx" data p). now left.
  - apply (link_shape "op" data p). right. now left.
  - apply (link_shape "op" data p). right. now left.
  - apply (link_shape "ops" data p). right. right. now left.
  - apply (link_shape "ops" data p). right. right. now left.
Qed.

End LinkShape.


(** ** The outcomes of [decode] *)

Section DecodeFacts.

Lemma recognized_kind_tx url payload :
  recognized_kind (kind_of url) ->
  exists tx,
    match kind_of url with
    | Some t =>
        if String.eqb t "tx" then Ok payload
        else if String.eqb t "op" then Ok (unresolved (Arr [payload]))
        else if String.eqb t "ops" then Ok (unresolved payload)
        else Throw (InvalidSigningAction (kind_of url))
    | None => Throw (InvalidSigningAction (kind_of url))
    end = Ok tx.
Proof. intros [-> | [-> | ->]]; eexists; reflexivity. Qed.

(** Property X11.  [decode] succeeds on the links that parse as a URL with the
    scheme [steem:] and the authority [sign], a kind among [tx], [op] and
    [ops], a payload that is the Base64u text of a JSON value and, when
    there is a [cb] parameter, a value that [b64uDec] accepts; and on no
    other. *)
Theorem decode_accepts steemUrl :
  succeeds (decode steemUrl) <->
  exists url, URL.parse steemUrl = Ok url /\ accepted_link url.
Proof.
  split.
  - intros [r H]. unfold decode in H. apply bind_Ok_inv in H as (url & Hurl & H).
    exists url. split; [exact Hurl |].
    pose proof (decode_url_Ok_signing _ _ H) as Hs.
    rewrite (decode_url_signing _ Hs) in H.
    apply bind_Ok_inv in H as (payload & Hpay & H).
    apply bind_Ok_inv in H as (tx & Htx & H).
    apply bind_Ok_inv in H as (cb & Hcb & H).
    refine (conj Hs (conj _ (conj _ _))).
    + destruct (kind_cases (kind_of url)) as [Hr | [_ Hne]]; [exact Hr |].
      destruct (kind_of url) as [t|]; [|discriminate Htx].
      destruct Hne as (H1 & H2 & H3). rewrite H1, H2, H3 in Htx. discriminate Htx.
    + now exists payload.
    + intros c Hc. rewrite Hc in Hcb.
      destruct (b64uDec c) as [s| |]; [now exists s | discriminate Hcb ..].
  - intros (url & Hurl & Hs & Hk & [payload Hpay] & Hcb).
    rewrite (decode_parsed _ _ Hurl), (decode_url_signing _ Hs), Hpay.
    cbn [mbind result_bind bind].
    destruct (recognized_kind_tx url payload Hk) as [tx ->].
    destruct (URLSearchParams.get (URL.searchParams url) "cb") as [c|] eqn:Hc.
    + destruct (Hcb c eq_refl) as [s ->]. eexists. reflexivity.
    + eexists. reflexivity.
Qed.

Lemma b64uDec_throws s e : b64uDec s = Throw e -> e = InvalidCharacterError.
Proof.
  unfold b64uDec, Base64.atob.
  destruct (_ =? 1)%nat; [now intros [= <-] |].
  destruct (Base64.indices _); [discriminate | now intros [= <-]].
Qed.

Lemma unicode_escape_throws h1 h2 h3 h4 e :
  JSON.unicode_escape h1 h2 h3 h4 = Throw e -> e = SyntaxError.
Proof.
  unfold JSON.unicode_escape.
  destruct (JSON.hex_value h1), (JSON.hex_value h2), (JSON.hex_value h3), (JSON.hex_value h4);
    try (now intros [= <-]).
  destruct (_ && _); discriminate.
Qed.

Lemma parse_string_throws s e : JSON.parse_string s = Throw e -> e = SyntaxError.
Proof.
  remember (String.length s) as n eqn:Hn. revert s Hn e.
  induction n as [n IH] using lt_wf_ind. intros s Hn e.
  destruct s as [|c r]; cbn [JSON.parse_string]; [now intros [= <-] |].
  cbn [String.length] in Hn.
  destruct (Ascii.eqb c _); [discriminate |].
  destruct (Ascii.eqb c _).
  - destruct r as [|e0 r1]; [now intros [= <-] |].
    destruct (Ascii.eqb e0 "u").
    + destruct r1 as [|h1 [|h2 [|h3 [|h4 r2]]]]; try (now intros [= <-]).
      destruct (JSON.unicode_escape h1 h2 h3 h4) as [ch|e'|] eqn:Hu;
        cbn [mbind result_bind bind]; [| | discriminate].
      * destruct (JSON.parse_string r2) as [[str rest]|e'|] eqn:Hp; [discriminate | | discriminate].
        intros [= <-]. apply (IH (String.length r2)) with (s := r2); [|reflexivity | exact Hp].
        subst n. cbn [String.length]. lia.
      * intros [= <-]. exact (unicode_escape_throws _ _ _ _ _ Hu).
    + destruct (JSON.unescape e0); [| now intros [= <-]].
      cbn [mbind result_bind bind].
      destruct (JSON.parse_string r1) as [[str rest]|e'|] eqn:Hp; [discriminate | | discriminate].
      intros [= <-]. apply (IH (String.length r1)) with (s := r1); [|reflexivity | exact Hp].
      subst n. cbn [String.length]. lia.
  - destruct (_ <? _)%N; [now intros [= <-] |].
    cbn [mbind result_bind bind].
    destruct (JSON.parse_string r) as [[str rest]|e'|] eqn:Hp; [discriminate | | discriminate].
    intros [= <-]. apply (IH (String.length r)) with (s := r); [|reflexivity | exact Hp].
    subst n. lia.
Qed.

Lemma parse_number_throws s e : JSON.parse_number s = Throw e -> e = SyntaxError.
Proof.
  unfold JSON.parse_number.
  destruct (match s with String c r => _ | EmptyString => _ end) as [neg s1].
  destruct (Str.span _ s1) as [ds rest].
  destruct ds as [|d ds']; [now intros [= <-] |].
  destruct (_ && _); [now intros [= <-] |].
  destruct rest as [|c r]; [discriminate |].
  destruct (_ || _); discriminate.
Qed.

Ltac throw_step :=
  match goal with
  | |- Throw _ = Throw _ -> _ => intros [= <-]; try reflexivity
  | |- Ok _ = Throw _ -> _ => discriminate
  | |- Unmodelled = Throw _ -> _ => discriminate
  | |- context [mbind _ ?r] => destruct r as [[? ?]|?|] eqn:?; cbn [mbind result_bind bind]
  | |- context [match ?x with _ => _ end] => destruct x eqn:?
  | |- context [if ?x then _ else _] => destruct x eqn:?
  end.

Lemma parse_value_throws fuel :
  (forall s e, JSON.parse_value fuel s = Throw e -> e = SyntaxError) /\
  (forall s e, JSON.parse_elements fuel s = Throw e -> e = SyntaxError) /\
  (forall s e, JSON.parse_members fuel s = Throw e -> e = SyntaxError).
Proof.
  induction fuel as [|f (IHv & IHe & IHm)]; [repeat split; discriminate |].
  refine (conj _ (conj _ _)); intros s e;
    cbn [JSON.parse_value JSON.parse_elements JSON.parse_members mbind result_bind bind];
    repeat throw_step;
    eauto using parse_string_throws, parse_number_throws.
Qed.

Lemma parse_throws text e : JSON.parse text = Throw e -> e = SyntaxError.
Proof.
  unfold JSON.parse.
  destruct (JSON.parse_value _ text) as [[v rest]|e'|] eqn:Hp;
    cbn [mbind result_bind bind]; [| | discriminate].
  - destruct (JSON.skip_ws rest); [discriminate | now intros [= <-]].
  - intros [= <-]. exact (proj1 (parse_value_throws _) _ _ Hp).
Qed.

(** What the [try] block of [decode] throws: the error of [JSON.parse]
    or of reading a missing segment, labelled, or the [TypeError] that
    the handler itself raises on the exception of [atob]. *)
Lemma decode_payload_throws raw e :
  decode_payload raw = Throw e ->
  (raw = None /\ e = InvalidPayload TypeError) \/
  (exists s, raw = Some s /\ b64uDec s = Throw InvalidCharacterError /\ e = TypeError) \/
  (exists s text, raw = Some s /\ b64uDec s = Ok text /\ JSON.parse text = Throw SyntaxError /\
                  e = InvalidPayload SyntaxError).
Proof.
  unfold decode_payload. destruct raw as [s|].
  - destruct (b64uDec s) as [text|e'|] eqn:Hd; cbn [mbind result_bind bind].
    + destruct (JSON.parse text) as [v|e'|] eqn:Hp; cbn [rethrow]; [discriminate | | discriminate].
      pose proof (parse_throws _ _ Hp) as ->. intros [= <-].
      right. right. now exists s, text.
    + pose proof (b64uDec_throws _ _ Hd) as ->. cbn [rethrow label_payload_error].
      intros [= <-]. right. left. now exists s.
    + discriminate.
  - cbn [mbind result_bind bind rethrow label_payload_error]. intros [= <-]. now left.
Qed.

(** Property X12.  What each outcome of [decode] tells about a link that
    [new URL] reads.  The checks come in the order scheme, authority,
    payload, kind, callback, and the outcome is that of the first check
    that fails.  The errors of the scheme, the authority and the kind
    name what the link has there; [Invalid payload] labels the error of
    reading a missing payload segment or of [JSON.parse].  Two failures
    leave [decode] without a label of its own: a payload that is no
    Base64u text (a [TypeError]) and a [cb] that is no Base64u text (the
    exception of [atob]). *)
Theorem decode_outcomes steemUrl url :
  URL.parse steemUrl = Ok url ->
  match decode steemUrl with
  | Ok _ => accepted_link url
  | Throw (InvalidProtocol got) => got = URL.protocol url /\ got <> "steem:"
  | Throw (InvalidAction got) =>
      URL.protocol url = "steem:" /\ got = URL.host url /\ got <> "sign"
  | Throw TypeError =>
      signing_url url /\
      exists raw, payload_of url = Some raw /\ b64uDec raw = Throw InvalidCharacterError
  | Throw (InvalidPayload cause) =>
      signing_url url /\
      ((payload_of url = None /\ cause = TypeError) \/
       (exists raw text, payload_of url = Some raw /\ b64uDec raw = Ok text /\
                         JSON.parse text = Throw SyntaxError /\ cause = SyntaxError))
  | Throw (InvalidSigningAction got) =>
      signing_url url /\ succeeds (decode_payload (payload_of url)) /\
      got = kind_of url /\ ~ recognized_kind got
  | Throw InvalidCharacterError =>
      signing_url url /\ succeeds (decode_payload (payload_of url)) /\
      recognized_kind (kind_of url) /\
      exists cb, URLSearchParams.get (URL.searchParams url) "cb" = Some cb /\
                 b64uDec cb = Throw InvalidCharacterError
  | Throw _ => False
  | Unmodelled => signing_url url /\ decode_payload (payload_of url) = Unmodelled
  end.
Proof.
  intros Hurl. rewrite (decode_parsed _ _ Hurl).
  destruct (String.eqb_spec (URL.protocol url) "steem:") as [Hp | Hp].
  2:{ unfold decode_url. destruct (String.eqb_spec (URL.protocol url) "steem:");
        [contradiction | cbn [negb]; auto]. }
  destruct (String.eqb_spec (URL.host url) "sign") as [Hh | Hh].
  2:{ unfold decode_url. rewrite Hp. change (String.eqb "steem:" "steem:") with true.
      cbn [negb]. destruct (String.eqb_spec (URL.host url) "sign");
        [contradiction | cbn [negb]; auto]. }
  assert (signing_url url) as Hs by (split; assumption).
  rewrite (decode_url_signing _ Hs).
  destruct (decode_payload (payload_of url)) as [payload|e|] eqn:Hpay;
    cbn [mbind result_bind bind].
  - destruct (kind_cases (kind_of url)) as [Hk | [Hk Hne]].
    + destruct (recognized_kind_tx url payload Hk) as [tx ->].
      cbn [mbind result_bind bind].
      destruct (URLSearchParams.get (URL.searchParams url) "cb") as [c|] eqn:Hc.
      * destruct (b64uDec c) as [s|e|] eqn:Hd; cbn [mbind result_bind bind].
        -- refine (conj Hs (conj Hk (conj _ _))); [now exists payload |].
           intros cb Hcb. rewrite Hc in Hcb. injection Hcb as <-. now exists s.
        -- rewrite (b64uDec_throws _ _ Hd) in Hd |- *.
           refine (conj Hs (conj _ (conj Hk _))); [now exists payload |].
           now exists c.
        -- unfold b64uDec, Base64.atob in Hd.
           destruct (_ =? 1)%nat; [discriminate Hd |].
           destruct (Base64.indices _); discriminate Hd.
      * cbn [mbind result_bind bind].
        refine (conj Hs (conj Hk (conj _ _))); [now exists payload |].
        intros cb Hcb. rewrite Hc in Hcb. discriminate Hcb.
    + assert (match kind_of url with
              | Some t =>
                  if String.eqb t "tx" then Ok payload
                  else if String.eqb t "op" then Ok (unresolved (Arr [payload]))
                  else if String.eqb t "ops" then Ok (unresolved payload)
                  else Throw (InvalidSigningAction (kind_of url))
              | None => Throw (InvalidSigningAction (kind_of url))
              end = @Throw value (InvalidSigningAction (kind_of url))) as ->.
      { destruct (kind_of url) as [t|]; [|reflexivity].
        destruct Hne as (-> & -> & ->). reflexivity. }
      cbn [mbind result_bind bind].
      refine (conj Hs (conj _ (conj eq_refl Hk))). now exists payload.
  - destruct (decode_payload_throws _ _ Hpay)
      as [[Hn ->] | [(raw & Hr & Hd & ->) | (raw & text & Hr & Hd & Hj & ->)]].
    + split; [exact Hs | now left].
    + split; [exact Hs | now exists raw].
    + split; [exact Hs | right; now exists raw, text].
  - split; [exact Hs | reflexivity].
Qed.

(** Property X12 at the link [steem://sign/follow/YWxpY2U.]. *)
Lemma decode_outcomes_witness :
  signing_url follow_text_url /\
  ((payload_of follow_text_url = None /\ SyntaxError = TypeError) \/
   (exists raw text, payload_of follow_text_url = Some raw /\ b64uDec raw = Ok text /\
                     JSON.parse text = Throw SyntaxError /\ SyntaxError = SyntaxError)).
Proof.
  pose proof (decode_outcomes follow_text follow_text_url follow_text_parsed) as H.
  rewrite follow_text_decoded in H. exact H.
Defined.

(** Property X13.  [decode] never returns [no_broadcast = false]: the parameter is
    [true] when the link has a pair named [nb], whatever its value, and
    absent otherwise. *)
Theorem decode_no_broadcast steemUrl r :
  decode steemUrl = Ok r ->
  Parameters.no_broadcast (DecodeResult.params r) <> Some false /\
  forall url, URL.parse steemUrl = Ok url ->
    (Parameters.no_broadcast (DecodeResult.params r) = Some true
     <-> exists v, In ("nb", v) (URL.searchParams url)).
Proof.
  intros H. unfold decode in H. apply bind_Ok_inv in H as (url & Hurl & H).
  pose proof (decode_url_Ok_signing _ _ H) as Hs.
  rewrite (decode_url_signing _ Hs) in H.
  apply bind_Ok_inv in H as (payload & Hpay & H).
  apply bind_Ok_inv in H as (tx & Htx & H).
  apply bind_Ok_inv in H as (cb & Hcb & H).
  injection H as <-. cbn [DecodeResult.params Parameters.no_broadcast].
  split.
  - destruct (URLSearchParams.has _ _); discriminate.
  - intros url' Hurl'. rewrite Hurl in Hurl'. injection Hurl' as <-.
    unfold URLSearchParams.has.
    destruct (existsb _ _) eqn:Hex.
    + split; [|reflexivity]. intros _.
      apply existsb_exists in Hex as ([n v] & Hin & Heq).
      apply String.eqb_eq in Heq. cbn in Heq. subst n. now exists v.
    + split; [discriminate |]. intros [v Hin].
      assert (existsb (fun p : string * string => String.eqb (fst p) "nb") (URL.searchParams url)
              = true) as Ht.
      { apply existsb_exists. exists ("nb", v). split; [exact Hin | reflexivity]. }
      congruence.
Qed.

Example nb_false_decoded :
  decode nb_false_link
  = Ok (DecodeResult.mk (Num 1) (Parameters.mk None None (Some true))).
Proof. vm_compute. reflexivity. Qed.

Lemma decode_no_broadcast_witness :
  Parameters.no_broadcast (Parameters.mk None None (Some true)) <> Some false /\
  forall url, URL.parse nb_false_link = Ok url ->
    (Parameters.no_broadcast (Parameters.mk None None (Some true)) = Some true
     <-> exists v, In ("nb", v) (URL.searchParams url)).
Proof. exact (decode_no_broadcast _ _ nb_false_decoded). Defined.

End DecodeFacts.


(** ** Strings without placeholders, and the callback templates *)

Section ResolveFacts.

Lemma replace_nowhere p f s :
  matches_nowhere p s = true -> Regex.replace p f s = s.
Proof.
  induction s as [|c s IH]; cbn [matches_nowhere].
  - destruct (Regex.exec p EmptyString) eqn:He; [discriminate |]. intros _.
    now apply replace_empty.
  - destruct (Regex.exec p (String c s)) eqn:He; [discriminate |]. intros H.
    rewrite (replace_no_match _ _ _ _ He). now rewrite (IH H).
Qed.

Lemma map_strings_free f v :
  (forall s, matches_nowhere RESOLVE_PATTERN s = true -> f s = s) ->
  placeholder_free v = true -> map_strings f v = v.
Proof.
  intros Hf. induction v as [| | | s |l IH|o IH] using value_ind; try reflexivity.
  - cbn [placeholder_free map_strings]. intros H. now rewrite (Hf _ H).
  - cbn [placeholder_free map_strings]. intros H. f_equal.
    induction IH as [|x l Hx _ IHl]; [reflexivity |].
    cbn [forallb List.map] in *. apply andb_true_iff in H as [H1 H2].
    now rewrite (Hx H1), (IHl H2).
  - cbn [placeholder_free map_strings]. intros H. f_equal.
    induction IH as [|[k x] o Hx _ IHo]; [reflexivity |].
    cbn [forallb List.map fst snd] in *. apply andb_true_iff in H as [H1 H2].
    now rewrite (Hx H1), (IHo H2).
Qed.

(** Property X15.  A transaction without placeholders is resolved to itself. *)
Theorem resolveTransaction_placeholder_free utx params options r :
  ordered_props utx = true -> no_proto_key utx = true -> placeholder_free utx = true ->
  resolveTransaction utx params options = Ok r ->
  ResolveResult.tx r = utx.
Proof.
  intros Ho Hp Hf. unfold resolveTransaction.
  destruct (negb _); [discriminate |]. intros [= <-]. cbn [ResolveResult.tx].
  rewrite (walk_map_strings _ _ Ho Hp). apply map_strings_free; [|exact Hf].
  intros s. apply replace_nowhere.
Qed.

Example limit_order_resolved :
  resolveTransaction limit_order limit_order_parameters readme_options
  = Ok (ResolveResult.mk limit_order "foo").
Proof. vm_compute. reflexivity. Qed.

Lemma resolveTransaction_placeholder_free_witness :
  ResolveResult.tx (ResolveResult.mk limit_order "foo") = limit_order.
Proof.
  exact (resolveTransaction_placeholder_free limit_order limit_order_parameters readme_options
           _ eq_refl eq_refl eq_refl limit_order_resolved).
Defined.

(** Property X19.  A callback URL in which none of [{{sig}}], [{{id}}], [{{block}}]
    and [{{txn}}] occurs is returned as it is, other [{{...}}] included. *)
Theorem resolveCallback_template_free url ctx :
  matches_nowhere CALLBACK_RESOLVE_PATTERN url = true -> resolveCallback url ctx = url.
Proof. apply replace_nowhere. Qed.

Lemma resolveCallback_template_free_witness :
  resolveCallback "https://example.com/{{other}}?id={id}"
    (TransactionConfirmation.mk "ab" (Some "cd") (Some 5%Z) (Some 1%Z))
  = "https://example.com/{{other}}?id={id}".
Proof.
  exact (resolveCallback_template_free "https://example.com/{{other}}?id={id}" _ eq_refl).
Defined.

End ResolveFacts.


(** ** The header of a decoded link *)

Section HeaderFacts.

Lemma replace_token p f c m g :
  Regex.exec p (String c m) = Some (String c m, g) ->
  Regex.exec p EmptyString = None ->
  Regex.replace p f (String c m) = f (String c m) g.
Proof.
  intros He H0.
  pose proof (replace_match p f c m EmptyString g) as H.
  rewrite !str_append_nil_r in H.
  rewrite (H He), (replace_empty _ _ H0). apply str_append_nil_r.
Qed.

(** Property X16.  Resolving the transaction that [decode] builds for an [op] or
    [ops] link fails when resolving its operations fails, with the same
    error, and gives otherwise the same signer, the operations resolved,
    [options.expiration] for the expiration and no extensions.  The
    statement leaves open what stands for the two block numbers of the
    header. *)
Theorem resolveTransaction_unresolved ops params options :
  exists num prefix,
    resolveTransaction (unresolved ops) params options
    = (r ← resolveTransaction ops params options;
       Ok (ResolveResult.mk (resolved_header num prefix options (ResolveResult.tx r))
             (ResolveResult.signer r))).
Proof.
  exists (Str (Number.toString (ResolveOptions.ref_block_num options))),
         (Str (Number.toString (ResolveOptions.ref_block_prefix options))).
  unfold resolveTransaction.
  set (signer := or_string _ _).
  destruct (negb _); [reflexivity |].
  cbn [mbind result_bind bind ResolveResult.tx ResolveResult.signer]. do 2 f_equal.
  match goal with |- context [walk ?c ops] => set (ctx := c) end.
  destruct (resolve_ctx_lookup (ResolveOptions.ref_block_num options)
              (ResolveOptions.ref_block_prefix options)
              (ResolveOptions.expiration options) signer) as (Hn & Hx & He & Hs).
  cbv zeta in Hn, Hx, He, Hs. fold ctx in Hn, Hx, He, Hs.
  unfold unresolved, resolved_header. cbn [walk Object.entries fold_left fst snd List.map].
  rewrite (replace_token _ _ "_" "_ref_block_num" "__ref_block_num") by reflexivity.
  rewrite (replace_token _ _ "_" "_ref_block_prefix" "__ref_block_prefix") by reflexivity.
  rewrite (replace_token _ _ "_" "_expiration" "__expiration") by reflexivity.
  rewrite Hn, Hx, He. reflexivity.
Qed.

End HeaderFacts.


(** ** Cycles *)

Section CycleFacts.
Import Heap.

Lemma reachable_mono h h' v l : unchanged h h' -> reachable h v l -> reachable h' v l.
Proof.
  intros U R. induction R as [l | l o x l' Hl Hin R IH].
  - constructor.
  - eapply reachable_step; [apply U; exact Hl | exact Hin | exact IH].
Qed.

Lemma reaches_cycle_mono h h' v : unchanged h h' -> reaches_cycle h v -> reaches_cycle h' v.
Proof.
  intros U (l & R & o & x & Hl & Hin & Rx).
  exists l. split; [now apply (reachable_mono h) |].
  exists o, x. repeat split; [now apply U | exact Hin | now apply (reachable_mono h)].
Qed.

Lemma reaches_cycle_inv h v :
  reaches_cycle h v ->
  exists l o x, v = VRef l /\ h !! l = Some o /\ In x (contents o) /\ reaches_cycle h x.
Proof.
  intros (l0 & R & Hc). inversion R as [l | l o x l' Hl Hin Rx]; subst.
  - destruct Hc as (o & x & Hl & Hin & Rx).
    exists l0, o, x. repeat split; try assumption.
    exists l0. split; [exact Rx |]. now exists o, x.
  - exists l, o, x. repeat split; try assumption. now exists l0.
Qed.

Lemma walk_elements_none w a es h0 v :
  walk_ok w -> h0 !! a = None -> In v es ->
  (forall h, unchanged h0 h -> w h v = None) ->
  forall hc, unchanged h0 hc -> walk_elements w a es hc = None.
Proof.
  intros Hw Ha Hin Hv. induction es as [|e es IH]; [destruct Hin |].
  intros hc U. cbn [walk_elements].
  destruct Hin as [-> | Hin].
  - now rewrite (Hv hc U).
  - destruct (w hc e) as [[h1 v']|] eqn:He; [|reflexivity].
    apply (IH Hin). destruct (Hw _ _ _ _ He) as [[U1 _] _].
    intros l o Hl. rewrite lookup_alter_ne by (intros <-; congruence). apply U1, U, Hl.
Qed.

Lemma walk_entries_none w rv ps h0 v :
  walk_ok w -> h0 !! rv = None -> In v (List.map snd ps) ->
  (forall h, unchanged h0 h -> w h v = None) ->
  forall hc, unchanged h0 hc -> walk_entries w rv ps hc = None.
Proof.
  intros Hw Ha Hin Hv. induction ps as [|[k e] ps IH]; [destruct Hin |].
  intros hc U. cbn [walk_entries].
  destruct Hin as [Heq | Hin].
  - cbn [snd] in Heq. subst e. now rewrite (Hv hc U).
  - destruct (w hc e) as [[h1 v']|] eqn:He; [|reflexivity].
    apply (IH Hin). destruct (Hw _ _ _ _ He) as [[U1 _] _].
    intros l o Hl. rewrite lookup_alter_ne by (intros <-; congruence). apply U1, U, Hl.
Qed.

Lemma walk_cycle ctx fuel : forall h v, reaches_cycle h v -> walk fuel ctx h v = None.
Proof.
  induction fuel as [|f IH]; intros h v Hc; [reflexivity |].
  destruct (reaches_cycle_inv _ _ Hc) as (l & o & x & -> & Hl & Hin & Hx).
  cbn [walk]. rewrite Hl.
  assert (forall o', unchanged h (<[fresh (dom h) := o']> h)) as Ualloc.
  { intros o' l' o'' Hl'. rewrite lookup_insert_ne; [exact Hl' |].
    intros <-. rewrite fresh_None in Hl'. discriminate. }
  assert (forall h', unchanged h h' -> walk f ctx h' x = None) as Hnone.
  { intros h' U. apply IH. now apply (reaches_cycle_mono h). }
  destruct o as [es|ps]; cbn [contents] in Hin.
  - rewrite (walk_elements_none _ _ es h x (walk_walked f ctx) (fresh_None h) Hin Hnone);
      [reflexivity | apply Ualloc].
  - unfold Object.entries.
    rewrite (walk_entries_none _ _ ps h x (walk_walked f ctx) (fresh_None h) Hin Hnone);
      [reflexivity | apply Ualloc].
Qed.

(** Property X18.  [walk] has no guard against cycles: on a transaction from which
    an object on a cycle is reachable, the call does not return, whatever
    the depth of recursion it is given, once the signer is available. *)
Theorem resolveTransaction_cycle fuel h utx params options :
  reaches_cycle h utx ->
  In (selected_signer params options) (ResolveOptions.signers options) ->
  resolveTransaction fuel h utx params options = None.
Proof.
  intros Hc Hin. unfold resolveTransaction. rewrite or_string_selected.
  apply includes_In in Hin. rewrite Hin. cbn [negb].
  now rewrite (walk_cycle _ fuel h utx Hc).
Qed.

Lemma self_array_cycle : reaches_cycle self_array (VRef 1%positive).
Proof.
  exists 1%positive. split; [constructor |].
  exists (OArray [VRef 1%positive]), (VRef 1%positive).
  refine (conj _ (conj _ _)); [vm_compute; reflexivity | now left | constructor].
Qed.

Lemma resolveTransaction_cycle_witness :
  resolveTransaction 1000 self_array (VRef 1%positive) no_parameters sample_options = None.
Proof.
  apply resolveTransaction_cycle; [exact self_array_cycle | now left].
Defined.

End CycleFacts.


(** ** Decoded transactions *)

Section ParseFacts.
Import JSON.

Lemma goes_before_asym k k' : Object.goes_before k k' = true -> Object.goes_before k' k = false.
Proof.
  unfold Object.goes_before.
  destruct (Object.array_index k) as [i|], (Object.array_index k') as [j|]; try easy.
  intros H%N.ltb_lt. apply N.ltb_ge. lia.
Qed.

Lemma goes_before_trans a b c :
  Object.goes_before a b = true -> Object.goes_before b c = true ->
  Object.goes_before a c = true.
Proof.
  unfold Object.goes_before.
  destruct (Object.array_index a) as [i|], (Object.array_index b) as [j|],
    (Object.array_index c) as [l|]; try easy.
  intros H1%N.ltb_lt H2%N.ltb_lt. apply N.ltb_lt. lia.
Qed.

Lemma goes_before_irrefl k : Object.goes_before k k = false.
Proof.
  unfold Object.goes_before. destruct (Object.array_index k) as [i|]; [|reflexivity].
  apply N.ltb_irrefl.
Qed.

Lemma forallb_define_keys {V} (q : string -> bool) (o : list (string * V)) k v :
  q k = true -> forallb q (List.map fst o) = true ->
  forallb q (List.map fst (Object.define o k v)) = true.
Proof.
  intros Hk. induction o as [|[k' v'] o IH]; cbn [Object.define List.map fst forallb].
  - now rewrite Hk.
  - intros [Hk' Ho]%andb_true_iff.
    destruct (String.eqb k k'); [cbn [List.map fst forallb]; now rewrite Hk, Ho |].
    destruct (Object.goes_before k k'); cbn [List.map fst forallb].
    + now rewrite Hk, Hk', Ho.
    + now rewrite Hk', (IH Ho).
Qed.

Lemma forallb_define_values {V} (q : V -> bool) (o : list (string * V)) k v :
  q v = true -> forallb (fun kv => q (snd kv)) o = true ->
  forallb (fun kv => q (snd kv)) (Object.define o k v) = true.
Proof.
  intros Hv. induction o as [|[k' v'] o IH]; cbn [Object.define forallb snd].
  - now rewrite Hv.
  - intros [Hv' Ho]%andb_true_iff.
    destruct (String.eqb k k'); [cbn [forallb snd]; now rewrite Hv, Ho |].
    destruct (Object.goes_before k k'); cbn [forallb snd].
    + now rewrite Hv, Hv', Ho.
    + now rewrite Hv', (IH Ho).
Qed.

Lemma define_keys_ordered {V} (o : list (string * V)) k v :
  keys_ordered (List.map fst o) = true ->
  keys_ordered (List.map fst (Object.define o k v)) = true.
Proof.
  induction o as [|[k' v'] o IH]; [reflexivity |].
  cbn [Object.define List.map fst keys_ordered].
  intros [Hk' Ho]%andb_true_iff.
  destruct (String.eqb_spec k k') as [-> | Hne].
  { cbn [List.map fst keys_ordered]. now rewrite Hk', Ho. }
  destruct (Object.goes_before k k') eqn:Hgb.
  - cbn [List.map fst keys_ordered forallb]. rewrite Hk', Ho, !andb_true_r.
    apply andb_true_iff. split.
    + rewrite (goes_before_asym _ _ Hgb), andb_true_r.
      apply negb_true_iff, String.eqb_neq. congruence.
    + clear IH Ho. induction (List.map fst o) as [|x xs IHx]; [reflexivity |].
      cbn [forallb] in Hk' |- *. apply andb_true_iff in Hk' as [Hx Hxs].
      rewrite (IHx Hxs), andb_true_r.
      apply andb_true_iff in Hx as [Hx1 Hx2].
      apply negb_true_iff in Hx1, Hx2. apply andb_true_iff. split; apply negb_true_iff.
      * apply String.eqb_neq. intros ->. congruence.
      * destruct (Object.goes_before x k) eqn:Hxk; [|reflexivity].
        rewrite (goes_before_trans _ _ _ Hxk Hgb) in Hx2. discriminate.
  - cbn [List.map fst keys_ordered]. rewrite (IH Ho), andb_true_r.
    apply forallb_define_keys; [|exact Hk'].
    rewrite Hgb. cbn [negb]. rewrite andb_true_r.
    apply negb_true_iff, String.eqb_neq. exact Hne.
Qed.

Lemma obj_of_members_props ms :
  forallb (fun kv => ordered_props (snd kv)) ms = true ->
  ordered_props (Obj (obj_of_members ms)) = true.
Proof.
  unfold obj_of_members. cbn [ordered_props].
  assert (forall acc,
            keys_ordered (List.map fst acc) = true ->
            forallb (fun kv => ordered_props (snd kv)) acc = true ->
            forallb (fun kv => ordered_props (snd kv)) ms = true ->
            keys_ordered (List.map fst
              (fold_left (fun o kv => Object.define o (fst kv) (snd kv)) ms acc))
            && forallb (fun kv => ordered_props (snd kv))
                 (fold_left (fun o kv => Object.define o (fst kv) (snd kv)) ms acc) = true) as H.
  { induction ms as [|[k v] ms IH]; intros acc Hk Hv Hms.
    - cbn [fold_left]. now rewrite Hk, Hv.
    - cbn [forallb snd] in Hms. apply andb_true_iff in Hms as [Hv1 Hms].
      cbn [fold_left fst snd]. apply IH; [| |exact Hms].
      + now apply define_keys_ordered.
      + now apply forallb_define_values. }
  intros Hms. now apply H.
Qed.

Lemma parse_value_ordered fuel : parses_ordered fuel.
Proof.
  induction fuel as [|f (IHv & IHe & IHm)]; [repeat split; discriminate |].
  repeat apply conj.
  - intros s v rest. cbn [parse_value].
    destruct (skip_ws s) as [|c r] eqn:Hs; [discriminate |].
    destruct (Ascii.eqb c "[").
    { destruct (skip_ws r) as [|c1 r1]; [discriminate |].
      destruct (Ascii.eqb c1 "]"); [now intros [= <- _] |].
      intros H. apply bind_Ok_inv in H as ([l rest'] & He & H). injection H as <- _.
      cbn [ordered_props]. exact (IHe _ _ _ He). }
    destruct (Ascii.eqb c "{").
    { destruct (skip_ws r) as [|c1 r1]; [discriminate |].
      destruct (Ascii.eqb c1 "}"); [now intros [= <- _] |].
      intros H. apply bind_Ok_inv in H as ([ms rest'] & Hm & H). injection H as <- _.
      apply obj_of_members_props. exact (IHm _ _ _ Hm). }
    destruct (Ascii.eqb c Str.dquote).
    { intros H. apply bind_Ok_inv in H as ([str rest'] & _ & H). now injection H as <- _. }
    destruct (Ascii.eqb c "-" || Str.is_digit c).
    { unfold parse_number.
      destruct (match String c r with
                | String c0 r0 => if Ascii.eqb c0 "-" then (true, r0) else (false, String c r)
                | EmptyString => (false, String c r)
                end) as [neg s1].
      destruct (Str.span Str.is_digit s1) as [ds rest'].
      destruct ds as [|d ds']; [discriminate |].
      destruct (Ascii.eqb d "0" && negb (String.eqb ds' EmptyString)); [discriminate |].
      destruct rest' as [|c2 r2]; [now intros [= <- _] |].
      destruct (Ascii.eqb c2 "." || Ascii.eqb c2 "e" || Ascii.eqb c2 "E"); [discriminate |].
      now intros [= <- _]. }
    destruct (Str.strip_prefix "true" (String c r)); [now intros [= <- _] |].
    destruct (Str.strip_prefix "false" (String c r)); [now intros [= <- _] |].
    destruct (Str.strip_prefix "null" (String c r)); [now intros [= <- _] | discriminate].
  - intros s l rest. cbn [parse_elements].
    intros H. apply bind_Ok_inv in H as ([v r] & Hv & H).
    destruct (skip_ws r) as [|c r1]; [discriminate |].
    destruct (Ascii.eqb c ",").
    { apply bind_Ok_inv in H as ([l' rest'] & He & H). injection H as <- _.
      cbn [forallb]. now rewrite (IHv _ _ _ Hv), (IHe _ _ _ He). }
    destruct (Ascii.eqb c "]"); [|discriminate].
    injection H as <- _. cbn [forallb]. now rewrite (IHv _ _ _ Hv).
  - intros s ms rest. cbn [parse_members].
    destruct (skip_ws s) as [|c0 r0]; [discriminate |].
    destruct (Ascii.eqb c0 Str.dquote); [|discriminate].
    intros H. apply bind_Ok_inv in H as ([k r] & _ & H).
    destruct (skip_ws r) as [|c1 r1]; [discriminate |].
    destruct (Ascii.eqb c1 ":"); [|discriminate].
    apply bind_Ok_inv in H as ([v r2] & Hv & H).
    destruct (skip_ws r2) as [|c2 r3]; [discriminate |].
    destruct (Ascii.eqb c2 ",").
    { apply bind_Ok_inv in H as ([ms' rest'] & Hm & H). injection H as <- _.
      cbn [forallb snd]. now rewrite (IHv _ _ _ Hv), (IHm _ _ _ Hm). }
    destruct (Ascii.eqb c2 "}"); [|discriminate].
    injection H as <- _. cbn [forallb snd]. now rewrite (IHv _ _ _ Hv).
Qed.

Lemma parse_ordered s v : JSON.parse s = Ok v -> ordered_props v = true.
Proof.
  unfold JSON.parse. intros H. apply bind_Ok_inv in H as ([v' rest] & Hv & H).
  destruct (skip_ws rest); [|discriminate]. injection H as <-.
  exact (proj1 (parse_value_ordered _) _ _ _ Hv).
Qed.

Lemma decode_payload_ordered raw v : decode_payload raw = Ok v -> ordered_props v = true.
Proof.
  intros (s & text & _ & _ & Hp)%decode_payload_Ok. exact (parse_ordered _ _ Hp).
Qed.

Lemma decode_tx_ordered steemUrl r :
  decode steemUrl = Ok r -> ordered_props (DecodeResult.tx r) = true.
Proof.
  intros H. unfold decode in H. apply bind_Ok_inv in H as (url & Hurl & H).
  pose proof (decode_url_Ok_signing _ _ H) as Hs.
  rewrite (decode_url_signing _ Hs) in H.
  apply bind_Ok_inv in H as (payload & Hpay & H).
  apply bind_Ok_inv in H as (tx & Htx & H).
  apply bind_Ok_inv in H as (cb & Hcb & H).
  injection H as <-. cbn [DecodeResult.tx].
  pose proof (decode_payload_ordered _ _ Hpay) as Ho.
  assert (forall ops, ordered_props ops = true -> ordered_props (unresolved ops) = true) as Hu.
  { intros ops Hops. unfold unresolved. cbn [ordered_props List.map fst snd forallb].
    rewrite Hops. reflexivity. }
  destruct (kind_of url) as [t|]; [|discriminate Htx].
  destruct (String.eqb t "tx"); [now injection Htx as <- |].
  destruct (String.eqb t "op"); [injection Htx as <-; apply Hu; cbn; now rewrite Ho |].
  destruct (String.eqb t "ops"); [injection Htx as <-; now apply Hu | discriminate Htx].
Qed.

(** Property X14.  A decoded transaction can be encoded again, when the link
    is one that the model reads (printable ASCII, the escapes of its
    query for code units below 256; in the JSON text of the payload no
    escape above [\u00ff] and no number with a fraction or an exponent)
    and its numbers are integers that a JavaScript number holds exactly:
    the link that [encodeTx] builds from the transaction and its
    parameters decodes to the same transaction, with the parameters that
    a link carries. *)
Theorem decode_encodeTx_decoded steemUrl r :
  decode steemUrl = Ok r ->
  safe_numbers (DecodeResult.tx r) = true ->
  decode (encodeTx (DecodeResult.tx r) (DecodeResult.params r))
  = Ok (DecodeResult.mk (DecodeResult.tx r) (normalized (DecodeResult.params r))).
Proof.
  intros H _. apply (decode_link_any "tx"); [now left |].
  exact (decode_tx_ordered _ _ H).
Qed.

Lemma decode_encodeTx_decoded_witness :
  decode (encodeTx (unresolved (Arr [witness_vote])) no_parameters)
  = Ok (DecodeResult.mk (unresolved (Arr [witness_vote])) (normalized no_parameters)).
Proof. exact (decode_encodeTx_decoded _ _ decode_witness_vote eq_refl). Defined.

End ParseFacts.
